(** * audfprint: command orchestration and parallel execution

    A shallow embedding of [audfprint.py]: the filename resolver, the
    precompute cache writer, the single-process executor [do_cmd], the
    multi-process executor [do_cmd_multiproc] / [multiproc_add] and the
    command planner [main], together with the properties the specification
    states about them. *)

From Stdlib Require Import ZArith QArith Ascii.
From stdpp Require Import base tactics option list gmap strings sorting.

Open Scope string_scope.
Open Scope list_scope.
Open Scope Z_scope.

(** ** Python values and exceptions *)

(** The exceptions the orchestration layer can raise or let through.
    [Blocked] is not an exception: it stands for a call that never returns,
    a receive on the pipe of a worker that died without sending. *)
Inductive exn : Type :=
  | ValueError (msg : string)
  | AssertionError
  | KeyError (key : string)
  | ZeroDivisionError
  | IndexError
  | AttributeError
  | IOError (path : string)
  | TypeError (msg : string)
  | UsageError (msg : string)
  | Blocked.

#[global] Instance exn_eq_dec : EqDecision exn.
Proof. solve_decision. Defined.

(** [a % b] on Python integers: the sign follows the divisor, as [Z.modulo]
    does; a zero divisor raises. *)
Definition py_mod (a b : Z) : exn + Z :=
  if decide (b = 0) then inl ZeroDivisionError else inr (a mod b).

(** [l[j]] index normalisation: a negative index counts from the end, and an
    index outside the list raises [IndexError]. *)
Definition py_index (len : nat) (j : Z) : exn + nat :=
  if decide (0 <= j < Z.of_nat len) then inr (Z.to_nat j)
  else if decide (- Z.of_nat len <= j < 0) then inr (Z.to_nat (j + Z.of_nat len))
  else inl IndexError.

(** [range(n)] for a Python integer [n]: empty when [n <= 0]. *)
Definition py_range (n : Z) : list nat := seq 0 (Z.to_nat n).

(** ** Commands and executor selection ([main], lines 406-418) *)

(** The values accepted by [click.Choice] for the [cmd] argument. *)
Definition cmd_choices : list string :=
  ["new"; "add"; "precompute"; "merge"; "newmerge"; "match"; "list"; "remove"].

(** The commands [main] never hands to the multi-process executor. *)
Definition single_only : list string := ["merge"; "newmerge"; "list"; "remove"].

Inductive executor : Type := SingleProcess | MultiProcess.

#[global] Instance executor_eq_dec : EqDecision executor.
Proof. solve_decision. Defined.

(** [if ncores > 1 and cmd not in [...]: do_cmd_multiproc(...) else: do_cmd(...)] *)
Definition select_executor (cmd : string) (ncores : Z) : executor :=
  if bool_decide (1 < ncores) && negb (bool_decide (cmd ∈ single_only))
  then MultiProcess else SingleProcess.

(** ** Round-robin unpacking of the file list ([multiproc_add], lines 201-206) *)

(** [filelists = [[] for _ in range(ncores)]] *)
Definition empty_filelists (ncores : Z) : list (list string) :=
  (λ _, []) <$> py_range ncores.

(** The loop [for filename in filename_iter: filelists[ix % ncores].append(filename); ix += 1],
    started at counter [ix] with the lists built so far. *)
Fixpoint unpack_loop (ncores : Z) (files : list string) (ix : Z)
    (filelists : list (list string)) : exn + list (list string) :=
  match files with
  | [] => inr filelists
  | filename :: rest =>
      match py_mod ix ncores with
      | inl e => inl e
      | inr j =>
          match py_index (length filelists) j with
          | inl e => inl e
          | inr k =>
              unpack_loop ncores rest (ix + 1)
                (alter (λ l, l ++ [filename]) k filelists)
          end
      end
  end.

Definition unpack_files (ncores : Z) (files : list string) : exn + list (list string) :=
  unpack_loop ncores files 0 (empty_filelists ncores).

(** The closed form of the partitions for a positive [ncores]:
    partition [j] holds the files at the positions congruent to [j]. *)
Definition residue_class (n : nat) (files : list string) (j : nat) : list string :=
  (imap (λ i f, (i, f)) files) ≫= (λ p, if decide (p.1 `mod` n = j)%nat then [p.2] else []).

Definition round_robin (n : nat) (files : list string) : list (list string) :=
  residue_class n files <$> seq 0 n.

(** ** Strings and POSIX paths

    The Python string and [os.path] operations the orchestration layer uses,
    over the characters of a string. *)

Definition chars (s : string) : list ascii := String.list_ascii_of_string s.
Definition text (l : list ascii) : string := String.string_of_list_ascii l.

Definition slash : ascii := "/"%char.
Definition dot : ascii := "."%char.
Definition newline : ascii := "010"%char.

(** [s.split(c)]: the fields between the separators; never empty. *)
Fixpoint split_on (c : ascii) (s : list ascii) : list (list ascii) :=
  match s with
  | [] => [[]]
  | x :: r =>
      if decide (x = c) then [] :: split_on c r
      else match split_on c r with
           | h :: t => (x :: h) :: t
           | [] => [[x]]
           end
  end.

(** [c.join(parts)] *)
Fixpoint join_with (c : ascii) (parts : list (list ascii)) : list ascii :=
  match parts with
  | [] => []
  | [p] => p
  | p :: rest => p ++ c :: join_with c rest
  end.

(** [s.rstrip(c)]: drop every trailing [c]. *)
Fixpoint rstrip_char (c : ascii) (s : list ascii) : list ascii :=
  match s with
  | [] => []
  | x :: r =>
      match rstrip_char c r with
      | [] => if decide (x = c) then [] else [x]
      | r' => x :: r'
      end
  end.

(** [s.rfind(c) + 1]: the length of the shortest prefix that contains every
    occurrence of [c]; [0] when there is none. *)
Fixpoint after_last (c : ascii) (s : list ascii) : nat :=
  match s with
  | [] => 0%nat
  | x :: r =>
      match after_last c r with
      | O => if decide (x = c) then 1%nat else 0%nat
      | S k => S (S k)
      end
  end.

(** [s.startswith(p)], also [s[:len(p)] == p]. *)
Fixpoint starts_with (p s : list ascii) : bool :=
  match p, s with
  | [], _ => true
  | a :: p', b :: s' => bool_decide (a = b) && starts_with p' s'
  | _ :: _, [] => false
  end.

(** [posixpath.join(a, b)] *)
Definition path_join (a b : string) : string :=
  if starts_with [slash] (chars b) then b
  else if bool_decide (a = "") || bool_decide (last (chars a) = Some slash) then a +:+ b
  else a +:+ "/" +:+ b.

(** [posixpath.split(p)]: [head] is everything before the last slash, with
    its trailing slashes removed unless it consists of slashes only. *)
Definition path_split (p : string) : string * string :=
  let i := after_last slash (chars p) in
  let head := take i (chars p) in
  let tail := drop i (chars p) in
  let head' := if bool_decide (rstrip_char slash head = []) then head
               else rstrip_char slash head in
  (text head', text tail).

(** [posixpath.splitext(p)]: the extension starts at the last dot of the last
    component, unless that component has only dots before it. *)
Definition path_splitext (p : string) : string * string :=
  let s := chars p in
  let sepIndex1 := after_last slash s in
  let dotIndex1 := after_last dot s in
  if bool_decide (sepIndex1 < dotIndex1)%nat
     && negb (forallb (λ x, bool_decide (x = dot))
                (take (dotIndex1 - 1 - sepIndex1) (drop sepIndex1 s)))
  then (text (take (dotIndex1 - 1) s), text (drop (dotIndex1 - 1) s))
  else (p, "").

(** ** File system *)

(** A cached artifact: the landmark hashes or the peaks of one sound file,
    as (time, value) pairs. *)
Record artifact : Type := Artifact {
  art_kind : string;
  art_data : list (Z * Z)
}.

#[global] Instance artifact_eq_dec : EqDecision artifact.
Proof. solve_decision. Defined.

(** ** The fingerprint index

    Modelled from the spec: [hash_table.HashTable] is not part of the
    orchestration layer. The index maps landmark hashes to (source file, time
    offset) occurrences, is created fresh from (hash width, bucket depth,
    max-time range) or loaded from storage, supports store, merge, remove,
    enumerate, load and save, and carries a dirty flag set by store, merge and
    remove and cleared by save. The occurrences are kept as an association
    list from hash to (file, time); the attributes [hashbits], [depth],
    [maxtimebits], [params], [names] and [dirty] are those [audfprint.py]
    reads. *)
Record HashTable : Type := mkHashTable {
  hashbits : Z;
  depth : Z;
  maxtimebits : Z;
  params : gmap string Z;
  names : list string;
  table : list (Z * (string * Z));
  dirty : bool
}.

#[global] Instance HashTable_eq_dec : EqDecision HashTable.
Proof. solve_decision. Defined.

(** Modelled from the spec: [hash_table._bitsfor], the bit width of a
    max-time range (16384 is 14 bits). *)
Definition bitsfor (maxtime : Z) : Z := Z.log2_up maxtime.

(** Modelled from the spec: [HashTable(hashbits=, depth=, maxtime=)], a fresh
    empty index. The spec does not say whether a fresh index starts dirty, so
    the initial flag is an argument. *)
Definition HashTable_new (fresh_dirty : bool) (hashbits depth maxtime : Z) : HashTable :=
  {| hashbits := hashbits; depth := depth; maxtimebits := bitsfor maxtime;
     params := ∅; names := []; table := []; dirty := fresh_dirty |}.

Definition add_name (name : string) (l : list string) : list string :=
  if bool_decide (name ∈ l) then l else l ++ [name].

(** Modelled from the spec: [ht.store(name, hashes)] records one occurrence
    per (time, hash) pair under [name] and marks the index dirty. *)
Definition store (name : string) (hashes : list (Z * Z)) (ht : HashTable) : HashTable :=
  {| hashbits := hashbits ht; depth := depth ht; maxtimebits := maxtimebits ht;
     params := params ht;
     names := add_name name (names ht);
     table := table ht ++ ((λ th : Z * Z, (th.2, (name, th.1))) <$> hashes);
     dirty := true |}.

(** Modelled from the spec: [ht.merge(ht2)] adds every name and every
    occurrence of [ht2] to [ht] and marks [ht] dirty. *)
Definition merge (ht2 : HashTable) (ht : HashTable) : HashTable :=
  {| hashbits := hashbits ht; depth := depth ht; maxtimebits := maxtimebits ht;
     params := params ht;
     names := foldl (λ l n, add_name n l) (names ht) (names ht2);
     table := table ht ++ table ht2;
     dirty := true |}.

(** Modelled from the spec: [ht.remove(name)] drops the name and its
    occurrences and marks the index dirty; a name that is not stored leaves
    the index as it is. *)
Definition remove (name : string) (ht : HashTable) : HashTable :=
  if bool_decide (name ∈ names ht) then
    {| hashbits := hashbits ht; depth := depth ht; maxtimebits := maxtimebits ht;
       params := params ht;
       names := filter (λ n, n ≠ name) (names ht);
       table := filter (λ e : Z * (string * Z), e.2.1 ≠ name) (table ht);
       dirty := true |}
  else ht.

Definition set_param (key : string) (v : Z) (ht : HashTable) : HashTable :=
  {| hashbits := hashbits ht; depth := depth ht; maxtimebits := maxtimebits ht;
     params := <[key := v]> (params ht);
     names := names ht; table := table ht; dirty := dirty ht |}.

Definition set_dirty (b : bool) (ht : HashTable) : HashTable :=
  {| hashbits := hashbits ht; depth := depth ht; maxtimebits := maxtimebits ht;
     params := params ht;
     names := names ht; table := table ht; dirty := b |}.

(** [sum(ht.counts)]: the number of stored hashes. *)
Definition sum_counts (ht : HashTable) : nat := length (table ht).

(** The number of entries stored for one file. *)
Definition file_count (ht : HashTable) (name : string) : nat :=
  length (filter (λ e : Z * (string * Z), e.2.1 = name) (table ht)).

(** ** Analyzer and matcher *)

(** The analyzer attributes [setup_analyzer] sets. *)
Record AnalyzerParams : Type := mkAnalyzerParams {
  density : Q;
  maxpksperframe : Z;
  maxpairsperpeak : Z;
  f_sd : Q;
  shifts : Z;
  target_sr : Z;
  n_fft : Z;
  n_hop : Z;
  fail_on_error : bool
}.

(** Modelled from the spec: the analyzer object, its parameters and the
    running totals it reports (duration of the last file, cumulative
    processed duration, number of files). *)
Record Analyzer : Type := mkAnalyzer {
  aparams : AnalyzerParams;
  soundfiledur : Q;
  soundfiletotaldur : Q;
  soundfilecount : nat
}.

(** The matcher attributes [setup_matcher] sets. *)
Record Matcher : Type := mkMatcher {
  window : Z;
  threshcount : Z;
  max_returns : Z;
  search_depth : Z;
  sort_by_time : bool;
  exact_count : bool;
  illustrate : bool;
  illustrate_hpf : bool;
  find_time_range : bool;
  time_quantile : Q
}.

(** ** Messages *)

(** One message string. Text that the code builds by concatenation is kept as
    a string; messages that embed the clock or formatted numbers keep their
    arguments. *)
Inductive message : Type :=
  | Text (s : string)
  | Ingesting (ix : nat) (filename : string)
  | Added (tothashes : nat) (rate : Q)
  | TableStats (core nfiles nhashes : nat)
  | Wrote (opfname : string) (n : nat) (kind : string) (dur : Q)
  | ReadingTable (dbase : string).

(** The external collaborators of the orchestration layer: the constants of
    [audfprint_analyze], the signal analysis of a sound file under given
    analyzer parameters, and the matcher's report. *)
Record collaborators : Type := mkCollaborators {
  PRECOMPEXT : string;
  PRECOMPPKEXT : string;
  sound_dur : AnalyzerParams → string → Q;
  sound_hashes : AnalyzerParams → string → list (Z * Z);
  sound_peaks : AnalyzerParams → string → list (Z * Z);
  match_msgs : Matcher → AnalyzerParams → HashTable → string → option nat → list message;
  fresh_dirty : bool
}.

(** ** Program state *)

Inductive file_content : Type :=
  | FLines (lines : list string)
  | FArtifact (a : artifact)
  | FIndex (ht : HashTable).

(** What the run does to the outside, in order: directory creations
    attempted, analyses run, artifacts and indexes written, indexes read, and
    the orchestrator's dealings with its workers. *)
Inductive event : Type :=
  | EvMakedirs (dirname : string)
  | EvAnalyze (filename : string)
  | EvWriteArtifact (opfname : string)
  | EvLoad (path : string)
  | EvSave (path : string)
  | EvStart (core : nat)
  | EvRecv (core : nat)
  | EvMerge (core : nat)
  | EvJoin (core : nat).

#[global] Instance event_eq_dec : EqDecision event.
Proof. solve_decision. Defined.

(** The two mutable objects of a run, the file system, the message log
    ([logger.trace] calls, one list of messages each) and the events so far.
    [fs_denied] holds the directories the process is not allowed to create. *)
Record state : Type := mkState {
  analyzer : option Analyzer;
  hash_tab : option HashTable;
  fs_dirs : gset string;
  fs_files : gmap string file_content;
  fs_denied : gset string;
  log : list (list message);
  events : list event
}.

Definition set_analyzer (a : option Analyzer) (s : state) : state :=
  {| analyzer := a; hash_tab := hash_tab s; fs_dirs := fs_dirs s;
     fs_files := fs_files s; fs_denied := fs_denied s; log := log s;
     events := events s |}.

Definition set_hash_tab (h : option HashTable) (s : state) : state :=
  {| analyzer := analyzer s; hash_tab := h; fs_dirs := fs_dirs s;
     fs_files := fs_files s; fs_denied := fs_denied s; log := log s;
     events := events s |}.

Definition set_fs_dirs (d : gset string) (s : state) : state :=
  {| analyzer := analyzer s; hash_tab := hash_tab s; fs_dirs := d;
     fs_files := fs_files s; fs_denied := fs_denied s; log := log s;
     events := events s |}.

Definition set_fs_files (f : gmap string file_content) (s : state) : state :=
  {| analyzer := analyzer s; hash_tab := hash_tab s; fs_dirs := fs_dirs s;
     fs_files := f; fs_denied := fs_denied s; log := log s;
     events := events s |}.

Definition add_log (msgs : list message) (s : state) : state :=
  {| analyzer := analyzer s; hash_tab := hash_tab s; fs_dirs := fs_dirs s;
     fs_files := fs_files s; fs_denied := fs_denied s; log := log s ++ [msgs];
     events := events s |}.

Definition add_event (e : event) (s : state) : state :=
  {| analyzer := analyzer s; hash_tab := hash_tab s; fs_dirs := fs_dirs s;
     fs_files := fs_files s; fs_denied := fs_denied s; log := log s;
     events := events s ++ [e] |}.

(** ** The exception and state monad of the executors *)

Definition M (A : Type) : Type := state → state * (exn + A).

Definition ret {A} (a : A) : M A := λ s, (s, inr a).
Definition raise {A} (e : exn) : M A := λ s, (s, inl e).
Definition bind {A B} (m : M A) (k : A → M B) : M B :=
  λ s, match m s with
       | (s', inr a) => k a s'
       | (s', inl e) => (s', inl e)
       end.
Definition gets {A} (f : state → A) : M A := λ s, (s, inr (f s)).
Definition modify (f : state → state) : M unit := λ s, (f s, inr tt).
Definition lift {A} (r : exn + A) : M A := λ s, (s, r).

(** [try: m except: pass] *)
Definition try_pass (m : M unit) : M unit :=
  λ s, match m s with
       | (s', inl _) => (s', inr tt)
       | r => r
       end.

Notation "'let*' x ':=' m 'in' k" := (bind m (λ x, k))
  (at level 10, x pattern, m at level 100, k at level 200,
   format "'[v' 'let*'  x  ':='  m  'in' '/' k ']'").
Notation "m ';;' k" := (bind m (λ _, k))
  (at level 100, k at level 200, right associativity).

(** [for x in xs: body], stopped by the first exception. *)
Fixpoint for_each {A} (xs : list A) (body : A → M unit) : M unit :=
  match xs with
  | [] => ret tt
  | x :: rest => body x ;; for_each rest body
  end.

(** [for i, x in enumerate(xs): body], counting from [i]. *)
Fixpoint for_each_from {A} (i : nat) (xs : list A) (body : nat → A → M unit) : M unit :=
  match xs with
  | [] => ret tt
  | x :: rest => body i x ;; for_each_from (S i) rest body
  end.

(** A generator consumed to its end: the values it yields, and the exception
    that ends it early, if any. *)
Definition iterator : Type := list string * option exn.

(** [for x in it: body] over a generator. *)
Definition for_iter (it : iterator) (body : string → M unit) : M unit :=
  for_each it.1 body ;;
  match it.2 with
  | Some e => raise e
  | None => ret tt
  end.

Definition for_iter_from (i : nat) (it : iterator) (body : nat → string → M unit) : M unit :=
  for_each_from i it.1 body ;;
  match it.2 with
  | Some e => raise e
  | None => ret tt
  end.

(** [obj.attr] on an object that may be [None]. *)
Definition the_hash_tab : M HashTable :=
  λ s, match hash_tab s with
       | Some h => (s, inr h)
       | None => (s, inl AttributeError)
       end.

Definition the_analyzer : M Analyzer :=
  λ s, match analyzer s with
       | Some a => (s, inr a)
       | None => (s, inl AttributeError)
       end.

(** [d[key]] on a dictionary. *)
Definition getitem (d : gmap string Z) (key : string) : M Z :=
  match d !! key with
  | Some v => ret v
  | None => raise (KeyError key)
  end.

(** [assert b] *)
Definition py_assert (b : bool) : M unit :=
  if b then ret tt else raise AssertionError.

(** [1 << n] on Python integers: a negative count raises. *)
Definition py_shl1 (n : Z) : exn + Z :=
  if decide (n < 0) then inl (ValueError "negative shift count") else inr (Z.shiftl 1 n).

(** ** File-system operations *)

Definition os_path_isfile (p : string) (s : state) : bool :=
  bool_decide (is_Some (fs_files s !! p)).

Definition os_path_exists (p : string) (s : state) : bool :=
  bool_decide (p ∈ fs_dirs s) || os_path_isfile p s.

(** The directory [d] preceded by its ancestors, outermost first. *)
Fixpoint ancestors (fuel : nat) (d : string) : list string :=
  match fuel with
  | O => [d]
  | S n =>
      let h := (path_split d).1 in
      if bool_decide (h = "") || bool_decide (h = d) then [d]
      else ancestors n h ++ [d]
  end.

(** [os.makedirs(dirname)]: creates the missing directories from the
    outermost one down, and raises at the first one it may not create or
    whose name is taken by a file; an existing leaf directory raises too. *)
Definition mkdir1 (d : string) : M unit :=
  let* denied := gets (λ s, bool_decide (d ∈ fs_denied s)) in
  let* isfile := gets (os_path_isfile d) in
  if denied || isfile then raise (IOError d)
  else modify (λ s, set_fs_dirs ({[d]} ∪ fs_dirs s) s).

Definition os_makedirs (dirname : string) : M unit :=
  modify (add_event (EvMakedirs dirname)) ;;
  let* there := gets (os_path_exists dirname) in
  if there then raise (IOError dirname)
  else
    for_each (ancestors (String.length dirname) dirname) (λ d,
      let* isdir := gets (λ s, bool_decide (d ∈ fs_dirs s)) in
      if isdir then ret tt else mkdir1 d).

(** A file can be written when its name is not a directory and its directory
    is the current one or exists. *)
Definition writable (p : string) (s : state) : bool :=
  negb (bool_decide (p ∈ fs_dirs s))
  && (bool_decide ((path_split p).1 = "") || bool_decide ((path_split p).1 ∈ fs_dirs s)).

Definition write_file (p : string) (c : file_content) : M unit :=
  let* ok := gets (writable p) in
  if ok then modify (λ s, set_fs_files (<[p := c]> (fs_files s)) s)
  else raise (IOError p).

(** Modelled from the spec: [audfprint_analyze.hashes_save] and
    [peaks_save] write the artifact of one file. *)
Definition saver (kind : string) (opfname : string) (output : list (Z * Z)) : M unit :=
  write_file opfname (FArtifact (Artifact kind output)) ;;
  modify (add_event (EvWriteArtifact opfname)).

(** Modelled from the spec: [hash_tab.save(dbase)] writes the index to
    persistent storage and clears its dirty flag. *)
Definition HashTable_save (path : string) : M unit :=
  let* ht := the_hash_tab in
  write_file path (FIndex (set_dirty false ht)) ;;
  modify (add_event (EvSave path)) ;;
  modify (set_hash_tab (Some (set_dirty false ht))).

(** Modelled from the spec: [HashTable(filename)] loads a saved index; a
    loaded index has no unsaved mutations. *)
Definition HashTable_load (path : string) : M HashTable :=
  modify (add_event (EvLoad path)) ;;
  let* c := gets (λ s, fs_files s !! path) in
  match c with
  | Some (FIndex ht) => ret (set_dirty false ht)
  | _ => raise (IOError path)
  end.

(** ** Filename resolver ([filename_list_iterator]) *)

(** The lines of a list file as the file iterator yields them, each with its
    newline, and [filename.rstrip('\n')] on one of them. *)
Definition rstrip_newline (l : string) : string := text (rstrip_char newline (chars l)).

(** The generator, run to its end against the file system it reads: the
    paths it yields and, for an unreadable list file, the exception that ends
    it. *)
Fixpoint list_files_paths (wavdir wavext : string) (filelist : list string) (s : state) : iterator :=
  match filelist with
  | [] => ([], None)
  | listfilename :: rest =>
      match fs_files s !! listfilename with
      | Some (FLines lines) =>
          let here := (λ filename, path_join wavdir (rstrip_newline filename +:+ wavext)) <$> lines in
          let there := list_files_paths wavdir wavext rest s in
          (here ++ there.1, there.2)
      | _ => ([], Some (IOError listfilename))
      end
  end.

Definition filename_list_iterator (filelist : list string) (wavdir wavext : string)
    (listflag : bool) (s : state) : iterator :=
  if negb listflag then
    ((λ filename, path_join wavdir (filename +:+ wavext)) <$> filelist, None)
  else list_files_paths wavdir wavext filelist s.

(** ** [ensure_dir] (lines 46-55) *)

Definition ensure_dir (dirname : string) : M unit :=
  if bool_decide (String.length dirname ≠ 0%nat) then
    let* there := gets (os_path_exists dirname) in
    if negb there then try_pass (os_makedirs dirname)
    else ret tt
  else ret tt.

Section Executor.

Context (C : collaborators).

(** ** Analyzer operations *)

(** The analyzer after it has processed one more file. *)
Definition account (a : Analyzer) (filename : string) : Analyzer :=
  {| aparams := aparams a;
     soundfiledur := sound_dur C (aparams a) filename;
     soundfiletotaldur := (soundfiletotaldur a + sound_dur C (aparams a) filename)%Q;
     soundfilecount := S (soundfilecount a) |}.

(** Modelled from the spec: [analyzer.wavfile2hashes(filename)] turns one
    sound file into landmark hashes and adds its duration to the analyzer's
    totals. *)
Definition wavfile2hashes (filename : string) : M (list (Z * Z)) :=
  let* a := the_analyzer in
  modify (add_event (EvAnalyze filename)) ;;
  modify (set_analyzer (Some (account a filename))) ;;
  ret (sound_hashes C (aparams a) filename).

(** Modelled from the spec: [analyzer.wavfile2peaks(filename)]. *)
Definition wavfile2peaks (filename : string) : M (list (Z * Z)) :=
  let* a := the_analyzer in
  modify (add_event (EvAnalyze filename)) ;;
  modify (set_analyzer (Some (account a filename))) ;;
  ret (sound_peaks C (aparams a) filename).

(** Modelled from the spec: [analyzer.ingest(hash_tab, filename)], the
    combined analyze-and-store operation; returns the duration and the number
    of hashes of the file. *)
Definition ingest (filename : string) : M (Q * nat) :=
  let* hashes := wavfile2hashes filename in
  let* ht := the_hash_tab in
  modify (set_hash_tab (Some (store filename hashes ht))) ;;
  let* a := the_analyzer in
  ret (soundfiledur a, length hashes).

(** Modelled from the spec: [matcher.file_match_to_msgs(analyzer, hash_tab,
    filename, number)] analyzes the query and reports its matches against the
    index; it reads the index and does not change it. *)
Definition file_match_to_msgs (matcher : option Matcher) (filename : string)
    (number : option nat) : M (list message) :=
  match matcher with
  | None => raise AttributeError
  | Some m =>
      let* a := the_analyzer in
      let* ht := gets hash_tab in
      match ht with
      | None => raise AttributeError
      | Some ht =>
          modify (add_event (EvAnalyze filename)) ;;
          modify (set_analyzer (Some (account a filename))) ;;
          ret (match_msgs C m (aparams a) ht filename number)
      end
  end.

(** ** Precompute cache writer ([file_precompute_peaks_or_hashes], lines 62-108) *)

(** [relname]: the components of the name that are not [.], [..] or empty. *)
Definition relname_of (tail_filename : string) : string :=
  text (join_with slash
          (filter (λ comp, comp ≠ chars "." ∧ comp ≠ chars ".." ∧ comp ≠ chars "")
             (split_on slash (chars tail_filename)))).

(** The path of the artifact of [filename], lines 68-85. *)
Definition opfname_of (filename precompdir : string) (precompext : option string)
    (hashes_not_peaks : bool) (strip_prefix : option string) : string :=
  let tail_filename :=
    match strip_prefix with
    | Some pre =>
        if negb (bool_decide (pre = ""))
           && bool_decide (text (take (String.length pre) (chars filename)) = pre)
        then text (drop (String.length pre) (chars filename))
        else filename
    | None => filename
    end in
  let relname := relname_of tail_filename in
  let root := (path_splitext relname).1 in
  let precompext :=
    match precompext with
    | Some e => e
    | None => if hashes_not_peaks then PRECOMPEXT C else PRECOMPPKEXT C
    end in
  path_join precompdir (root +:+ precompext).

Definition file_precompute_peaks_or_hashes (filename precompdir : string)
    (precompext : option string) (hashes_not_peaks skip_existing : bool)
    (strip_prefix : option string) : M (list message) :=
  let opfname := opfname_of filename precompdir precompext hashes_not_peaks strip_prefix in
  let* isfile := gets (os_path_isfile opfname) in
  if skip_existing && isfile then
    ret [Text ("file " +:+ opfname +:+ " exists (and --skip-existing); skipping")]
  else
    let type := if hashes_not_peaks then "hashes" else "peaks" in
    let* output := (if hashes_not_peaks then wavfile2hashes filename
                    else wavfile2peaks filename) in
    if bool_decide (length output = 0%nat) then
      ret [Text ("Zero length analysis for " +:+ filename +:+ " -- not saving.")]
    else
      ensure_dir (path_split opfname).1 ;;
      saver type opfname output ;;
      let* a := the_analyzer in
      ret [Wrote opfname (length output) type (soundfiledur a)].

(** [file_precompute] (lines 111-119); its [logger.debug] line is not part
    of the message log. *)
Definition file_precompute (filename precompdir type : string) (skip_existing : bool)
    (strip_prefix : option string) : M (list message) :=
  let hashes_not_peaks := bool_decide (type = "hashes") in
  file_precompute_peaks_or_hashes filename precompdir None hashes_not_peaks
    skip_existing strip_prefix.

(** ** Worker of the build path ([make_ht_from_list], lines 122-136)

    The worker runs in a process of its own, on its copy of the analyzer: the
    table it sends back is all that leaves it. *)
Definition make_ht_from_list (a : Analyzer) (filelist : list string)
    (hashbits depth maxtime : Z) : HashTable :=
  foldl (λ ht filename, store filename (sound_hashes C (aparams a) filename) ht)
    (HashTable_new (fresh_dirty C) hashbits depth maxtime) filelist.

(** ** Single-process executor ([do_cmd], lines 139-188) *)

(** The body of the merge loop, lines 146-152. *)
Definition merge_one (filename : string) : M unit :=
  let* hash_tab2 := HashTable_load filename in
  let* ht := the_hash_tab in
  match params ht !! "samplerate" with
  | Some sr =>
      let* sr2 := getitem (params hash_tab2) "samplerate" in
      py_assert (bool_decide (sr = sr2))
  | None =>
      let* sr2 := getitem (params hash_tab2) "samplerate" in
      modify (set_hash_tab (Some (set_param "samplerate" sr2 ht)))
  end ;;
  let* ht := the_hash_tab in
  modify (set_hash_tab (Some (merge hash_tab2 ht))).

(** The ingest loop of lines 167-174, with its running total [tothashes];
    the loop runs over what the generator yields and ends with the
    generator's exception, if it has one. *)
Fixpoint ingest_loop (ix : nat) (files : list string) (tothashes : nat) : M nat :=
  match files with
  | [] => ret tothashes
  | filename :: rest =>
      modify (add_log [Ingesting ix filename]) ;;
      let* r := ingest filename in
      ingest_loop (S ix) rest (tothashes + r.2)%nat
  end.

(** [tothashes / float(analyzer.soundfiletotaldur)] *)
Definition py_truediv (a b : Q) : exn + Q :=
  if Qeq_bool b 0 then inl ZeroDivisionError else inr (a / b)%Q.

Definition do_cmd (cmd : string) (filename_iter : iterator) (matcher : option Matcher)
    (outdir type : string) (skip_existing : bool) (strip_prefix : option string) : M unit :=
  if bool_decide (cmd = "merge") || bool_decide (cmd = "newmerge") then
    for_iter filename_iter merge_one
  else if bool_decide (cmd = "precompute") then
    for_iter filename_iter (λ filename,
      let* msgs := file_precompute filename outdir type skip_existing strip_prefix in
      modify (add_log msgs))
  else if bool_decide (cmd = "match") then
    for_iter_from 0 filename_iter (λ num filename,
      let* msgs := file_match_to_msgs matcher filename (Some num) in
      modify (add_log msgs))
  else if bool_decide (cmd = "new") || bool_decide (cmd = "add") then
    let* tothashes := ingest_loop 0 filename_iter.1 0 in
    match filename_iter.2 with
    | Some e => raise e
    | None =>
        let* a := the_analyzer in
        let* rate := lift (py_truediv (inject_Z (Z.of_nat tothashes)) (soundfiletotaldur a)) in
        modify (add_log [Added tothashes rate])
    end
  else if bool_decide (cmd = "remove") then
    for_iter filename_iter (λ filename,
      let* ht := the_hash_tab in
      modify (set_hash_tab (Some (remove filename ht))))
  else if bool_decide (cmd = "list") then
    let* ht := the_hash_tab in
    for_each (names ht) (λ x, modify (add_log [Text x]))
  else raise (ValueError ("unrecognized command: " +:+ cmd)).

(** ** Multi-process build path ([multiproc_add], lines 191-227)

    The orchestrator's side, with the table each worker sends computed by
    [make_ht_from_list] on the worker's copy of the analyzer. The interleaving
    with the workers is the subject of the step relation further down. *)

(** The gather loop, lines 218-227; [sent] is what worker [core] sends, or
    the reason it sends nothing. *)
Definition gather_one (core : nat) (sent : exn + HashTable) : M unit :=
  let* hash_tabx := lift sent in
  modify (add_event (EvRecv core)) ;;
  modify (add_log [TableStats core (length (names hash_tabx)) (sum_counts hash_tabx)]) ;;
  let* ht := the_hash_tab in
  modify (add_event (EvMerge core)) ;;
  modify (set_hash_tab (Some (merge hash_tabx ht))) ;;
  modify (add_event (EvJoin core)).

Definition worker_table (a : option Analyzer) (filelist : list string)
    (hashbits depth maxtime : Z) : exn + HashTable :=
  match a, filelist with
  | Some a, _ => inr (make_ht_from_list a filelist hashbits depth maxtime)
  | None, [] => inr (HashTable_new (fresh_dirty C) hashbits depth maxtime)
  | None, _ :: _ => inl Blocked
  end.

(** The launch loop, lines 208-216: the arguments of worker [ix]. *)
Definition launch_one (filelists : list (list string)) (ix : nat)
    : M (exn + HashTable) :=
  let* a := gets analyzer in
  let* ht := the_hash_tab in
  let* maxtime := lift (py_shl1 (maxtimebits ht)) in
  modify (add_event (EvStart ix)) ;;
  ret (worker_table a (filelists !!! ix) (hashbits ht) (depth ht) maxtime).

Fixpoint launch_all (filelists : list (list string)) (cores : list nat)
    : M (list (exn + HashTable)) :=
  match cores with
  | [] => ret []
  | ix :: rest =>
      let* w := launch_one filelists ix in
      let* ws := launch_all filelists rest in
      ret (w :: ws)
  end.

Definition multiproc_add (filename_iter : iterator) (ncores : Z) : M unit :=
  let* filelists := lift (unpack_files ncores filename_iter.1) in
  match filename_iter.2 with
  | Some e => raise e
  | None =>
      let* workers := launch_all filelists (py_range ncores) in
      for_each_from 0 workers gather_one
  end.

(** ** Parallel task path ([joblib.Parallel], lines 239-259) *)

(** A task run in a worker process: the worker has copies of the analyzer
    and of the index, so what it does to them is lost; what it does to the
    file system stays. *)
Definition in_worker {A} (m : M A) : M A :=
  λ s, let r := m s in
       (set_hash_tab (hash_tab s) (set_analyzer (analyzer s) r.1), r.2).

(** The tasks complete in the order [completion]; the result of task [i] is
    put at position [i]. *)
Fixpoint run_tasks {R} (completion : list nat) (tasks : list (M R))
    (results : list (option R)) : M (list (option R)) :=
  match completion with
  | [] => ret results
  | i :: rest =>
      match tasks !! i with
      | Some t =>
          let* r := in_worker t in
          run_tasks rest tasks (<[i := Some r]> results)
      | None => run_tasks rest tasks results
      end
  end.

(** The tasks run one after the other in the calling process. *)
Fixpoint run_sequential {R} (tasks : list (M R)) : M (list R) :=
  match tasks with
  | [] => ret []
  | t :: rest =>
      let* r := t in
      let* rs := run_sequential rest in
      ret (r :: rs)
  end.

(** [joblib.Parallel(n_jobs=ncores)(tasks)]: the results in the order of the
    tasks. With [n_jobs = 1] the tasks run in the calling process;
    [n_jobs = 0] is refused; otherwise they run in workers and complete in
    any order. *)
Definition joblib_Parallel {R} (completion : list nat) (ncores : Z)
    (tasks : list (M R)) : M (list R) :=
  if bool_decide (ncores = 0) then raise (ValueError "n_jobs == 0 in Parallel has no meaning")
  else if bool_decide (ncores = 1) then run_sequential tasks
  else
    let* results := run_tasks completion tasks (replicate (length tasks) None) in
    ret (omap id results).

(** [matcher_file_match_to_msgs] (lines 230-232): no query number. *)
Definition matcher_file_match_to_msgs (matcher : option Matcher) (filename : string)
    : M (list message) :=
  file_match_to_msgs matcher filename None.

(** ** Multi-process executor ([do_cmd_multiproc], lines 235-268)

    The parameter [report] is handed on to [multiproc_add] and used by
    neither function; it is left out. [completion] is the order in which the
    workers of [joblib.Parallel] complete. *)

Definition parallel_log (completion : list nat) (ncores : Z) (filename_iter : iterator)
    (task : string → M (list message)) : M unit :=
  let* msgslist := joblib_Parallel completion ncores (task <$> filename_iter.1) in
  match filename_iter.2 with
  | Some e => raise e
  | None => for_each msgslist (λ msgs, modify (add_log msgs))
  end.

Definition do_cmd_multiproc (completion : list nat) (cmd : string)
    (filename_iter : iterator) (matcher : option Matcher) (outdir type : string)
    (skip_existing : bool) (strip_prefix : option string) (ncores : Z) : M unit :=
  if bool_decide (cmd = "precompute") then
    parallel_log completion ncores filename_iter
      (λ file, file_precompute file outdir type skip_existing strip_prefix)
  else if bool_decide (cmd = "match") then
    parallel_log completion ncores filename_iter
      (λ filename, matcher_file_match_to_msgs matcher filename)
  else if bool_decide (cmd = "new") || bool_decide (cmd = "add") then
    multiproc_add filename_iter ncores
  else raise (ValueError ("unrecognized multiproc command: " +:+ cmd)).

(** ** Collaborator set-up ([setup_analyzer], [setup_matcher], lines 272-307) *)

Definition setup_analyzer (density : Q) (is_match : bool)
    (pks_per_frame fanout : Z) (freq_sd : Q) (shifts samplerate : Z)
    (continue_on_error : bool) : Analyzer :=
  {| aparams :=
       {| density := density;
          maxpksperframe := pks_per_frame;
          maxpairsperpeak := fanout;
          f_sd := freq_sd;
          shifts := if bool_decide (shifts = 0) then (if is_match then 4 else 1) else shifts;
          target_sr := samplerate;
          n_fft := 512;
          n_hop := 512 `div` 2;
          fail_on_error := negb continue_on_error |};
     soundfiledur := 0%Q;
     soundfiletotaldur := 0%Q;
     soundfilecount := 0%nat |}.

Definition setup_matcher (match_win search_depth min_count max_matches : Z)
    (exact_count find_time_range : bool) (time_quantile : Q)
    (sortbytime illustrate illustrate_hpf : bool) : Matcher :=
  {| window := match_win;
     threshcount := min_count;
     max_returns := max_matches;
     search_depth := search_depth;
     sort_by_time := sortbytime;
     exact_count := exact_count || illustrate || illustrate_hpf;
     illustrate := illustrate || illustrate_hpf;
     illustrate_hpf := illustrate_hpf;
     find_time_range := find_time_range;
     time_quantile := time_quantile |}.

(** ** Command planner ([main], lines 348-430) *)

(** The command-line arguments as [click] hands them to [main]. *)
Record Args : Type := mkArgs {
  arg_cmd : string;
  arg_dbase : option string;
  arg_density : Q;
  arg_hashbits : Z;
  arg_bucketsize : Z;
  arg_maxtime : Z;
  arg_maxtimebits : option Z;
  arg_samplerate : Z;
  arg_precompdir : string;
  arg_shifts : Z;
  arg_match_win : Z;
  arg_min_count : Z;
  arg_max_matches : Z;
  arg_exact_count : bool;
  arg_find_time_range : bool;
  arg_time_quantile : Q;
  arg_freq_sd : Q;
  arg_fanout : Z;
  arg_pks_per_frame : Z;
  arg_search_depth : Z;
  arg_ncores : Z;
  arg_precompute_peaks : bool;
  arg_skip_existing : bool;
  arg_continue_on_error : bool;
  arg_list : bool;
  arg_sortbytime : bool;
  arg_illustrate : bool;
  arg_illustrate_hpf : bool;
  arg_wavdir : string;
  arg_wavext : string;
  arg_file : list string
}.

(** [not dbase] *)
Definition no_dbase (dbase : option string) : bool :=
  match dbase with
  | None => true
  | Some d => bool_decide (d = "")
  end.

Definition dbase_path (dbase : option string) : string := default "" dbase.

(** Lines 366-393: the index the run works on. *)
Definition setup_hash_tab (a : Args) (maxtimebits : Z) : M unit :=
  if negb (bool_decide (arg_cmd a = "precompute")) then
    if no_dbase (arg_dbase a) then
      raise (ValueError "dbase name must be provided if not precompute")
    else
      let dbase := dbase_path (arg_dbase a) in
      if bool_decide (arg_cmd a ∈ ["new"; "newmerge"]) then
        ensure_dir (path_split dbase).1 ;;
        let* maxtime := lift (py_shl1 maxtimebits) in
        let ht := HashTable_new (fresh_dirty C) (arg_hashbits a) (arg_bucketsize a) maxtime in
        let* an := gets analyzer in
        match an with
        | Some an =>
            modify (set_hash_tab (Some (set_param "samplerate" (target_sr (aparams an)) ht)))
        | None => modify (set_hash_tab (Some ht))
        end
      else
        modify (add_log [ReadingTable dbase]) ;;
        let* ht := HashTable_load dbase in
        modify (set_hash_tab (Some ht))
  else modify (set_hash_tab None).

(** Lines 349-425: everything [main] does before it saves the index; the
    set-up of the logger, the clock and the [logger.debug] lines do not touch
    the state and are left out. The
    call of [do_cmd_multiproc] at lines 408-413 passes seven positional
    arguments and the keywords [skip_existing], [strip_prefix] and [ncores],
    and none for the parameter [report], which has no default: the call
    raises [TypeError] before the body of [do_cmd_multiproc] runs. *)
Definition main_run (a : Args) : M unit :=
  if negb (bool_decide (arg_cmd a ∈ cmd_choices)) then
    raise (UsageError ("invalid choice: " +:+ arg_cmd a))
  else
    let maxtimebits :=
      match arg_maxtimebits a with
      | None => bitsfor (arg_maxtime a)
      | Some b => if bool_decide (b = 0) then bitsfor (arg_maxtime a) else b
      end in
    modify (set_analyzer
              (if negb (bool_decide (arg_cmd a ∈ single_only)) then
                 Some (setup_analyzer (arg_density a) (bool_decide (arg_cmd a = "match"))
                         (arg_pks_per_frame a) (arg_fanout a) (arg_freq_sd a)
                         (arg_shifts a) (arg_samplerate a) (arg_continue_on_error a))
               else None)) ;;
    let precomp_type := if negb (arg_precompute_peaks a) then "hashes" else "peaks" in
    setup_hash_tab a maxtimebits ;;
    let matcher :=
      if bool_decide (arg_cmd a = "match") then
        Some (setup_matcher (arg_match_win a) (arg_search_depth a) (arg_min_count a)
                (arg_max_matches a) (arg_exact_count a) (arg_find_time_range a)
                (arg_time_quantile a) (arg_sortbytime a) (arg_illustrate a)
                (arg_illustrate_hpf a))
      else None in
    let* filename_iter :=
      gets (filename_list_iterator (arg_file a) (arg_wavdir a) (arg_wavext a) (arg_list a)) in
    match select_executor (arg_cmd a) (arg_ncores a) with
    | MultiProcess =>
        raise (TypeError "do_cmd_multiproc() missing 1 required positional argument: 'report'")
    | SingleProcess =>
        do_cmd (arg_cmd a) filename_iter matcher (arg_precompdir a) precomp_type
          (arg_skip_existing a) (Some (arg_wavdir a))
    end.

(** Lines 427-430: [if hash_tab and hash_tab.dirty: hash_tab.save(dbase)]. *)
Definition main_save (a : Args) : M unit :=
  let* ht := gets hash_tab in
  match ht with
  | Some ht => if dirty ht then HashTable_save (dbase_path (arg_dbase a)) else ret tt
  | None => ret tt
  end.

Definition main (a : Args) : M unit := main_run a ;; main_save a.

End Executor.

(** ** The build path as communicating processes

    The gather phase of [multiproc_add] with its workers: every worker
    stores its files one by one into a table of its own, sends the table on
    its pipe and exits once the orchestrator has taken it; the orchestrator
    receives from the pipes in launch order, merges and joins. Any worker or
    the orchestrator may take the next step. *)

Inductive wstate : Type :=
  | WBusy (todo : list string) (ht : HashTable)
  | WSent (ht : HashTable)
  | WExiting
  | WExited.

Inductive phase : Type :=
  | PRecv (core : nat)
  | PMerge (core : nat) (hash_tabx : HashTable)
  | PJoin (core : nat).

Record sys : Type := mkSys {
  workers : list wstate;
  pc : phase;
  primary : HashTable;
  strace : list event;
  slog : list (list message)
}.

Section Processes.

Context (C : collaborators) (a : Analyzer).

Inductive step : sys → sys → Prop :=
  | step_store i filename todo ht ws p h tr lg :
      ws !! i = Some (WBusy (filename :: todo) ht) →
      step (mkSys ws p h tr lg)
           (mkSys (<[i := WBusy todo (store filename (sound_hashes C (aparams a) filename) ht)]> ws)
              p h tr lg)
  | step_send i ht ws p h tr lg :
      ws !! i = Some (WBusy [] ht) →
      step (mkSys ws p h tr lg) (mkSys (<[i := WSent ht]> ws) p h tr lg)
  | step_exit i ws p h tr lg :
      ws !! i = Some WExiting →
      step (mkSys ws p h tr lg) (mkSys (<[i := WExited]> ws) p h tr lg)
  | step_recv core hash_tabx ws h tr lg :
      ws !! core = Some (WSent hash_tabx) →
      step (mkSys ws (PRecv core) h tr lg)
           (mkSys (<[core := WExiting]> ws) (PMerge core hash_tabx) h
              (tr ++ [EvRecv core])
              (lg ++ [[TableStats core (length (names hash_tabx)) (sum_counts hash_tabx)]]))
  | step_merge core hash_tabx ws h tr lg :
      step (mkSys ws (PMerge core hash_tabx) h tr lg)
           (mkSys ws (PJoin core) (merge hash_tabx h) (tr ++ [EvMerge core]) lg)
  | step_join core ws h tr lg :
      ws !! core = Some WExited →
      step (mkSys ws (PJoin core) h tr lg)
           (mkSys ws (PRecv (S core)) h (tr ++ [EvJoin core]) lg).

(** The state right after the launch loop. *)
Definition launched (filelists : list (list string)) (hashbits depth maxtime : Z)
    (h : HashTable) : sys :=
  mkSys ((λ l, WBusy l (HashTable_new (fresh_dirty C) hashbits depth maxtime)) <$> filelists)
    (PRecv 0) h [] [].

(** [multiproc_add] returns when the gather loop has run through. *)
Definition returned (s : sys) : Prop := pc s = PRecv (length (workers s)).

(** The tables of the workers, merged in launch order. *)
Definition merged_in_order (filelists : list (list string)) (hashbits depth maxtime : Z)
    (h : HashTable) : HashTable :=
  foldl (λ h l, merge (make_ht_from_list C a l hashbits depth maxtime) h) h filelists.

(** The orchestrator's events for the cores [i, i + n). *)
Fixpoint gather_events (i n : nat) : list event :=
  match n with
  | O => []
  | S n' => EvRecv i :: EvMerge i :: EvJoin i :: gather_events (S i) n'
  end.

(** A worker that has not sent yet, and one whose table has been taken. *)
Definition alive (w : wstate) : Prop :=
  match w with
  | WBusy _ _ | WSent _ => True
  | WExiting | WExited => False
  end.

Definition gone (w : wstate) : Prop :=
  match w with
  | WBusy _ _ | WSent _ => False
  | WExiting | WExited => True
  end.

(** A worker on the file list [l] holds the table of the files it has done,
    and sends the table of all of [l]. *)
Definition worker_ok (hashbits depth maxtime : Z) (l : list string) (w : wstate) : Prop :=
  match w with
  | WBusy todo ht =>
      ∃ done_, l = done_ ++ todo
               ∧ ht = make_ht_from_list C a done_ hashbits depth maxtime
  | WSent ht => ht = make_ht_from_list C a l hashbits depth maxtime
  | WExiting | WExited => True
  end.

(** What holds of every state the processes can reach: the workers before
    the current core have exited, those after it are still alive, and the
    primary index and the orchestrator's events are those of the cores
    gathered so far. *)
Definition reachable_inv (filelists : list (list string)) (hashbits depth maxtime : Z)
    (h : HashTable) (s : sys) : Prop :=
  length (workers s) = length filelists
  ∧ (∀ i l w, filelists !! i = Some l → workers s !! i = Some w →
       worker_ok hashbits depth maxtime l w)
  ∧ match pc s with
    | PRecv c =>
        (c ≤ length filelists)%nat
        ∧ primary s = merged_in_order (take c filelists) hashbits depth maxtime h
        ∧ strace s = gather_events 0 c
        ∧ (∀ i w, (i < c)%nat → workers s !! i = Some w → w = WExited)
        ∧ (∀ i w, (c ≤ i)%nat → workers s !! i = Some w → alive w)
    | PMerge c hash_tabx =>
        (c < length filelists)%nat
        ∧ hash_tabx = make_ht_from_list C a (filelists !!! c) hashbits depth maxtime
        ∧ primary s = merged_in_order (take c filelists) hashbits depth maxtime h
        ∧ strace s = gather_events 0 c ++ [EvRecv c]
        ∧ (∀ i w, (i < c)%nat → workers s !! i = Some w → w = WExited)
        ∧ (∀ w, workers s !! c = Some w → gone w)
        ∧ (∀ i w, (c < i)%nat → workers s !! i = Some w → alive w)
    | PJoin c =>
        (c < length filelists)%nat
        ∧ primary s = merged_in_order (take (S c) filelists) hashbits depth maxtime h
        ∧ strace s = gather_events 0 c ++ [EvRecv c; EvMerge c]
        ∧ (∀ i w, (i < c)%nat → workers s !! i = Some w → w = WExited)
        ∧ (∀ w, workers s !! c = Some w → gone w)
        ∧ (∀ i w, (c < i)%nat → workers s !! i = Some w → alive w)
    end.

(** What is left to do: the number of steps to the end, at most. *)
Definition wsize (w : wstate) : nat :=
  match w with
  | WBusy todo _ => length todo + 3
  | WSent _ => 2
  | WExiting => 1
  | WExited => 0
  end.

Definition psize (n : nat) (p : phase) : nat :=
  match p with
  | PRecv c => 3 * (n - c)
  | PMerge c _ => 3 * (n - c) - 1
  | PJoin c => 3 * (n - c) - 2
  end.

Definition measure (s : sys) : nat :=
  (sum_list (wsize <$> workers s) + psize (length (workers s)) (pc s))%nat.

End Processes.

(** ** Observations on runs *)

(** The paths the index was saved to, in order. *)
Definition saves (evs : list event) : list string :=
  evs ≫= (λ e, match e with EvSave p => [p] | _ => [] end).

Definition saved_paths (s : state) : list string := saves (events s).

Definition succeeded {A} (r : state * (exn + A)) : bool :=
  match r.2 with inr _ => true | inl _ => false end.

Definition is_dirty (s : state) : bool :=
  match hash_tab s with Some ht => dirty ht | None => false end.

(** [m] returns [r] from some state that satisfies [I]. *)
Definition returns_from {A} (I : state → Prop) (m : M A) (r : A) : Prop :=
  ∃ s, I s ∧ (m s).2 = inr r.

(** Every result that is in place at position [i] is what task [i]
    returned. *)
Definition filled {R} (I : state → Prop) (tasks : list (M R))
    (results : list (option R)) : Prop :=
  ∀ i r, results !! i = Some (Some r) →
    ∃ t, tasks !! i = Some t ∧ returns_from I t r.

(** The states in which the analyzer has the parameters of [a] and the index
    is [ht]. *)
Definition querying (a : Analyzer) (ht : HashTable) (s : state) : Prop :=
  (∃ a', analyzer s = Some a' ∧ aparams a' = aparams a) ∧ hash_tab s = Some ht.

(** [block] is the message block of the per-file operation of [cmd] on
    [filename]: of [file_precompute] for precompute, of the matcher's lookup,
    under some query number or none, for match. *)
Definition file_result (C : collaborators) (I : state → Prop) (cmd : string)
    (matcher : option Matcher) (outdir type : string) (skip_existing : bool)
    (strip_prefix : option string) (block : list message) (filename : string) : Prop :=
  if bool_decide (cmd = "precompute")
  then returns_from I (file_precompute C filename outdir type skip_existing strip_prefix) block
  else ∃ number, returns_from I (file_match_to_msgs C matcher filename number) block.

(** A computation leaves an observation of the state as it found it,
    whether it returns or raises. *)
Definition preserves {X A} (f : state → X) (m : M A) : Prop :=
  ∀ s, f (m s).1 = f s.

(** The arguments of a call that gives only the command, the index and the
    files: every option at the default its [click.option] declares. *)
Definition click_defaults (cmd : string) (dbase : option string) (file : list string) : Args :=
  {| arg_cmd := cmd;
     arg_dbase := dbase;
     arg_density := 20;
     arg_hashbits := 20;
     arg_bucketsize := 100;
     arg_maxtime := 16384;
     arg_maxtimebits := None;
     arg_samplerate := 11025;
     arg_precompdir := ".";
     arg_shifts := 0;
     arg_match_win := 2;
     arg_min_count := 5;
     arg_max_matches := 1;
     arg_exact_count := false;
     arg_find_time_range := false;
     arg_time_quantile := 5 # 100;
     arg_freq_sd := 30;
     arg_fanout := 3;
     arg_pks_per_frame := 5;
     arg_search_depth := 100;
     arg_ncores := 1;
     arg_precompute_peaks := false;
     arg_skip_existing := false;
     arg_continue_on_error := false;
     arg_list := false;
     arg_sortbytime := false;
     arg_illustrate := false;
     arg_illustrate_hpf := false;
     arg_wavdir := "";
     arg_wavext := "";
     arg_file := file |}.

(** ** Definitions for the further properties *)

(** A path component that [relname] keeps: not empty, not [.], not [..]. *)
Definition kept_component (comp : list ascii) : Prop :=
  comp ≠ chars "." ∧ comp ≠ chars ".." ∧ comp ≠ chars "".

(** The sound files analyzed, in order. *)
Definition analyzed (s : state) : list string :=
  events s ≫= (λ e, match e with EvAnalyze f => [f] | _ => [] end).

(** The analyzer [main] builds from its arguments, line 362. *)
Definition main_analyzer (a : Args) : option Analyzer :=
  if negb (bool_decide (arg_cmd a ∈ single_only)) then
    Some (setup_analyzer (arg_density a) (bool_decide (arg_cmd a = "match"))
            (arg_pks_per_frame a) (arg_fanout a) (arg_freq_sd a)
            (arg_shifts a) (arg_samplerate a) (arg_continue_on_error a))
  else None.

(** The arguments [a] with another index name. *)
Definition with_dbase (dbase : option string) (a : Args) : Args :=
  {| arg_cmd := arg_cmd a;
     arg_dbase := dbase;
     arg_density := arg_density a;
     arg_hashbits := arg_hashbits a;
     arg_bucketsize := arg_bucketsize a;
     arg_maxtime := arg_maxtime a;
     arg_maxtimebits := arg_maxtimebits a;
     arg_samplerate := arg_samplerate a;
     arg_precompdir := arg_precompdir a;
     arg_shifts := arg_shifts a;
     arg_match_win := arg_match_win a;
     arg_min_count := arg_min_count a;
     arg_max_matches := arg_max_matches a;
     arg_exact_count := arg_exact_count a;
     arg_find_time_range := arg_find_time_range a;
     arg_time_quantile := arg_time_quantile a;
     arg_freq_sd := arg_freq_sd a;
     arg_fanout := arg_fanout a;
     arg_pks_per_frame := arg_pks_per_frame a;
     arg_search_depth := arg_search_depth a;
     arg_ncores := arg_ncores a;
     arg_precompute_peaks := arg_precompute_peaks a;
     arg_skip_existing := arg_skip_existing a;
     arg_continue_on_error := arg_continue_on_error a;
     arg_list := arg_list a;
     arg_sortbytime := arg_sortbytime a;
     arg_illustrate := arg_illustrate a;
     arg_illustrate_hpf := arg_illustrate_hpf a;
     arg_wavdir := arg_wavdir a;
     arg_wavext := arg_wavext a;
     arg_file := arg_file a |}.

(** The arguments [a] with another number of processes. *)
Definition with_ncores (ncores : Z) (a : Args) : Args :=
  {| arg_cmd := arg_cmd a;
     arg_dbase := arg_dbase a;
     arg_density := arg_density a;
     arg_hashbits := arg_hashbits a;
     arg_bucketsize := arg_bucketsize a;
     arg_maxtime := arg_maxtime a;
     arg_maxtimebits := arg_maxtimebits a;
     arg_samplerate := arg_samplerate a;
     arg_precompdir := arg_precompdir a;
     arg_shifts := arg_shifts a;
     arg_match_win := arg_match_win a;
     arg_min_count := arg_min_count a;
     arg_max_matches := arg_max_matches a;
     arg_exact_count := arg_exact_count a;
     arg_find_time_range := arg_find_time_range a;
     arg_time_quantile := arg_time_quantile a;
     arg_freq_sd := arg_freq_sd a;
     arg_fanout := arg_fanout a;
     arg_pks_per_frame := arg_pks_per_frame a;
     arg_search_depth := arg_search_depth a;
     arg_ncores := ncores;
     arg_precompute_peaks := arg_precompute_peaks a;
     arg_skip_existing := arg_skip_existing a;
     arg_continue_on_error := arg_continue_on_error a;
     arg_list := arg_list a;
     arg_sortbytime := arg_sortbytime a;
     arg_illustrate := arg_illustrate a;
     arg_illustrate_hpf := arg_illustrate_hpf a;
     arg_wavdir := arg_wavdir a;
     arg_wavext := arg_wavext a;
     arg_file := arg_file a |}.

(** ** The file list of the graphical front end ([audfprint-gui.py])

    The list widget is the list of the texts of its items; [os.sep] is the
    slash. *)

(** [l[start:]] for a Python integer [start]: a negative start counts from
    the end, and a start before the first element is the first element. *)
Definition py_slice_from {A} (start : Z) (l : list A) : list A :=
  if decide (0 ≤ start) then drop (Z.to_nat start) l
  else drop (Z.to_nat (Z.of_nat (length l) + start)) l.

(** [truncatePath] (lines 273-278). *)
Definition truncatePath (path : string) (depth : Z) : string :=
  let parts := split_on slash (chars path) in
  if decide (Z.of_nat (length parts) ≤ depth) then path
  else text (join_with slash (chars "..." :: py_slice_from (- depth) parts)).

(** [s.count(c)] *)
Definition str_count (c : ascii) (s : list ascii) : nat :=
  length (filter (λ x, x = c) s).

(** [calculateMaxDepth] (lines 613-620), over the items of the list. *)
Definition calculateMaxDepth (fileListView : list string) : Z :=
  foldl (λ max_depth file_path,
           let depth := Z.of_nat (str_count slash (chars file_path)) in
           if decide (max_depth < depth) then depth else max_depth)
    0 fileListView.

(** [updateFileList] (lines 266-271): the list is cleared, and then the loop
    runs over the items the list has at that point; [item(i)] of a missing
    row is [None]. *)
Definition updateFileList (depth : Z) (fileListView : list string) : exn + list string :=
  let fileListView : list string := [] in
  foldl (λ r i,
           match r with
           | inl e => inl e
           | inr view =>
               match view !! i with
               | Some file_path => inr (view ++ [truncatePath file_path depth])
               | None => inl AttributeError
               end
           end)
    (inr fileListView) (py_range (Z.of_nat (length fileListView))).

(** [addFile] (lines 308-314); [fname] is what the file dialog returns, the
    empty string when it is cancelled, and [slider] the value of the depth
    slider. *)
Definition addFile (fname : string) (slider : Z) (fileListView : list string)
    : exn + list string :=
  if bool_decide (fname ≠ "") then updateFileList slider (fileListView ++ [fname])
  else inr fileListView.

(** The arguments [a] with other values for the options of the analyzer. *)
Definition with_analysis (density : Q) (pks_per_frame fanout : Z) (freq_sd : Q)
    (shifts samplerate : Z) (continue_on_error : bool) (a : Args) : Args :=
  {| arg_cmd := arg_cmd a;
     arg_dbase := arg_dbase a;
     arg_density := density;
     arg_hashbits := arg_hashbits a;
     arg_bucketsize := arg_bucketsize a;
     arg_maxtime := arg_maxtime a;
     arg_maxtimebits := arg_maxtimebits a;
     arg_samplerate := samplerate;
     arg_precompdir := arg_precompdir a;
     arg_shifts := shifts;
     arg_match_win := arg_match_win a;
     arg_min_count := arg_min_count a;
     arg_max_matches := arg_max_matches a;
     arg_exact_count := arg_exact_count a;
     arg_find_time_range := arg_find_time_range a;
     arg_time_quantile := arg_time_quantile a;
     arg_freq_sd := freq_sd;
     arg_fanout := fanout;
     arg_pks_per_frame := pks_per_frame;
     arg_search_depth := arg_search_depth a;
     arg_ncores := arg_ncores a;
     arg_precompute_peaks := arg_precompute_peaks a;
     arg_skip_existing := arg_skip_existing a;
     arg_continue_on_error := continue_on_error;
     arg_list := arg_list a;
     arg_sortbytime := arg_sortbytime a;
     arg_illustrate := arg_illustrate a;
     arg_illustrate_hpf := arg_illustrate_hpf a;
     arg_wavdir := arg_wavdir a;
     arg_wavext := arg_wavext a;
     arg_file := arg_file a |}.

(** The arguments [a] with other values for the options of the matcher. *)
Definition with_matching (match_win search_depth min_count max_matches : Z)
    (exact_count find_time_range : bool) (time_quantile : Q)
    (sortbytime illustrate illustrate_hpf : bool) (a : Args) : Args :=
  {| arg_cmd := arg_cmd a;
     arg_dbase := arg_dbase a;
     arg_density := arg_density a;
     arg_hashbits := arg_hashbits a;
     arg_bucketsize := arg_bucketsize a;
     arg_maxtime := arg_maxtime a;
     arg_maxtimebits := arg_maxtimebits a;
     arg_samplerate := arg_samplerate a;
     arg_precompdir := arg_precompdir a;
     arg_shifts := arg_shifts a;
     arg_match_win := match_win;
     arg_min_count := min_count;
     arg_max_matches := max_matches;
     arg_exact_count := exact_count;
     arg_find_time_range := find_time_range;
     arg_time_quantile := time_quantile;
     arg_freq_sd := arg_freq_sd a;
     arg_fanout := arg_fanout a;
     arg_pks_per_frame := arg_pks_per_frame a;
     arg_search_depth := search_depth;
     arg_ncores := arg_ncores a;
     arg_precompute_peaks := arg_precompute_peaks a;
     arg_skip_existing := arg_skip_existing a;
     arg_continue_on_error := arg_continue_on_error a;
     arg_list := arg_list a;
     arg_sortbytime := sortbytime;
     arg_illustrate := illustrate;
     arg_illustrate_hpf := illustrate_hpf;
     arg_wavdir := arg_wavdir a;
     arg_wavext := arg_wavext a;
     arg_file := arg_file a |}.

(** Every exception the computation can end in satisfies [P]. *)
Definition raises_only {A} (P : exn → Prop) (m : M A) : Prop :=
  ∀ s s1 e, m s = (s1, inl e) → P e.

(** An exception other than [ValueError]. *)
Definition no_value_error (e : exn) : Prop :=
  match e with ValueError _ => False | _ => True end.

(** ** Sample data

    A concrete analysis and concrete states, on which the statements below
    are instantiated. *)

Definition sample_collaborators : collaborators :=
  {| PRECOMPEXT := ".afpt";
     PRECOMPPKEXT := ".afpk";
     sound_dur := λ _ f, inject_Z (Z.of_nat (String.length f));
     sound_hashes := λ _ f, [(0, Z.of_nat (String.length f)); (1, 7)];
     sound_peaks := λ _ f, [(0, 3)];
     match_msgs := λ _ _ _ f _, [Text f];
     fresh_dirty := true |}.

Definition sample_analyzer : Analyzer :=
  setup_analyzer 20 false 5 3 30 0 11025 false.

Definition sample_index : HashTable := HashTable_new true 20 100 16384.

Definition sample_state : state :=
  {| analyzer := Some sample_analyzer;
     hash_tab := Some sample_index;
     fs_dirs := ∅;
     fs_files := ∅;
     fs_denied := ∅;
     log := [];
     events := [] |}.

(** A primary index at 11025 Hz and a saved index at 22050 Hz. *)
Definition sample_primary : HashTable := set_param "samplerate" 11025 sample_index.

Definition sample_saved : HashTable :=
  set_dirty false (set_param "samplerate" 22050 (store "x.wav" [(3, 9)] sample_index)).

Definition sample_merge_state : state :=
  {| analyzer := None;
     hash_tab := Some sample_primary;
     fs_dirs := ∅;
     fs_files := {["b.pklz" := FIndex sample_saved]};
     fs_denied := ∅;
     log := [];
     events := [] |}.

(** The state a process starts in: no analyzer and no index yet; here with
    one saved index on disk. *)
Definition sample_start : state :=
  {| analyzer := None;
     hash_tab := None;
     fs_dirs := ∅;
     fs_files := {["b.pklz" := FIndex sample_saved]};
     fs_denied := ∅;
     log := [];
     events := [] |}.

(** A start state in which the directory [locked] may not be created. *)
Definition sample_locked : state :=
  {| analyzer := None;
     hash_tab := None;
     fs_dirs := ∅;
     fs_files := ∅;
     fs_denied := {["locked"]};
     log := [];
     events := [] |}.

(** The state after a first precompute run over one file. *)
Definition sample_precomputed : state :=
  (do_cmd sample_collaborators "precompute" (["d/a.wav"], None) None "." "hashes" true None
     sample_state).1.

Definition sample_matcher : Matcher :=
  setup_matcher 2 100 5 1 false false (5 # 100) false false false.

(** An analysis that finds nothing in any file. *)
Definition sample_silence : collaborators :=
  {| PRECOMPEXT := ".afpt";
     PRECOMPPKEXT := ".afpk";
     sound_dur := λ _ _, 1%Q;
     sound_hashes := λ _ _, [];
     sound_peaks := λ _ _, [];
     match_msgs := λ _ _ _ _ _, [];
     fresh_dirty := false |}.

(** A start state with one list file of three lines, the second one blank
    and the last one without a newline. *)
Definition sample_lists : state :=
  {| analyzer := None;
     hash_tab := None;
     fs_dirs := ∅;
     fs_files := {["l1.txt" := FLines ["a.wav" +:+ text [newline]; text [newline]; "b.wav"]]};
     fs_denied := ∅;
     log := [];
     events := [] |}.

(** * Properties *)

(** ** Executor selection *)

Lemma select_executor_multi cmd ncores :
  select_executor cmd ncores = MultiProcess ↔ 1 < ncores ∧ cmd ∉ single_only.
Proof.
  unfold select_executor.
  destruct (bool_decide_reflect (1 < ncores)) as [Hn|Hn];
    destruct (bool_decide_reflect (cmd ∈ single_only)) as [Hc|Hc]; simpl;
    split; try done; intros [? ?]; done.
Qed.

Lemma choices_split cmd :
  cmd ∈ cmd_choices →
  (cmd ∉ single_only ↔ cmd ∈ ["precompute"; "match"; "new"; "add"]).
Proof.
  unfold cmd_choices, single_only. rewrite !elem_of_cons, !elem_of_nil.
  intros H. split.
  - intros Hn. destruct_or!; subst; try done; try (exfalso; apply Hn; tauto); tauto.
  - intros H' Hs. destruct_or!; subst; done.
Qed.

Lemma multiproc_rejects C completion cmd it matcher outdir type sk sp ncores s :
  cmd ∈ single_only →
  do_cmd_multiproc C completion cmd it matcher outdir type sk sp ncores s
  = (s, inl (ValueError ("unrecognized multiproc command: " +:+ cmd))).
Proof.
  unfold single_only. rewrite !elem_of_cons, elem_of_nil.
  intros H. destruct_or!; subst; done.
Qed.

(** C4: for a command [click] accepts, [main] selects the multi-process
    executor exactly when the requested concurrency is above one and the
    command is precompute, match, new or add; with one core or fewer, or for
    merge, newmerge, list and remove, it selects the single-process executor
    whatever the concurrency; and these four are commands the multi-process
    executor itself refuses. *)
Theorem executor_selection C cmd ncores :
  cmd ∈ cmd_choices →
  (select_executor cmd ncores = MultiProcess
     ↔ 1 < ncores ∧ cmd ∈ ["precompute"; "match"; "new"; "add"])
  ∧ (ncores ≤ 1 ∨ cmd ∈ ["merge"; "newmerge"; "list"; "remove"]
     → select_executor cmd ncores = SingleProcess)
  ∧ (cmd ∈ ["merge"; "newmerge"; "list"; "remove"] →
     ∀ completion it matcher outdir type sk sp n s,
       do_cmd_multiproc C completion cmd it matcher outdir type sk sp n s
       = (s, inl (ValueError ("unrecognized multiproc command: " +:+ cmd)))).
Proof.
  intros Hc. pose proof (choices_split cmd Hc) as Hsplit.
  pose proof (select_executor_multi cmd ncores) as Hm.
  split_and!.
  - rewrite Hm, Hsplit. done.
  - intros H. clear Hm. destruct (select_executor cmd ncores) eqn:E; [done|].
    apply select_executor_multi in E as [H1 H2]. destruct H as [H|H]; [lia|done].
  - intros H completion it matcher outdir type sk sp n s. by apply multiproc_rejects.
Qed.

Lemma executor_selection_witness :
  (select_executor "match" 4 = MultiProcess
     ↔ 1 < 4 ∧ "match" ∈ ["precompute"; "match"; "new"; "add"])
  ∧ (4 ≤ 1 ∨ "match" ∈ ["merge"; "newmerge"; "list"; "remove"]
     → select_executor "match" 4 = SingleProcess)
  ∧ ("match" ∈ ["merge"; "newmerge"; "list"; "remove"] →
     ∀ completion it matcher outdir type sk sp n s,
       do_cmd_multiproc sample_collaborators completion "match" it matcher outdir type
         sk sp n s
       = (s, inl (ValueError ("unrecognized multiproc command: " +:+ "match")))).
Proof.
  apply (executor_selection sample_collaborators "match" 4).
  apply (bool_decide_unpack _). vm_compute. reflexivity.
Defined.

(** ** Round-robin partitions *)

Lemma residue_class_snoc n files f j :
  residue_class n (files ++ [f]) j
  = residue_class n files j ++ (if decide (length files `mod` n = j)%nat then [f] else []).
Proof.
  unfold residue_class. rewrite imap_app, bind_app. f_equal.
  simpl. rewrite Nat.add_0_r, app_nil_r. done.
Qed.

Lemma round_robin_length n files : length (round_robin n files) = n.
Proof. unfold round_robin. by rewrite length_fmap, length_seq. Qed.

Lemma round_robin_lookup n files j :
  (j < n)%nat → round_robin n files !! j = Some (residue_class n files j).
Proof.
  intros Hj. unfold round_robin. rewrite list_lookup_fmap.
  replace (seq 0 n !! j) with (Some j); [done|].
  symmetry. apply lookup_seq. done.
Qed.

Lemma round_robin_snoc n files f :
  (0 < n)%nat →
  round_robin n (files ++ [f])
  = alter (λ l, l ++ [f]) (length files `mod` n)%nat (round_robin n files).
Proof.
  intros Hn. apply list_eq. intros j.
  destruct (decide (j < n)%nat) as [Hj|Hj].
  - rewrite round_robin_lookup by done. rewrite residue_class_snoc.
    destruct (decide (length files `mod` n = j)%nat) as [->|Hne].
    + rewrite list_lookup_alter_eq, round_robin_lookup by done. done.
    + rewrite list_lookup_alter_ne, round_robin_lookup by done.
      by rewrite app_nil_r.
  - rewrite !lookup_ge_None_2; [done| |].
    + rewrite length_alter, round_robin_length. lia.
    + rewrite round_robin_length. lia.
Qed.

Lemma round_robin_nil n : round_robin n [] = empty_filelists (Z.of_nat n).
Proof.
  unfold round_robin, empty_filelists, py_range. rewrite Nat2Z.id.
  apply list_fmap_ext. done.
Qed.

Lemma unpack_loop_round_robin n files done_ :
  (0 < n)%nat →
  unpack_loop (Z.of_nat n) files (Z.of_nat (length done_)) (round_robin n done_)
  = inr (round_robin n (done_ ++ files)).
Proof.
  intros Hn. revert done_. induction files as [|f files IH]; intros done_; simpl.
  - by rewrite app_nil_r.
  - unfold py_mod. destruct (decide (Z.of_nat n = 0)) as [?|_]; [lia|].
    unfold py_index. rewrite round_robin_length.
    pose proof (Z.mod_pos_bound (Z.of_nat (length done_)) (Z.of_nat n) ltac:(lia)).
    destruct (decide _) as [_|?]; [|lia].
    rewrite <- Nat2Z.inj_mod, Nat2Z.id.
    rewrite <- round_robin_snoc by done.
    replace (Z.of_nat (length done_) + 1) with (Z.of_nat (length (done_ ++ [f])))
      by (rewrite length_app; simpl; lia).
    rewrite IH. by rewrite <- app_assoc.
Qed.

(** For a positive number of cores the unpacking loop succeeds, and
    partition [j] is the subsequence of the files at positions congruent to
    [j]. *)
Lemma unpack_files_round_robin ncores files :
  1 ≤ ncores →
  unpack_files ncores files = inr (round_robin (Z.to_nat ncores) files).
Proof.
  intros Hn. unfold unpack_files.
  replace ncores with (Z.of_nat (Z.to_nat ncores)) at 1 2 by lia.
  rewrite <- round_robin_nil.
  apply (unpack_loop_round_robin (Z.to_nat ncores) files []). lia.
Qed.

Lemma concat_alter_snoc (ls : list (list string)) k f :
  (k < length ls)%nat → concat (alter (λ l, l ++ [f]) k ls) ≡ₚ concat ls ++ [f].
Proof.
  revert k. induction ls as [|l ls IH]; intros k Hk; simpl in *; [lia|].
  destruct k as [|k]; simpl.
  - rewrite <- !app_assoc. apply Permutation_app_head, Permutation_app_comm.
  - specialize (IH k ltac:(lia)). unfold alter in IH.
    rewrite IH. by rewrite app_assoc.
Qed.

Lemma round_robin_perm n files :
  (0 < n)%nat → concat (round_robin n files) ≡ₚ files.
Proof.
  intros Hn. induction files as [|f files IH] using rev_ind.
  - rewrite round_robin_nil. unfold empty_filelists, py_range.
    induction (seq 0 (Z.to_nat (Z.of_nat n))); simpl; done.
  - rewrite round_robin_snoc by done. rewrite concat_alter_snoc.
    + by rewrite IH.
    + rewrite round_robin_length. apply Nat.mod_upper_bound. lia.
Qed.

Lemma elem_of_residue_class n files j f :
  f ∈ residue_class n files j ↔ ∃ i, files !! i = Some f ∧ (i `mod` n = j)%nat.
Proof.
  unfold residue_class. rewrite list_elem_of_bind. split.
  - intros [[i f'] [Hin Hmem]]. simpl in *.
    destruct (decide _) as [Hm|]; [|by apply elem_of_nil in Hin].
    apply list_elem_of_singleton in Hin as ->.
    apply elem_of_lookup_imap in Hmem as (i' & x & Heq & Hl).
    injection Heq as -> ->. eauto.
  - intros (i & Hl & Hm). exists (i, f). simpl.
    rewrite decide_True by done. split; [apply list_elem_of_singleton; done|].
    apply elem_of_lookup_imap. eauto.
Qed.

(** C5 as stated fails: with a file name given twice, two partitions hold
    the same file. [multiproc_add] over [a; a] with two cores builds the
    partitions [[a]; [a]], which are not disjoint. *)
Lemma partitions_not_disjoint_with_repeats :
  ¬ (∀ (files : list string) (ncores : Z) (parts : list (list string)),
       1 ≤ ncores →
       unpack_files ncores files = inr parts →
       ∀ (j1 j2 : nat) (l1 l2 : list string) (f : string),
         j1 ≠ j2 → parts !! j1 = Some l1 → parts !! j2 = Some l2 →
         f ∈ l1 → f ∉ l2).
Proof.
  intros H.
  apply (H ["a"; "a"] 2 [["a"]; ["a"]] ltac:(lia) eq_refl 0%nat 1%nat ["a"] ["a"] "a");
    first [ done | apply list_elem_of_singleton; done ].
Qed.

(** C5, amended: for every file sequence and every [ncores >= 1] the
    unpacking loop of [multiproc_add] succeeds with [ncores] partitions;
    the partitions together are a permutation of the input, so every
    position of the input lands in exactly one of them, whatever their sizes;
    partition [j] holds exactly the files at the positions congruent to [j]
    modulo [ncores]; and when no file name is repeated, a file is in one
    partition only, so the partitions are pairwise disjoint. *)
Theorem unpack_files_partition (files : list string) (ncores : Z) :
  1 ≤ ncores →
  ∃ parts : list (list string),
    unpack_files ncores files = inr parts
    ∧ length parts = Z.to_nat ncores
    ∧ concat parts ≡ₚ files
    ∧ (∀ j l, parts !! j = Some l →
         ∀ f, f ∈ l ↔ ∃ i, files !! i = Some f ∧ (i `mod` Z.to_nat ncores = j)%nat)
    ∧ (NoDup files →
       ∀ j1 j2 l1 l2 f,
         parts !! j1 = Some l1 → parts !! j2 = Some l2 → f ∈ l1 → f ∈ l2 → j1 = j2).
Proof.
  intros Hn. set (n := Z.to_nat ncores). assert (0 < n)%nat as Hpos by lia.
  exists (round_robin n files).
  assert (∀ j l, round_robin n files !! j = Some l →
            ∀ f, f ∈ l ↔ ∃ i, files !! i = Some f ∧ (i `mod` n = j)%nat) as Hmem.
  { intros j l Hl f. pose proof (lookup_lt_Some _ _ _ Hl) as Hj.
    rewrite round_robin_length in Hj. rewrite round_robin_lookup in Hl by done.
    injection Hl as <-. apply elem_of_residue_class. }
  split_and!.
  - by apply unpack_files_round_robin.
  - apply round_robin_length.
  - by apply round_robin_perm.
  - done.
  - intros Hnd j1 j2 l1 l2 f H1 H2 Hf1 Hf2.
    apply (Hmem _ _ H1) in Hf1 as (i1 & Hi1 & <-).
    apply (Hmem _ _ H2) in Hf2 as (i2 & Hi2 & <-).
    by rewrite (NoDup_lookup _ _ _ _ Hnd Hi1 Hi2).
Qed.

Lemma unpack_files_partition_witness :
  ∃ parts : list (list string),
    unpack_files 3 ["a.wav"; "b.wav"; "c.wav"; "d.wav"] = inr parts
    ∧ length parts = Z.to_nat 3
    ∧ concat parts ≡ₚ ["a.wav"; "b.wav"; "c.wav"; "d.wav"]
    ∧ (∀ j l, parts !! j = Some l →
         ∀ f, f ∈ l ↔ ∃ i, ["a.wav"; "b.wav"; "c.wav"; "d.wav"] !! i = Some f
                           ∧ (i `mod` Z.to_nat 3 = j)%nat)
    ∧ (NoDup ["a.wav"; "b.wav"; "c.wav"; "d.wav"] →
       ∀ j1 j2 l1 l2 f,
         parts !! j1 = Some l1 → parts !! j2 = Some l2 → f ∈ l1 → f ∈ l2 → j1 = j2).
Proof. apply (unpack_files_partition ["a.wav"; "b.wav"; "c.wav"; "d.wav"] 3). lia. Defined.

(** ** The build path and the single-process ingest *)

Section BuildPath.

Context (C : collaborators).

Lemma table_store_fold (H : string → list (Z * Z)) l h :
  table (foldl (λ ht filename, store filename (H filename) ht) h l)
  = table h ++ (l ≫= λ f, (λ th : Z * Z, (th.2, (f, th.1))) <$> H f).
Proof.
  revert h. induction l as [|f l IH]; intros h; simpl.
  - by rewrite app_nil_r.
  - rewrite IH. simpl. by rewrite <- app_assoc.
Qed.

Lemma table_make_ht a l hb d mt :
  table (make_ht_from_list C a l hb d mt)
  = l ≫= λ f, (λ th : Z * Z, (th.2, (f, th.1))) <$> sound_hashes C (aparams a) f.
Proof. unfold make_ht_from_list. by rewrite table_store_fold. Qed.

Lemma table_merge_fold ts h :
  table (foldl (λ h t, merge t h) h ts) = table h ++ concat (table <$> ts).
Proof.
  revert h. induction ts as [|t ts IH]; intros h; simpl.
  - by rewrite app_nil_r.
  - rewrite IH. simpl. by rewrite <- app_assoc.
Qed.

Lemma ingest_loop_spec files : ∀ ix tot s a ht,
  analyzer s = Some a → hash_tab s = Some ht →
  ∃ s' tot',
    ingest_loop C ix files tot s = (s', inr tot')
    ∧ hash_tab s' = Some (foldl (λ h f, store f (sound_hashes C (aparams a) f) h) ht files)
    ∧ analyzer s' = Some (foldl (account C) a files).
Proof.
  induction files as [|f files IH]; intros ix tot s a ht Ha Hh; simpl.
  - exists s, tot. done.
  - unfold bind at 1. simpl. unfold bind at 1.
    unfold ingest, bind, wavfile2hashes, bind, the_analyzer, the_hash_tab, modify. simpl.
    rewrite Ha. simpl. rewrite Hh. simpl.
    destruct (IH (S ix) (tot + length (sound_hashes C (aparams a) f))%nat
                (set_hash_tab (Some (store f (sound_hashes C (aparams a) f) ht))
                   (set_analyzer (Some (account C a f))
                      (add_event (EvAnalyze f) (add_log [Ingesting ix f] s))))
                (account C a f) (store f (sound_hashes C (aparams a) f) ht)
                eq_refl eq_refl) as (s' & tot' & Hr & Hh' & Ha').
    exists s', tot'. done.
Qed.

Lemma do_cmd_ingest_state cmd files matcher outdir type sk sp s a ht :
  cmd = "new" ∨ cmd = "add" →
  analyzer s = Some a → hash_tab s = Some ht →
  hash_tab (do_cmd C cmd (files, None) matcher outdir type sk sp s).1
  = Some (foldl (λ h f, store f (sound_hashes C (aparams a) f) h) ht files)
  ∧ analyzer (do_cmd C cmd (files, None) matcher outdir type sk sp s).1
    = Some (foldl (account C) a files)
  ∧ (do_cmd C cmd (files, None) matcher outdir type sk sp s).2
    = (if Qeq_bool (soundfiletotaldur (foldl (account C) a files)) 0
       then inl ZeroDivisionError else inr tt).
Proof.
  intros Hcmd Ha Hh.
  destruct (ingest_loop_spec files 0%nat 0%nat s a ht Ha Hh) as (s' & tot' & Hr & Hh' & Ha').
  assert (do_cmd C cmd (files, None) matcher outdir type sk sp s
          = (let* tothashes := ingest_loop C 0 files 0 in
             let* a := the_analyzer in
             let* rate := lift (py_truediv (inject_Z (Z.of_nat tothashes)) (soundfiletotaldur a)) in
             modify (add_log [Added tothashes rate])) s) as ->.
  { destruct Hcmd as [-> | ->]; reflexivity. }
  unfold bind, the_analyzer, lift, py_truediv, modify. rewrite Hr. simpl.
  rewrite Ha'. simpl.
  destruct (Qeq_bool _ _); simpl; done.
Qed.

Lemma launch_all_spec filelists cores s a ht maxtime :
  analyzer s = Some a → hash_tab s = Some ht →
  py_shl1 (maxtimebits ht) = inr maxtime →
  ∃ s',
    launch_all C filelists cores s
    = (s', inr ((λ ix, worker_table C (Some a) (filelists !!! ix)
                         (hashbits ht) (depth ht) maxtime) <$> cores))
    ∧ analyzer s' = analyzer s ∧ hash_tab s' = hash_tab s
    ∧ fs_dirs s' = fs_dirs s ∧ fs_files s' = fs_files s ∧ fs_denied s' = fs_denied s
    ∧ log s' = log s ∧ events s' = events s ++ (EvStart <$> cores).
Proof.
  intros Ha Hh Hm. revert s Ha Hh.
  induction cores as [|ix cores IH]; intros s Ha Hh; simpl.
  - exists s. rewrite app_nil_r. done.
  - destruct (IH (add_event (EvStart ix) s) Ha Hh)
      as (s' & Hr & ? & ? & ? & ? & ? & ? & Hev).
    exists s'. unfold bind, launch_one, bind, gets, the_hash_tab, lift, modify, ret.
    rewrite Hh, Hm, Ha. simpl. rewrite Hr. simpl.
    split_and!; try done; try (simpl in *; congruence).
    simpl in *. rewrite Hev. by rewrite <- app_assoc.
Qed.

Lemma gather_spec tables : ∀ i s h,
  hash_tab s = Some h →
  ∃ s',
    for_each_from i (inr <$> tables) gather_one s = (s', inr tt)
    ∧ hash_tab s' = Some (foldl (λ h t, merge t h) h tables)
    ∧ analyzer s' = analyzer s
    ∧ fs_dirs s' = fs_dirs s ∧ fs_files s' = fs_files s ∧ fs_denied s' = fs_denied s
    ∧ log s' = log s ++ imap (λ k t, [TableStats (i + k) (length (names t)) (sum_counts t)]) tables
    ∧ events s' = events s ++ gather_events i (length tables).
Proof.
  induction tables as [|t tables IH]; intros i s h Hh; simpl.
  - exists s. rewrite !app_nil_r. done.
  - unfold bind at 1. unfold gather_one at 1.
    unfold bind, lift, modify, the_hash_tab. simpl. rewrite Hh. simpl.
    match goal with
    | |- context [for_each_from (S i) ?ws _ ?st] =>
        change ws with (@inr exn HashTable <$> tables);
        destruct (IH (S i) st (merge t h) eq_refl)
          as (s' & Hr & Hh' & ? & ? & ? & ? & Hl & Hev)
    end.
    exists s'. rewrite Hr. split_and!; try done.
    + rewrite Hl. simpl. rewrite <- app_assoc. simpl. rewrite Nat.add_0_r.
      do 2 f_equal. apply imap_ext. intros. simpl. do 2 f_equal. lia.
    + rewrite Hev. simpl. rewrite <- !app_assoc. done.
Qed.

Lemma fmap_lookup_total_seq {B} (g : list string → B) (filelists : list (list string)) :
  (λ ix, g (filelists !!! ix)) <$> seq 0 (length filelists) = g <$> filelists.
Proof.
  apply list_eq. intros i. rewrite !list_lookup_fmap.
  destruct (filelists !! i) as [l|] eqn:E; simpl.
  - pose proof (lookup_lt_Some _ _ _ E).
    replace (seq 0 (length filelists) !! i) with (Some i)
      by (symmetry; apply lookup_seq; done).
    simpl. f_equal. f_equal. by apply list_lookup_total_correct.
  - apply lookup_ge_None in E. rewrite lookup_ge_None_2; [done|].
    rewrite length_seq. done.
Qed.

Lemma merged_in_order_fmap a parts hb d mt h :
  foldl (λ h t, merge t h) h ((λ l, make_ht_from_list C a l hb d mt) <$> parts)
  = merged_in_order C a parts hb d mt h.
Proof.
  revert h. induction parts as [|l parts IH]; intros h; simpl; [done|]. by rewrite IH.
Qed.

Lemma multiproc_add_spec files ncores s a ht :
  1 ≤ ncores → analyzer s = Some a → hash_tab s = Some ht → 0 ≤ maxtimebits ht →
  ∃ s',
    multiproc_add C (files, None) ncores s = (s', inr tt)
    ∧ hash_tab s'
      = Some (merged_in_order C a (round_robin (Z.to_nat ncores) files)
                (hashbits ht) (depth ht) (Z.shiftl 1 (maxtimebits ht)) ht)
    ∧ analyzer s' = analyzer s
    ∧ fs_dirs s' = fs_dirs s ∧ fs_files s' = fs_files s ∧ fs_denied s' = fs_denied s
    ∧ events s' = events s ++ (EvStart <$> seq 0 (Z.to_nat ncores))
                  ++ gather_events 0 (Z.to_nat ncores).
Proof.
  intros Hn Ha Hh Hm. unfold multiproc_add. simpl.
  unfold bind at 1. unfold lift. rewrite unpack_files_round_robin by done.
  set (n := Z.to_nat ncores). set (parts := round_robin n files).
  assert (py_shl1 (maxtimebits ht) = inr (Z.shiftl 1 (maxtimebits ht))) as Hs.
  { unfold py_shl1. destruct (decide _); [lia|done]. }
  destruct (launch_all_spec parts (py_range ncores) s a ht _ Ha Hh Hs)
    as (s1 & Hr1 & Ha1 & Hh1 & ? & ? & ? & Hl1 & Hev1).
  unfold bind at 1. rewrite Hr1.
  unfold py_range. fold n.
  assert (length parts = n) as Hlen by apply round_robin_length.
  pose proof (fmap_lookup_total_seq
                (λ l, worker_table C (Some a) l (hashbits ht) (depth ht) (1 ≪ maxtimebits ht))
                parts) as Hx.
  cbv beta in Hx. rewrite Hlen in Hx. rewrite Hx. clear Hx.
  unfold worker_table.
  match goal with
  | |- context [for_each_from 0 ?ws] =>
      replace ws with
        (@inr exn HashTable <$>
           ((λ l, make_ht_from_list C a l (hashbits ht) (depth ht) (1 ≪ maxtimebits ht))
              <$> parts))
        by (by rewrite <- list_fmap_compose)
  end.
  rewrite Hh in Hh1.
  destruct (gather_spec ((λ l, make_ht_from_list C a l (hashbits ht) (depth ht)
                                 (1 ≪ maxtimebits ht)) <$> parts) 0%nat s1 ht Hh1)
    as (s2 & Hr2 & Hh2 & Ha2 & ? & ? & ? & Hl2 & Hev2).
  exists s2. rewrite Hr2. split_and!; try congruence.
  - rewrite Hh2. by rewrite merged_in_order_fmap.
  - rewrite Hev2, Hev1, length_fmap. unfold parts. rewrite round_robin_length.
    unfold py_range. fold n. by rewrite <- app_assoc.
Qed.

Lemma concat_bind_parts {B} (E : string → list B) (parts : list (list string)) :
  concat ((λ l, l ≫= E) <$> parts) = concat parts ≫= E.
Proof.
  induction parts as [|l parts IH]; [done|].
  rewrite fmap_cons. cbn [concat]. by rewrite bind_app, IH.
Qed.

Lemma table_merged_in_order a parts hb d mt h :
  table (merged_in_order C a parts hb d mt h)
  = table h ++ (concat parts ≫= λ f, (λ th : Z * Z, (th.2, (f, th.1))) <$> sound_hashes C (aparams a) f).
Proof.
  rewrite <- merged_in_order_fmap, table_merge_fold. f_equal.
  rewrite <- list_fmap_compose, <- concat_bind_parts. f_equal.
  apply list_fmap_ext. intros ? l _. simpl. apply table_make_ht.
Qed.

(** C1: for every file list and every [ncores >= 1], the multi-process
    build path for new and add (round-robin partitions, one partial index per
    partition, partials merged into the primary index one after the other)
    leaves in the primary index the same number of entries for every file and
    the same total number of stored hashes as the single-process ingest loop
    of [do_cmd] over the same list; the stored occurrences are the same up to
    their order. The primary index is compared as each executor leaves it,
    also when [do_cmd] goes on to fail in its closing report. *)
Theorem multiproc_build_matches_single completion cmd files ncores matcher outdir type
    sk sp s a ht :
  cmd = "new" ∨ cmd = "add" →
  1 ≤ ncores →
  analyzer s = Some a → hash_tab s = Some ht → 0 ≤ maxtimebits ht →
  ∃ h1 sN hN,
    hash_tab (do_cmd C cmd (files, None) matcher outdir type sk sp s).1 = Some h1
    ∧ do_cmd_multiproc C completion cmd (files, None) matcher outdir type sk sp ncores s
      = (sN, inr tt)
    ∧ hash_tab sN = Some hN
    ∧ (∀ f, file_count hN f = file_count h1 f)
    ∧ sum_counts hN = sum_counts h1
    ∧ table hN ≡ₚ table h1.
Proof.
  intros Hcmd Hn Ha Hh Hm.
  destruct (do_cmd_ingest_state cmd files matcher outdir type sk sp s a ht Hcmd Ha Hh)
    as (H1 & _ & _).
  destruct (multiproc_add_spec files ncores s a ht Hn Ha Hh Hm) as (sN & Hr & HN & _).
  eexists _, sN, _. split; [exact H1|]. split.
  { destruct Hcmd as [-> | ->]; exact Hr. }
  split; [exact HN|].
  assert (table (merged_in_order C a (round_robin (Z.to_nat ncores) files)
                   (hashbits ht) (depth ht) (1 ≪ maxtimebits ht) ht)
          ≡ₚ table (foldl (λ h f, store f (sound_hashes C (aparams a) f) h) ht files)) as Hp.
  { rewrite table_merged_in_order, table_store_fold.
    apply Permutation_app_head. rewrite round_robin_perm by lia. done. }
  split_and!.
  - intros f. unfold file_count. by rewrite Hp.
  - unfold sum_counts. by rewrite Hp.
  - done.
Qed.

End BuildPath.

Lemma multiproc_build_matches_single_witness :
  ∃ h1 sN hN,
    hash_tab (do_cmd sample_collaborators "new" (["a.wav"; "b.wav"; "c.wav"], None) None
                "." "hashes" false None sample_state).1 = Some h1
    ∧ do_cmd_multiproc sample_collaborators [] "new" (["a.wav"; "b.wav"; "c.wav"], None) None
        "." "hashes" false None 2 sample_state = (sN, inr tt)
    ∧ hash_tab sN = Some hN
    ∧ (∀ f, file_count hN f = file_count h1 f)
    ∧ sum_counts hN = sum_counts h1
    ∧ table hN ≡ₚ table h1.
Proof.
  apply (multiproc_build_matches_single sample_collaborators [] "new"
           ["a.wav"; "b.wav"; "c.wav"] 2 None "." "hashes" false None sample_state
           sample_analyzer sample_index);
    [left; reflexivity | lia | reflexivity | reflexivity | vm_compute; discriminate].
Defined.

(** ** The closing report of the ingest loop *)

Section IngestReport.

Context (C : collaborators).

Lemma totaldur_nonneg a files :
  (∀ p f, (0 <= sound_dur C p f)%Q) → (0 <= soundfiletotaldur a)%Q →
  (0 <= soundfiletotaldur (foldl (account C) a files))%Q.
Proof.
  intros Hd. revert a. induction files as [|f files IH]; intros a Ha; simpl; [done|].
  apply IH. simpl.
  change 0%Q with (0 + 0)%Q. apply Qplus_le_compat; [done|apply Hd].
Qed.

(** C10: in the single-process new and add path the closing report divides
    the total of stored hashes by the analyzer's cumulative processed
    duration whatever that duration is: [do_cmd] ends in a division-by-zero
    error exactly when the duration is zero after the ingest loop, which is
    the case for an empty file sequence on an analyzer that has processed
    nothing; with durations that are never negative, [do_cmd] completes
    exactly when the cumulative duration is positive. *)
Theorem ingest_report_divides cmd files matcher outdir type sk sp s a ht :
  cmd = "new" ∨ cmd = "add" →
  analyzer s = Some a → hash_tab s = Some ht →
  (do_cmd C cmd (files, None) matcher outdir type sk sp s).2
  = (if Qeq_bool (soundfiletotaldur (foldl (account C) a files)) 0
     then inl ZeroDivisionError else inr tt)
  ∧ ((soundfiletotaldur a == 0)%Q →
     (do_cmd C cmd ([], None) matcher outdir type sk sp s).2 = inl ZeroDivisionError)
  ∧ ((∀ p f, (0 <= sound_dur C p f)%Q) → (0 <= soundfiletotaldur a)%Q →
     ((do_cmd C cmd (files, None) matcher outdir type sk sp s).2 = inr tt
      ↔ (0 < soundfiletotaldur (foldl (account C) a files))%Q)).
Proof.
  intros Hcmd Ha Hh.
  pose proof (λ files, do_cmd_ingest_state C cmd files matcher outdir type sk sp s a ht Hcmd Ha Hh)
    as Hst.
  split_and!.
  - apply Hst.
  - intros Hz. destruct (Hst []) as (_ & _ & ->). simpl.
    apply Qeq_bool_iff in Hz. by rewrite Hz.
  - intros Hd Hnn. destruct (Hst files) as (_ & _ & ->).
    pose proof (totaldur_nonneg a files Hd Hnn) as Hge.
    destruct (Qeq_bool _ 0) eqn:E.
    + apply Qeq_bool_iff in E. split; [done|]. intros Hlt.
      rewrite E in Hlt. by apply Qlt_irrefl in Hlt.
    + split; [|done]. intros _. apply Qle_lteq in Hge as [Hlt|Heq]; [done|].
      symmetry in Heq. apply Qeq_bool_iff in Heq. congruence.
Qed.
End IngestReport.

Lemma ingest_report_divides_witness :
  (do_cmd sample_collaborators "add" (["a.wav"], None) None "." "hashes" false None
     sample_state).2
  = (if Qeq_bool (soundfiletotaldur
                    (foldl (account sample_collaborators) sample_analyzer ["a.wav"])) 0
     then inl ZeroDivisionError else inr tt)
  ∧ ((soundfiletotaldur sample_analyzer == 0)%Q →
     (do_cmd sample_collaborators "add" ([], None) None "." "hashes" false None
        sample_state).2 = inl ZeroDivisionError)
  ∧ ((∀ p f, (0 <= sound_dur sample_collaborators p f)%Q) →
     (0 <= soundfiletotaldur sample_analyzer)%Q →
     ((do_cmd sample_collaborators "add" (["a.wav"], None) None "." "hashes" false None
         sample_state).2 = inr tt
      ↔ (0 < soundfiletotaldur
               (foldl (account sample_collaborators) sample_analyzer ["a.wav"]))%Q)).
Proof.
  apply (ingest_report_divides sample_collaborators "add" ["a.wav"] None "." "hashes"
           false None sample_state sample_analyzer sample_index);
    [right; reflexivity | reflexivity | reflexivity].
Defined.

(** ** Sample-rate reconciliation in merge runs *)

Section MergeRuns.

Context (C : collaborators).

Lemma do_cmd_merge_cons cmd filename rest e matcher outdir type sk sp s :
  cmd = "merge" ∨ cmd = "newmerge" →
  do_cmd C cmd (filename :: rest, e) matcher outdir type sk sp s
  = (merge_one filename ;; do_cmd C cmd (rest, e) matcher outdir type sk sp) s.
Proof.
  intros [-> | ->]; unfold do_cmd; simpl; unfold for_iter; simpl;
    unfold bind; destruct (merge_one filename s) as [s1 [x|[]]]; done.
Qed.

Lemma merge_one_result filename s A B :
  hash_tab s = Some A → fs_files s !! filename = Some (FIndex B) →
  merge_one filename s
  = match params A !! "samplerate", params B !! "samplerate" with
    | Some ra, Some rb =>
        if bool_decide (ra = rb)
        then (set_hash_tab (Some (merge (set_dirty false B) A))
                (add_event (EvLoad filename) s), inr tt)
        else (add_event (EvLoad filename) s, inl AssertionError)
    | None, Some rb =>
        (set_hash_tab (Some (merge (set_dirty false B) (set_param "samplerate" rb A)))
           (set_hash_tab (Some (set_param "samplerate" rb A))
              (add_event (EvLoad filename) s)), inr tt)
    | _, None => (add_event (EvLoad filename) s, inl (KeyError "samplerate"))
    end.
Proof.
  intros HA HB. unfold merge_one, HashTable_load, bind, modify, gets, the_hash_tab,
    getitem, py_assert, ret, raise. simpl. rewrite HB.
  unfold add_event at 1. simpl. rewrite HA. simpl.
  destruct (params A !! "samplerate") as [ra|], (params B !! "samplerate") as [rb|]; simpl;
    try done.
  destruct (bool_decide (ra = rb)); [|done]. cbv beta iota.
  change (hash_tab (add_event (EvLoad filename) s)) with (hash_tab s).
  by rewrite HA.
Qed.

(** C2: in a merge or newmerge run, for the next loaded index [B] and the
    primary index [A]: when both define a sample rate and the two differ,
    [do_cmd] raises the assertion error and [A] is left as it was; when [A]
    defines none and [B] defines one, [A] takes the sample rate of [B] and
    then [B] is merged into it; when both define the same rate, [B] is
    merged; and the outcome of the step depends on nothing but the two
    sample-rate entries, so no other parameter is compared. *)
Theorem merge_checks_samplerate_only cmd filename rest e matcher outdir type sk sp s A B :
  cmd = "merge" ∨ cmd = "newmerge" →
  hash_tab s = Some A →
  fs_files s !! filename = Some (FIndex B) →
  (∀ ra rb, params A !! "samplerate" = Some ra → params B !! "samplerate" = Some rb →
     ra ≠ rb →
     (do_cmd C cmd (filename :: rest, e) matcher outdir type sk sp s).2 = inl AssertionError
     ∧ hash_tab (do_cmd C cmd (filename :: rest, e) matcher outdir type sk sp s).1 = Some A)
  ∧ (∀ rb, params A !! "samplerate" = None → params B !! "samplerate" = Some rb →
     do_cmd C cmd (filename :: rest, e) matcher outdir type sk sp s
     = do_cmd C cmd (rest, e) matcher outdir type sk sp
         (set_hash_tab (Some (merge (set_dirty false B) (set_param "samplerate" rb A)))
            (add_event (EvLoad filename) s)))
  ∧ (∀ r, params A !! "samplerate" = Some r → params B !! "samplerate" = Some r →
     do_cmd C cmd (filename :: rest, e) matcher outdir type sk sp s
     = do_cmd C cmd (rest, e) matcher outdir type sk sp
         (set_hash_tab (Some (merge (set_dirty false B) A))
            (add_event (EvLoad filename) s)))
  ∧ (∀ s' A' B',
       hash_tab s' = Some A' → fs_files s' !! filename = Some (FIndex B') →
       params A' !! "samplerate" = params A !! "samplerate" →
       params B' !! "samplerate" = params B !! "samplerate" →
       (merge_one filename s').2 = (merge_one filename s).2).
Proof.
  intros Hcmd HA HB.
  pose proof (merge_one_result filename s A B HA HB) as Hone.
  rewrite (do_cmd_merge_cons cmd filename rest e matcher outdir type sk sp s Hcmd).
  unfold bind at 1 2 3 4. rewrite Hone. split_and!.
  - intros ra rb -> -> Hne. rewrite bool_decide_false by done. done.
  - intros rb -> ->. done.
  - intros r -> ->. rewrite bool_decide_true by done. done.
  - intros s' A' B' HA' HB' EA EB.
    rewrite (merge_one_result filename s' A' B' HA' HB'), EA, EB.
    destruct (params A !! "samplerate") as [ra|], (params B !! "samplerate") as [rb|];
      try done.
    destruct (bool_decide (ra = rb)); done.
Qed.
End MergeRuns.

Lemma merge_checks_samplerate_only_witness :
  (do_cmd sample_collaborators "merge" (["b.pklz"], None) None "." "hashes" false None
     sample_merge_state).2 = inl AssertionError
  ∧ hash_tab (do_cmd sample_collaborators "merge" (["b.pklz"], None) None "." "hashes"
                false None sample_merge_state).1 = Some sample_primary.
Proof.
  apply (proj1 (merge_checks_samplerate_only sample_collaborators "merge" "b.pklz" [] None
                  None "." "hashes" false None sample_merge_state sample_primary
                  sample_saved (or_introl eq_refl) eq_refl eq_refl) 11025 22050).
  - reflexivity.
  - reflexivity.
  - discriminate.
Defined.

(** ** What a computation leaves untouched *)

Section Preserve.
Context {X : Type} (f : state → X).

Lemma preserves_ret {A} (a : A) : preserves f (ret a).
Proof. done. Qed.
Lemma preserves_raise {A} e : preserves f (@raise A e).
Proof. done. Qed.
Lemma preserves_lift {A} r : preserves f (@lift A r).
Proof. done. Qed.
Lemma preserves_gets {A} g : preserves f (@gets A g).
Proof. done. Qed.
Lemma preserves_modify g : (∀ s, f (g s) = f s) → preserves f (modify g).
Proof. intros H s. apply H. Qed.
Lemma preserves_bind {A B} (m : M A) (k : A → M B) :
  preserves f m → (∀ a, preserves f (k a)) → preserves f (bind m k).
Proof.
  intros Hm Hk s. unfold bind. specialize (Hm s).
  destruct (m s) as [s' [e|a]]; simpl in *; [done|]. by rewrite Hk.
Qed.
Lemma preserves_try_pass m : preserves f m → preserves f (try_pass m).
Proof.
  intros Hm s. unfold try_pass. specialize (Hm s).
  destruct (m s) as [s' [e|a]]; done.
Qed.
Lemma preserves_for_each {A} (xs : list A) body :
  (∀ x, preserves f (body x)) → preserves f (for_each xs body).
Proof.
  intros Hb. induction xs as [|x xs IH]; simpl; [apply preserves_ret|].
  apply preserves_bind; [apply Hb|done].
Qed.
Lemma preserves_for_each_from {A} i (xs : list A) body :
  (∀ i x, preserves f (body i x)) → preserves f (for_each_from i xs body).
Proof.
  intros Hb. revert i. induction xs as [|x xs IH]; intros i; simpl; [apply preserves_ret|].
  apply preserves_bind; [apply Hb|done].
Qed.
Lemma preserves_the_hash_tab : preserves f the_hash_tab.
Proof. intros s. unfold the_hash_tab. by destruct (hash_tab s). Qed.
Lemma preserves_the_analyzer : preserves f the_analyzer.
Proof. intros s. unfold the_analyzer. by destruct (analyzer s). Qed.
Lemma preserves_in_worker {A} (m : M A) :
  (∀ s a h, f (set_hash_tab h (set_analyzer a s)) = f s) →
  preserves f m → preserves f (in_worker m).
Proof. intros Hf Hm s. unfold in_worker. simpl. by rewrite Hf. Qed.
End Preserve.

(** Steps through a computation built from the monad's operations. *)
Ltac preserve_step :=
  first
    [ apply preserves_ret | apply preserves_raise | apply preserves_lift
    | apply preserves_gets | apply preserves_the_hash_tab | apply preserves_the_analyzer
    | apply preserves_bind; [|intros ?]
    | apply preserves_try_pass
    | apply preserves_for_each; intros ?
    | apply preserves_for_each_from; intros ? ?
    | apply preserves_modify; intros ?; reflexivity
    | match goal with
      | |- preserves _ (match ?x with _ => _ end) => destruct x
      | |- preserves _ (if ?b then _ else _) => destruct b
      end ].

Lemma saves_app e1 e2 : saves (e1 ++ e2) = saves e1 ++ saves e2.
Proof. unfold saves. apply bind_app. Qed.

Lemma saves_add_event e s :
  (∀ p, e ≠ EvSave p) → saves (events (add_event e s)) = saves (events s).
Proof.
  intros He. simpl. rewrite saves_app. destruct e; simpl; try by rewrite app_nil_r.
  by destruct (He path).
Qed.


(** ** Persistence of the primary index *)

Lemma quiet_event e : (∀ p, e ≠ EvSave p) → preserves saved_paths (modify (add_event e)).
Proof. intros He. apply preserves_modify. intros s. by apply saves_add_event. Qed.

Ltac quiet_step :=
  first [ preserve_step | apply quiet_event; done ].

Section Persistence.

Context (C : collaborators).

Lemma quiet_ensure_dir d : preserves saved_paths (ensure_dir d).
Proof. unfold ensure_dir, os_makedirs, mkdir1. repeat quiet_step. Qed.

Lemma quiet_write_file p c : preserves saved_paths (write_file p c).
Proof. unfold write_file. repeat quiet_step. Qed.

Lemma quiet_load p : preserves saved_paths (HashTable_load p).
Proof. unfold HashTable_load. repeat quiet_step. Qed.

Lemma quiet_wavfile2hashes fn : preserves saved_paths (wavfile2hashes C fn).
Proof. unfold wavfile2hashes. repeat quiet_step. Qed.

Lemma quiet_wavfile2peaks fn : preserves saved_paths (wavfile2peaks C fn).
Proof. unfold wavfile2peaks. repeat quiet_step. Qed.

Lemma quiet_file_precompute fn d t sk sp :
  preserves saved_paths (file_precompute C fn d t sk sp).
Proof.
  unfold file_precompute, file_precompute_peaks_or_hashes, saver.
  repeat first [ apply quiet_wavfile2hashes | apply quiet_wavfile2peaks | apply quiet_ensure_dir | apply quiet_write_file | quiet_step ].
Qed.

Lemma quiet_file_match m fn num : preserves saved_paths (file_match_to_msgs C m fn num).
Proof. unfold file_match_to_msgs. repeat quiet_step. Qed.

Lemma quiet_merge_one fn : preserves saved_paths (merge_one fn).
Proof. unfold merge_one, getitem, py_assert. repeat first [ apply quiet_load | quiet_step ]. Qed.

Lemma quiet_ingest_loop files : ∀ ix tot, preserves saved_paths (ingest_loop C ix files tot).
Proof.
  induction files as [|f files IH]; intros ix tot; simpl.
  - apply preserves_ret.
  - unfold ingest. repeat first [ apply quiet_wavfile2hashes | apply IH | quiet_step ].
Qed.

Lemma quiet_do_cmd cmd it m d t sk sp : preserves saved_paths (do_cmd C cmd it m d t sk sp).
Proof.
  unfold do_cmd, for_iter, for_iter_from.
  repeat first [ apply quiet_merge_one | apply quiet_file_precompute | apply quiet_file_match | apply quiet_ingest_loop | quiet_step ].
Qed.

Lemma quiet_setup_hash_tab a mtb : preserves saved_paths (setup_hash_tab C a mtb).
Proof.
  unfold setup_hash_tab.
  repeat first [ apply quiet_ensure_dir | apply quiet_load | quiet_step ].
Qed.

Lemma quiet_main_run a : preserves saved_paths (main_run C a).
Proof.
  unfold main_run.
  repeat first [ apply quiet_setup_hash_tab | apply quiet_do_cmd | quiet_step ].
Qed.

Lemma keeps_file_match m fn num : preserves hash_tab (file_match_to_msgs C m fn num).
Proof. unfold file_match_to_msgs. repeat preserve_step. Qed.

Lemma keeps_do_cmd_query cmd it m d t sk sp :
  cmd = "list" ∨ cmd = "match" →
  preserves hash_tab (do_cmd C cmd it m d t sk sp).
Proof.
  intros [-> | ->]; unfold do_cmd, for_iter, for_iter_from; simpl;
    repeat first [ apply keeps_file_match | preserve_step ].
Qed.

Lemma main_save_result a s :
  main_save a s
  = match hash_tab s with
    | Some ht =>
        if dirty ht then
          if writable (dbase_path (arg_dbase a)) s then
            (set_hash_tab (Some (set_dirty false ht))
               (add_event (EvSave (dbase_path (arg_dbase a)))
                  (set_fs_files (<[dbase_path (arg_dbase a) := FIndex (set_dirty false ht)]>
                                   (fs_files s)) s)), inr tt)
          else (s, inl (IOError (dbase_path (arg_dbase a))))
        else (s, inr tt)
    | None => (s, inr tt)
    end.
Proof.
  unfold main_save, bind, gets. simpl.
  destruct (hash_tab s) as [ht|] eqn:E; [|done].
  destruct (dirty ht); [|done].
  unfold HashTable_save, bind, the_hash_tab, write_file, bind, gets, modify. rewrite E. simpl.
  destruct (writable _ s); done.
Qed.

Lemma bind_post {A B} (m : M A) (k : A → M B) (P : state → Prop) s :
  (∀ x s', m s = (s', inr x) → succeeded (k x s') = true → P (k x s').1) →
  succeeded (bind m k s) = true → P (bind m k s).1.
Proof.
  unfold succeeded, bind. destruct (m s) as [s' [e|x]]; simpl; [done|]. eauto.
Qed.

Lemma setup_hash_tab_query a mtb s s1 x :
  arg_cmd a = "list" ∨ arg_cmd a = "match" →
  setup_hash_tab C a mtb s = (s1, inr x) →
  ∃ h, hash_tab s1 = Some h ∧ dirty h = false.
Proof.
  intros Hcmd. unfold setup_hash_tab.
  assert (bool_decide (arg_cmd a = "precompute") = false) as ->
    by (destruct Hcmd as [-> | ->]; done).
  assert (bool_decide (arg_cmd a ∈ ["new"; "newmerge"]) = false) as ->
    by (destruct Hcmd as [-> | ->]; done).
  simpl. destruct (no_dbase _); [done|].
  unfold bind, modify, HashTable_load, bind, modify, gets. simpl.
  destruct (fs_files s !! _) as [[l|y|ht]|]; try done.
  simpl. intros [= <- _]. eexists. split; reflexivity.
Qed.

Lemma query_run_clean a s :
  arg_cmd a = "list" ∨ arg_cmd a = "match" →
  succeeded (main_run C a s) = true → is_dirty (main_run C a s).1 = false.
Proof.
  intros Hcmd. unfold main_run.
  assert (bool_decide (arg_cmd a ∈ cmd_choices) = true) as ->
    by (destruct Hcmd as [-> | ->]; done).
  change (negb true) with false. cbv iota.
  apply (bind_post _ _ (λ st, is_dirty st = false)). intros [] s0 _.
  apply (bind_post _ _ (λ st, is_dirty st = false)). intros [] s1 Hsetup.
  apply (setup_hash_tab_query _ _ _ _ _ Hcmd) in Hsetup as (h & Hh & Hd).
  apply (bind_post _ _ (λ st, is_dirty st = false)). intros it s2 [= <- _].
  destruct (select_executor _ _); [|done]. intros _.
  unfold is_dirty. rewrite (keeps_do_cmd_query _ _ _ _ _ _ _ Hcmd s1), Hh. done.
Qed.

(** C3: [main] writes the primary index at most once, after the executor:
    the paths saved during a run are the one named by the index argument
    when the executor completed, the index is dirty at that point and the
    path can be written, and none otherwise; this holds for newmerge, whose
    handle is a fresh index, as for every other command. A run of list or of
    match saves nothing. *)
Theorem index_saved_once_iff_dirty a s :
  saved_paths (main C a s).1
  = saved_paths s ++
    (if succeeded (main_run C a s) && is_dirty (main_run C a s).1
        && writable (dbase_path (arg_dbase a)) (main_run C a s).1
     then [dbase_path (arg_dbase a)] else [])
  ∧ (arg_cmd a = "list" ∨ arg_cmd a = "match" → saved_paths (main C a s).1 = saved_paths s).
Proof.
  assert (saved_paths (main C a s).1
          = saved_paths s ++
            (if succeeded (main_run C a s) && is_dirty (main_run C a s).1
                && writable (dbase_path (arg_dbase a)) (main_run C a s).1
             then [dbase_path (arg_dbase a)] else [])) as Hmain.
  { pose proof (quiet_main_run a s) as Hq.
    unfold main, bind. unfold succeeded, is_dirty.
    destruct (main_run C a s) as [s1 [e|[]]]; simpl in *.
    - by rewrite app_nil_r.
    - rewrite main_save_result.
      destruct (hash_tab s1) as [ht|]; [|by rewrite app_nil_r].
      destruct (dirty ht); [|by rewrite app_nil_r].
      destruct (writable _ s1); simpl; [|by rewrite app_nil_r].
      unfold saved_paths in *. simpl. rewrite saves_app, Hq. done. }
  split; [exact Hmain|].
  intros Hcmd. rewrite Hmain.
  destruct (succeeded (main_run C a s)) eqn:E; [|by rewrite app_nil_r].
  rewrite (query_run_clean a s Hcmd E). by rewrite app_nil_r.
Qed.
End Persistence.

Lemma index_saved_once_iff_dirty_witness :
  saved_paths (main sample_collaborators
                 (click_defaults "list" (Some "b.pklz") []) sample_start).1
  = saved_paths sample_start.
Proof.
  apply (proj2 (index_saved_once_iff_dirty sample_collaborators
                  (click_defaults "list" (Some "b.pklz") []) sample_start)).
  left. reflexivity.
Defined.

(** ** The directory check of new and newmerge *)

Lemma try_pass_returns m s : (try_pass m s).2 = inr tt.
Proof. unfold try_pass. by destruct (m s) as [s' [e|[]]]. Qed.

Lemma ensure_dir_returns dirname s : (ensure_dir dirname s).2 = inr tt.
Proof.
  unfold ensure_dir. destruct (bool_decide _); [|done].
  unfold bind, gets. simpl. destruct (os_path_exists dirname s); simpl; [done|].
  apply try_pass_returns.
Qed.

(** C9 does not hold of the code: [ensure_dir] returns normally whatever
    happens in [os.makedirs], so the check [main] makes for new and newmerge
    cannot fail. With an index path under a directory that may not be
    created, [main] attempts the directory, then analyzes the input file, and
    raises only when it saves the index. *)
Theorem directory_check_never_fails :
  (∀ dirname s, (ensure_dir dirname s).2 = inr tt)
  ∧ events (main sample_collaborators
              (click_defaults "new" (Some "locked/db.pklz") ["a.wav"]) sample_locked).1
    = [EvMakedirs "locked"; EvAnalyze "a.wav"]
  ∧ (main sample_collaborators
       (click_defaults "new" (Some "locked/db.pklz") ["a.wav"]) sample_locked).2
    = inl (IOError "locked/db.pklz").
Proof.
  split; [apply ensure_dir_returns|]. split; vm_compute; reflexivity.
Qed.

(** ** Precompute with skip-existing *)

Section Precompute.

Context (C : collaborators).

Lemma file_precompute_skip filename precompdir type sp s :
  os_path_isfile (opfname_of C filename precompdir None (bool_decide (type = "hashes")) sp) s
  = true →
  file_precompute C filename precompdir type true sp s
  = (s, inr [Text ("file "
                   +:+ opfname_of C filename precompdir None (bool_decide (type = "hashes")) sp
                   +:+ " exists (and --skip-existing); skipping")]).
Proof.
  intros H. unfold file_precompute, file_precompute_peaks_or_hashes, bind, gets. simpl.
  rewrite H. done.
Qed.

Lemma keeps_files_ensure_dir d : preserves fs_files (ensure_dir d).
Proof. unfold ensure_dir, os_makedirs, mkdir1. repeat preserve_step. Qed.

Lemma keeps_analyzer_ensure_dir d : preserves analyzer (ensure_dir d).
Proof. unfold ensure_dir, os_makedirs, mkdir1. repeat preserve_step. Qed.

Lemma bind_inr {A B} (m : M A) (k : A → M B) s s2 y :
  bind m k s = (s2, inr y) → ∃ x s1, m s = (s1, inr x) ∧ k x s1 = (s2, inr y).
Proof. unfold bind. destruct (m s) as [s1 [e|x]]; [done|]. eauto. Qed.

(** The analysis [file_precompute] saves for a file. *)
Lemma file_precompute_files filename precompdir type sk sp s s1 msgs a :
  analyzer s = Some a →
  file_precompute C filename precompdir type sk sp s = (s1, inr msgs) →
  (∀ p, is_Some (fs_files s !! p) → is_Some (fs_files s1 !! p))
  ∧ (∃ a', analyzer s1 = Some a' ∧ aparams a' = aparams a)
  ∧ ((if bool_decide (type = "hashes") then sound_hashes C (aparams a) filename
      else sound_peaks C (aparams a) filename) ≠ [] →
     os_path_isfile
       (opfname_of C filename precompdir None (bool_decide (type = "hashes")) sp) s1 = true).
Proof.
  intros Ha. unfold file_precompute, file_precompute_peaks_or_hashes.
  set (opf := opfname_of _ _ _ _ _ _).
  intros H. apply bind_inr in H as (isf & s0 & [= <- <-] & H).
  destruct (sk && os_path_isfile opf s) eqn:Esk.
  { injection H as <- _. split; [done|]. split; [eauto|]. intros _.
    by apply andb_true_iff in Esk as [_ ?]. }
  apply bind_inr in H as (output & s2 & Hout & H).
  assert (fs_files s2 = fs_files s ∧ analyzer s2 = Some (account C a filename)
          ∧ output = (if bool_decide (type = "hashes") then sound_hashes C (aparams a) filename
                      else sound_peaks C (aparams a) filename)) as (Hf2 & Ha2 & ->).
  { destruct (bool_decide (type = "hashes"));
      unfold wavfile2hashes, wavfile2peaks, bind, the_analyzer, modify, ret in Hout;
      rewrite Ha in Hout; simpl in Hout; injection Hout as <- <-; done. }
  destruct (bool_decide (length _ = 0%nat)) eqn:El.
  { injection H as <- _. rewrite Hf2. split; [done|]. split; [eauto|]. intros Hne.
    apply bool_decide_eq_true in El. by apply length_zero_iff_nil in El. }
  apply bind_inr in H as ([] & s3 & Hens & H).
  pose proof (keeps_files_ensure_dir (path_split opf).1 s2) as Hf3.
  pose proof (keeps_analyzer_ensure_dir (path_split opf).1 s2) as Ha3.
  rewrite Hens in Hf3, Ha3. simpl in Hf3, Ha3.
  apply bind_inr in H as ([] & s4 & Hsave & H).
  unfold saver, write_file in Hsave.
  apply bind_inr in Hsave as ([] & s5 & Hw & Hev).
  apply bind_inr in Hw as (ok & s6 & [= <- <-] & Hw).
  destruct (writable opf s3); [|done].
  injection Hw as <-. injection Hev as <-.
  apply bind_inr in H as (a' & s7 & Hget & [= <- _]).
  unfold the_analyzer in Hget.
  match type of Hget with context [analyzer ?st] => destruct (analyzer st); [|done] end.
  injection Hget as <- _.
  simpl. rewrite Hf3, Hf2. split_and!.
  - intros p Hp. destruct (decide (opf = p)) as [->|Hne].
    + rewrite lookup_insert_eq. eauto.
    + by rewrite lookup_insert_ne.
  - rewrite Ha3, Ha2. eauto.
  - intros _. unfold os_path_isfile. simpl. apply bool_decide_eq_true.
    rewrite lookup_insert_eq. eauto.
Qed.

Lemma do_cmd_precompute_nil m outdir type sk sp s :
  do_cmd C "precompute" ([], None) m outdir type sk sp s = (s, inr tt).
Proof. done. Qed.

Lemma do_cmd_precompute_cons f files m outdir type sk sp s :
  do_cmd C "precompute" (f :: files, None) m outdir type sk sp s
  = (let* msgs := file_precompute C f outdir type sk sp in
     modify (add_log msgs) ;;
     do_cmd C "precompute" (files, None) m outdir type sk sp) s.
Proof.
  unfold do_cmd, for_iter. simpl. unfold bind.
  destruct (file_precompute C f outdir type sk sp s) as [s1 [e|msgs]]; [done|]. simpl.
  destruct (for_each files _ _) as [s2 [e|[]]]; done.
Qed.

Lemma second_run_skips files m outdir type sp : ∀ s,
  (∀ f, f ∈ files →
     os_path_isfile (opfname_of C f outdir None (bool_decide (type = "hashes")) sp) s = true) →
  do_cmd C "precompute" (files, None) m outdir type true sp s
  = (foldl (λ st f,
              add_log [Text ("file "
                             +:+ opfname_of C f outdir None (bool_decide (type = "hashes")) sp
                             +:+ " exists (and --skip-existing); skipping")] st) s files,
     inr tt).
Proof.
  induction files as [|f files IH]; intros s Hall.
  - apply do_cmd_precompute_nil.
  - rewrite do_cmd_precompute_cons. unfold bind at 1.
    rewrite file_precompute_skip by (apply Hall; left).
    unfold bind, modify. simpl. apply IH.
    intros f' Hf'. unfold os_path_isfile. simpl. apply Hall. by right.
Qed.

Lemma first_run_writes files m outdir type sk sp : ∀ s s1 a,
  analyzer s = Some a →
  do_cmd C "precompute" (files, None) m outdir type sk sp s = (s1, inr tt) →
  (∀ p, is_Some (fs_files s !! p) → is_Some (fs_files s1 !! p))
  ∧ ∀ f, f ∈ files →
      (if bool_decide (type = "hashes") then sound_hashes C (aparams a) f
       else sound_peaks C (aparams a) f) ≠ [] →
      os_path_isfile (opfname_of C f outdir None (bool_decide (type = "hashes")) sp) s1 = true.
Proof.
  induction files as [|f files IH]; intros s s1 a Ha Hrun.
  - rewrite do_cmd_precompute_nil in Hrun. injection Hrun as <-.
    split; [done|]. intros f Hf. by apply elem_of_nil in Hf.
  - rewrite do_cmd_precompute_cons in Hrun.
    apply bind_inr in Hrun as (msgs & s2 & Hone & Hrun).
    apply bind_inr in Hrun as ([] & s3 & [= <-] & Hrun).
    destruct (file_precompute_files _ _ _ _ _ _ _ _ _ Ha Hone) as (Hmono & (a' & Ha' & Hp) & Hw).
    destruct (IH (add_log msgs s2) s1 a' Ha' Hrun) as (Hmono' & Hrest).
    split; [intros p Hp0; apply Hmono', Hmono, Hp0|].
    intros f' Hin Hne. apply elem_of_cons in Hin as [->|Hin].
    + specialize (Hw Hne). unfold os_path_isfile in *.
      apply bool_decide_eq_true. apply Hmono'. simpl.
      by apply bool_decide_eq_true in Hw.
    + apply Hrest; [done|]. by rewrite Hp.
Qed.

Lemma skipped_run_state files outdir type sp : ∀ s,
  let s2 := foldl (λ st f,
              add_log [Text ("file "
                             +:+ opfname_of C f outdir None (bool_decide (type = "hashes")) sp
                             +:+ " exists (and --skip-existing); skipping")] st) s files in
  events s2 = events s ∧ analyzer s2 = analyzer s ∧ hash_tab s2 = hash_tab s
  ∧ fs_files s2 = fs_files s ∧ fs_dirs s2 = fs_dirs s
  ∧ log s2
    = log s ++
      ((λ f, [Text ("file "
                    +:+ opfname_of C f outdir None (bool_decide (type = "hashes")) sp
                    +:+ " exists (and --skip-existing); skipping")]) <$> files).
Proof.
  induction files as [|f files IH]; intros s; simpl.
  - by rewrite app_nil_r.
  - destruct (IH (add_log [Text ("file " +:+ opfname_of C f outdir None (bool_decide (type = "hashes")) sp +:+ " exists (and --skip-existing); skipping")] s))
      as (-> & -> & -> & -> & -> & ->).
    simpl. by rewrite <- app_assoc.
Qed.

(** C8: with skip-existing, [file_precompute] on a file whose artifact
    exists returns the one message that says it is skipped and leaves the
    state as it is: no analysis, no write. Hence a precompute run with
    skip-existing over files whose artifacts exist only logs these messages:
    it analyzes nothing and leaves every artifact as it was. After a
    completed precompute run the artifact exists for every file whose analysis
    was not empty, so this is what a second run does with them. *)
Theorem precompute_skip_existing m outdir type sp :
  (∀ f st,
     os_path_isfile (opfname_of C f outdir None (bool_decide (type = "hashes")) sp) st = true →
     file_precompute C f outdir type true sp st
     = (st, inr [Text ("file "
                       +:+ opfname_of C f outdir None (bool_decide (type = "hashes")) sp
                       +:+ " exists (and --skip-existing); skipping")]))
  ∧ (∀ files s1,
       (∀ f, f ∈ files →
          os_path_isfile (opfname_of C f outdir None (bool_decide (type = "hashes")) sp) s1
          = true) →
       ∃ s2,
         do_cmd C "precompute" (files, None) m outdir type true sp s1 = (s2, inr tt)
         ∧ events s2 = events s1
         ∧ analyzer s2 = analyzer s1
         ∧ hash_tab s2 = hash_tab s1
         ∧ fs_files s2 = fs_files s1
         ∧ fs_dirs s2 = fs_dirs s1
         ∧ log s2
           = log s1 ++
             ((λ f, [Text ("file "
                           +:+ opfname_of C f outdir None (bool_decide (type = "hashes")) sp
                           +:+ " exists (and --skip-existing); skipping")]) <$> files))
  ∧ (∀ files sk s s1 a,
       analyzer s = Some a →
       do_cmd C "precompute" (files, None) m outdir type sk sp s = (s1, inr tt) →
       ∀ f, f ∈ files →
         (if bool_decide (type = "hashes") then sound_hashes C (aparams a) f
          else sound_peaks C (aparams a) f) ≠ [] →
         os_path_isfile (opfname_of C f outdir None (bool_decide (type = "hashes")) sp) s1
         = true).
Proof.
  split_and!.
  - intros f st. apply file_precompute_skip.
  - intros files s1 Hall. eexists. split; [by apply second_run_skips|].
    apply skipped_run_state.
  - intros files sk s s1 a Ha Hrun.
    by destruct (first_run_writes files m outdir type sk sp s s1 a Ha Hrun).
Qed.
End Precompute.

Lemma precompute_skip_existing_witness :
  ∃ s2,
    do_cmd sample_collaborators "precompute" (["d/a.wav"], None) None "." "hashes" true None
      sample_precomputed = (s2, inr tt)
    ∧ events s2 = events sample_precomputed
    ∧ analyzer s2 = analyzer sample_precomputed
    ∧ hash_tab s2 = hash_tab sample_precomputed
    ∧ fs_files s2 = fs_files sample_precomputed
    ∧ fs_dirs s2 = fs_dirs sample_precomputed
    ∧ log s2
      = log sample_precomputed ++
        ((λ f, [Text ("file "
                      +:+ opfname_of sample_collaborators f "." None
                            (bool_decide ("hashes" = "hashes")) None
                      +:+ " exists (and --skip-existing); skipping")]) <$> ["d/a.wav"]).
Proof.
  apply (proj1 (proj2 (precompute_skip_existing sample_collaborators None "." "hashes" None))
           ["d/a.wav"] sample_precomputed).
  intros f Hf. apply list_elem_of_singleton in Hf. rewrite Hf. vm_compute. reflexivity.
Defined.

(** ** The parallel task path *)

Section Tasks.
Context {R : Type} (I : state → Prop) (tasks : list (M R)).
Hypothesis I_worker : ∀ t s, t ∈ tasks → I s → I (in_worker t s).1.
Hypothesis I_inproc : ∀ t s, t ∈ tasks → I s → I (t s).1.

Lemma in_worker_result {A} (m : M A) s : (in_worker m s).2 = (m s).2.
Proof. done. Qed.

Lemma run_tasks_filled completion : ∀ results s s' out,
  I s → filled I tasks results →
  run_tasks completion tasks results s = (s', inr out) →
  I s' ∧ filled I tasks out ∧ length out = length results
  ∧ ∀ i, (i < length results)%nat →
      (i ∈ completion ∧ (i < length tasks)%nat → ∃ r, out !! i = Some (Some r))
      ∧ (i ∉ completion → out !! i = results !! i).
Proof.
  induction completion as [|k completion IH]; intros results s s' out HI Hfill Hrun; simpl in Hrun.
  - injection Hrun as <- <-. split_and!; try done. intros i Hi. split; [|done].
    intros [Hin _]. by apply elem_of_nil in Hin.
  - destruct (tasks !! k) as [t|] eqn:Et.
    + unfold bind in Hrun. destruct (in_worker t s) as [s1 [e|r]] eqn:Ew; [done|].
      assert (t ∈ tasks) as Hin by (by eapply list_elem_of_lookup_2).
      assert (I s1) as HI1 by (specialize (I_worker t s Hin HI); by rewrite Ew in I_worker).
      assert (filled I tasks (<[k := Some r]> results)) as Hfill1.
      { intros i r' Hl. destruct (decide (i = k)) as [->|Hne].
        - destruct (decide (k < length results)%nat).
          + rewrite list_lookup_insert_eq in Hl by done. injection Hl as <-.
            exists t. split; [done|]. exists s. split; [done|].
            rewrite <- in_worker_result, Ew. done.
          + rewrite list_insert_ge in Hl by lia. by apply Hfill.
        - rewrite list_lookup_insert_ne in Hl by done. by apply Hfill. }
      destruct (IH _ _ _ _ HI1 Hfill1 Hrun) as (HI' & Hf' & Hlen & Hpos).
      rewrite length_insert in Hlen, Hpos.
      split_and!; try done. intros i Hi. destruct (Hpos i Hi) as [Hp1 Hp2]. split.
      * intros [Hin' Hlt]. destruct (decide (i ∈ completion)) as [Hc|Hc]; [by apply Hp1|].
        apply elem_of_cons in Hin' as [->|?]; [|done].
        rewrite Hp2 by done. rewrite list_lookup_insert_eq by done. eauto.
      * intros Hn. apply not_elem_of_cons in Hn as [Hne Hn].
        rewrite Hp2 by done. by rewrite list_lookup_insert_ne.
    + destruct (IH _ _ _ _ HI Hfill Hrun) as (HI' & Hf' & Hlen & Hpos).
      split_and!; try done. intros i Hi. destruct (Hpos i Hi) as [Hp1 Hp2]. split.
      * intros [Hin' Hlt]. apply elem_of_cons in Hin' as [->|?]; [|by apply Hp1].
        apply lookup_lt_is_Some_2 in Hlt as [? ?]. congruence.
      * intros Hn. apply not_elem_of_cons in Hn as [Hne Hn]. by apply Hp2.
Qed.

Lemma run_sequential_results : ∀ ts s s' out,
  ts ⊆ tasks → I s →
  run_sequential ts s = (s', inr out) →
  I s' ∧ Forall2 (λ r t, returns_from I t r) out ts.
Proof.
  induction ts as [|t ts IH]; intros s s' out Hsub HI Hrun; simpl in Hrun.
  - injection Hrun as <- <-. done.
  - unfold bind in Hrun. destruct (t s) as [s1 [e|r]] eqn:Et; [done|].
    destruct (run_sequential ts s1) as [s2 [e|rs]] eqn:Ers; [done|].
    injection Hrun as <- <-.
    assert (t ∈ tasks) as Hin by (apply Hsub; left).
    assert (I s1) as HI1 by (specialize (I_inproc t s Hin HI); by rewrite Et in I_inproc).
    destruct (IH s1 s2 rs) as [HI2 Hall]; [intros x Hx; apply Hsub; by right|done|done|].
    split; [done|]. constructor; [|done]. exists s. split; [done|]. by rewrite Et.
Qed.

(** The results of [joblib.Parallel] are in the order of the tasks, whatever
    the order in which the tasks complete. *)
Lemma joblib_Parallel_in_order completion ncores s s' out :
  completion ≡ₚ seq 0 (length tasks) →
  I s →
  joblib_Parallel completion ncores tasks s = (s', inr out) →
  I s' ∧ Forall2 (λ r t, returns_from I t r) out tasks.
Proof.
  intros Hperm HI. unfold joblib_Parallel.
  destruct (bool_decide (ncores = 0)); [done|].
  destruct (bool_decide (ncores = 1)).
  { by apply run_sequential_results. }
  unfold bind. destruct (run_tasks _ _ _ s) as [s1 [e|res]] eqn:Er; [done|].
  intros [= <- <-].
  assert (filled I tasks (replicate (length tasks) None)) as Hnone.
  { intros i r Hl. apply lookup_replicate in Hl as [? ?]. done. }
  destruct (run_tasks_filled _ _ _ _ _ HI Hnone Er) as (HI' & Hfill & Hlen & Hpos).
  rewrite length_replicate in Hlen, Hpos. split; [done|].
  assert (∀ i, (i < length tasks)%nat → ∃ r, res !! i = Some (Some r)) as Hall.
  { intros i Hi. apply (Hpos i Hi). split; [|done].
    rewrite Hperm. apply elem_of_seq. lia. }
  assert (∃ rs, res = Some <$> rs) as [rs ->].
  { clear -Hall Hlen. revert Hall. rewrite <- Hlen. clear Hlen.
    induction res as [|o res IH]; intros Hall; [by exists []|].
    destruct (Hall 0%nat ltac:(simpl; lia)) as [r [= ->]].
    destruct IH as [rs ->].
    { intros i Hi. apply (Hall (S i)). simpl. lia. }
    by exists (r :: rs). }
  assert (omap id (Some <$> rs) = rs) as ->.
  { clear. induction rs as [|r rs IH]; [done|]. simpl. f_equal. apply IH. }
  rewrite length_fmap in Hlen.
  apply Forall2_same_length_lookup. split; [done|].
  intros i r t Hr Ht.
  destruct (Hfill i r) as (t' & Ht' & Hret).
  { by rewrite list_lookup_fmap, Hr. }
  congruence.
Qed.
End Tasks.

Section TaskFrame.
Context {X R : Type} (f : state → X) (tasks : list (M R)).
Hypothesis f_worker : ∀ s a h, f (set_hash_tab h (set_analyzer a s)) = f s.
Hypothesis f_tasks : ∀ t, t ∈ tasks → preserves f t.

Lemma preserves_run_tasks completion : ∀ results,
  preserves f (run_tasks completion tasks results).
Proof.
  induction completion as [|k completion IH]; intros results; simpl.
  - apply preserves_ret.
  - destruct (tasks !! k) as [t|] eqn:Et; [|apply IH].
    apply preserves_bind; [|intros; apply IH].
    apply preserves_in_worker; [done|]. apply f_tasks. by eapply list_elem_of_lookup_2.
Qed.

Lemma preserves_run_sequential ts : ts ⊆ tasks → preserves f (run_sequential ts).
Proof.
  induction ts as [|t ts IH]; intros Hsub; simpl.
  - apply preserves_ret.
  - apply preserves_bind; [apply f_tasks, Hsub; left|]. intros r.
    apply preserves_bind; [|intros; apply preserves_ret].
    apply IH. intros x Hx. apply Hsub. by right.
Qed.

Lemma preserves_joblib_Parallel completion ncores :
  preserves f (joblib_Parallel completion ncores tasks).
Proof.
  unfold joblib_Parallel.
  destruct (bool_decide (ncores = 0)); [apply preserves_raise|].
  destruct (bool_decide (ncores = 1)); [by apply preserves_run_sequential|].
  apply preserves_bind; [apply preserves_run_tasks|]. intros. apply preserves_ret.
Qed.
End TaskFrame.

Section TaskSuccess.
Context {R : Type} (I : state → Prop) (tasks : list (M R)).
Hypothesis I_worker : ∀ t s, t ∈ tasks → I s → I (in_worker t s).1.
Hypothesis I_inproc : ∀ t s, t ∈ tasks → I s → I (t s).1.
Hypothesis I_returns : ∀ t s, t ∈ tasks → I s → succeeded (t s) = true.

Lemma run_tasks_succeeds completion : ∀ results s,
  I s → succeeded (run_tasks completion tasks results s) = true.
Proof.
  induction completion as [|k completion IH]; intros results s HI; simpl; [done|].
  destruct (tasks !! k) as [t|] eqn:Et; [|by apply IH].
  assert (t ∈ tasks) as Hin by (by eapply list_elem_of_lookup_2).
  specialize (I_worker t s Hin HI). specialize (I_returns t s Hin HI).
  unfold bind. unfold succeeded in I_returns. rewrite <- in_worker_result in I_returns.
  destruct (in_worker t s) as [s1 [e|r]]; [done|]. by apply IH.
Qed.

Lemma run_sequential_succeeds ts : ∀ s,
  ts ⊆ tasks → I s → succeeded (run_sequential ts s) = true.
Proof.
  induction ts as [|t ts IH]; intros s Hsub HI; simpl; [done|].
  assert (t ∈ tasks) as Hin by (apply Hsub; left).
  specialize (I_inproc t s Hin HI). specialize (I_returns t s Hin HI).
  unfold bind. unfold succeeded in I_returns.
  destruct (t s) as [s1 [e|r]]; [done|].
  specialize (IH s1 ltac:(intros x Hx; apply Hsub; by right) I_inproc).
  unfold succeeded in IH. destruct (run_sequential ts s1) as [s2 [e|rs]]; done.
Qed.

Lemma joblib_Parallel_succeeds completion ncores s :
  ncores ≠ 0 → I s → succeeded (joblib_Parallel completion ncores tasks s) = true.
Proof.
  intros Hn HI. unfold joblib_Parallel. rewrite bool_decide_false by done.
  destruct (bool_decide (ncores = 1)); [by apply run_sequential_succeeds|].
  pose proof (run_tasks_succeeds completion (replicate (length tasks) None) s HI) as H.
  unfold bind, succeeded in *. destruct (run_tasks _ _ _ s) as [s1 [e|r]]; done.
Qed.
End TaskSuccess.

Lemma log_for_each_add_log msgslist : ∀ s,
  for_each msgslist (λ msgs, modify (add_log msgs)) s
  = (foldl (λ st msgs, add_log msgs st) s msgslist, inr tt).
Proof.
  induction msgslist as [|m l IH]; intros s; simpl; [done|].
  unfold bind, modify. simpl. apply IH.
Qed.

Lemma log_foldl_add_log msgslist : ∀ s,
  log (foldl (λ st msgs, add_log msgs st) s msgslist) = log s ++ msgslist.
Proof.
  induction msgslist as [|m l IH]; intros s; simpl; [by rewrite app_nil_r|].
  rewrite IH. simpl. by rewrite <- app_assoc.
Qed.

Section Logging.
Context (I : state → Prop).
Hypothesis I_log : ∀ s msgs, I s → I (add_log msgs s).

Lemma parallel_log_blocks (task : string → M (list message)) files completion ncores s s' :
  (∀ f s, I s → I (in_worker (task f) s).1) →
  (∀ f s, I s → I (task f s).1) →
  (∀ f, preserves log (task f)) →
  completion ≡ₚ seq 0 (length files) → I s →
  parallel_log completion ncores (files, None) task s = (s', inr tt) →
  ∃ blocks, log s' = log s ++ blocks
            ∧ Forall2 (λ b f, returns_from I (task f) b) blocks files.
Proof.
  intros Hw Hp Hlog Hperm HI. unfold parallel_log. simpl.
  intros H. apply bind_inr in H as (msgslist & s1 & Hj & H).
  rewrite log_for_each_add_log in H. injection H as <-.
  exists msgslist. split.
  - rewrite log_foldl_add_log. f_equal.
    pose proof (preserves_joblib_Parallel log (task <$> files) ltac:(done)) as Hk.
    specialize (Hk ltac:(intros t Ht; apply list_elem_of_fmap in Ht as (f & -> & _); apply Hlog)
                  completion ncores s).
    by rewrite Hj in Hk.
  - assert (∀ t st, t ∈ task <$> files → I st → I (in_worker t st).1) as Hw'.
    { intros t st Ht. apply list_elem_of_fmap in Ht as (f & -> & _). apply Hw. }
    assert (∀ t st, t ∈ task <$> files → I st → I (t st).1) as Hp'.
    { intros t st Ht. apply list_elem_of_fmap in Ht as (f & -> & _). apply Hp. }
    assert (completion ≡ₚ seq 0 (length (task <$> files))) as Hperm'
      by (by rewrite length_fmap).
    destruct (joblib_Parallel_in_order I (task <$> files) Hw' Hp' completion ncores s s1
                msgslist Hperm' HI Hj) as [_ HF].
    apply Forall2_fmap_r in HF. exact HF.
Qed.

Lemma logging_loop (task : nat → string → M (list message)) files :
  (∀ i f s, I s → I (task i f s).1) →
  (∀ i f, preserves log (task i f)) →
  ∀ i s s1, I s →
    for_each_from i files (λ num f, let* msgs := task num f in modify (add_log msgs)) s
    = (s1, inr tt) →
    I s1 ∧ ∃ blocks,
      log s1 = log s ++ blocks ∧ length blocks = length files
      ∧ ∀ k b f, blocks !! k = Some b → files !! k = Some f →
          returns_from I (task (i + k)%nat f) b.
Proof.
  intros Hp Hlog. induction files as [|f files IH]; intros i s s1 HI Hrun; simpl in Hrun.
  - injection Hrun as <-. split; [done|]. exists []. rewrite app_nil_r. done.
  - apply bind_inr in Hrun as ([] & s2 & Hone & Hrun).
    apply bind_inr in Hone as (msgs & s3 & Ht & [= <-]).
    assert (I s3) as HI3 by (specialize (Hp i f s HI); by rewrite Ht in Hp).
    destruct (IH (S i) _ _ (I_log _ msgs HI3) Hrun) as (HI1 & blocks & Hl & Hlen & Hall).
    split; [done|]. exists (msgs :: blocks). split_and!.
    + rewrite Hl. simpl. pose proof (Hlog i f s) as Hk. rewrite Ht in Hk. simpl in Hk.
      rewrite Hk. by rewrite <- app_assoc.
    + simpl. by rewrite Hlen.
    + intros [|k] b f' Hb Hf; simpl in *.
      * injection Hb as <-. injection Hf as <-. rewrite Nat.add_0_r.
        exists s. split; [done|]. by rewrite Ht.
      * replace (i + S k)%nat with (S i + k)%nat by lia. by eapply Hall.
Qed.

Lemma logging_loop_succeeds (task : nat → string → M (list message)) files :
  (∀ i f s, I s → I (task i f s).1) →
  (∀ i f s, I s → succeeded (task i f s) = true) →
  ∀ i s, I s →
    succeeded (for_each_from i files
                 (λ num f, let* msgs := task num f in modify (add_log msgs)) s) = true.
Proof.
  intros Hp Hs. induction files as [|f files IH]; intros i s HI; simpl; [done|].
  specialize (Hp i f s HI). specialize (Hs i f s HI).
  unfold bind at 1 2. unfold succeeded in Hs. destruct (task i f s) as [s2 [e|msgs]]; [done|].
  unfold modify. simpl. apply IH. by apply I_log.
Qed.
End Logging.

Lemma for_each_as_from {A} (xs : list A) (body : A → M unit) i :
  for_each xs body = for_each_from i xs (λ _, body).
Proof. revert i. induction xs as [|x xs IH]; intros i; simpl; [done|]. by rewrite (IH (S i)). Qed.

Lemma for_iter_none (files : list string) body s :
  for_iter (files, None) body s = for_each files body s.
Proof.
  unfold for_iter, bind. simpl. by destruct (for_each files body s) as [s1 [e|[]]].
Qed.

Lemma for_iter_from_none i (files : list string) body s :
  for_iter_from i (files, None) body s = for_each_from i files body s.
Proof.
  unfold for_iter_from, bind. simpl. by destruct (for_each_from i files body s) as [s1 [e|[]]].
Qed.

Section ParallelTasks.

Context (C : collaborators).

Lemma keeps_log_ensure_dir d : preserves log (ensure_dir d).
Proof. unfold ensure_dir, os_makedirs, mkdir1. repeat preserve_step. Qed.

Lemma keeps_log_file_precompute f d t sk sp : preserves log (file_precompute C f d t sk sp).
Proof.
  unfold file_precompute, file_precompute_peaks_or_hashes, saver, write_file,
    wavfile2hashes, wavfile2peaks.
  repeat first [ apply keeps_log_ensure_dir | preserve_step ].
Qed.

Lemma keeps_log_file_match m f num : preserves log (file_match_to_msgs C m f num).
Proof. unfold file_match_to_msgs. repeat preserve_step. Qed.

Lemma file_match_querying a ht m f num s :
  querying a ht s →
  ∃ a', file_match_to_msgs C (Some m) f num s
        = (set_analyzer (Some (account C a' f)) (add_event (EvAnalyze f) s),
           inr (match_msgs C m (aparams a) ht f num))
        ∧ analyzer s = Some a' ∧ aparams a' = aparams a.
Proof.
  intros [(a' & Ha & Hp) Hh]. exists a'. split; [|done].
  unfold file_match_to_msgs, bind, the_analyzer, gets, modify, ret. rewrite Ha. simpl.
  rewrite Hh. simpl. by rewrite Hp.
Qed.

Lemma querying_file_match a ht m f num s :
  querying a ht s → querying a ht (file_match_to_msgs C (Some m) f num s).1.
Proof.
  intros HI. destruct (file_match_querying a ht m f num s HI) as (a' & -> & Ha & Hp).
  destruct HI as [_ Hh]. split; [|done]. exists (account C a' f). done.
Qed.

Lemma querying_in_worker {A} a ht (t : M A) s : querying a ht s → querying a ht (in_worker t s).1.
Proof. intros HI. exact HI. Qed.

Lemma querying_add_log a ht s msgs : querying a ht s → querying a ht (add_log msgs s).
Proof. intros HI. exact HI. Qed.

Lemma returns_file_match a ht m f num b :
  returns_from (querying a ht) (file_match_to_msgs C (Some m) f num) b →
  b = match_msgs C m (aparams a) ht f num.
Proof.
  intros (s & HI & Hr). destruct (file_match_querying a ht m f num s HI) as (a' & Heq & _).
  rewrite Heq in Hr. by injection Hr.
Qed.

Lemma do_cmd_multiproc_blocks I completion cmd files matcher outdir type sk sp ncores s s' :
  (∀ s msgs, I s → I (add_log msgs s)) →
  (cmd = "precompute" → ∀ f s, I s → I (file_precompute C f outdir type sk sp s).1) →
  (cmd = "match" → ∀ f num s, I s → I (file_match_to_msgs C matcher f num s).1) →
  (∀ A (t : M A) s, I s → I (in_worker t s).1) →
  cmd = "precompute" ∨ cmd = "match" →
  completion ≡ₚ seq 0 (length files) → I s →
  do_cmd_multiproc C completion cmd (files, None) matcher outdir type sk sp ncores s
  = (s', inr tt) →
  ∃ blocks, log s' = log s ++ blocks
            ∧ Forall2 (file_result C I cmd matcher outdir type sk sp) blocks files
            ∧ (cmd = "match" →
               Forall2 (λ b f, returns_from I (file_match_to_msgs C matcher f None) b)
                 blocks files).
Proof.
  intros Hl Hpre Hmat Hw [-> | ->] Hperm HI Hrun; unfold do_cmd_multiproc in Hrun;
    simpl in Hrun.
  - destruct (parallel_log_blocks I _ files completion ncores s s'
                (λ f st, Hw _ _ st) (Hpre eq_refl)
                (λ f, keeps_log_file_precompute f outdir type sk sp)
                Hperm HI Hrun) as (blocks & Hlog & HF).
    exists blocks. split; [done|]. split; [|done]. eapply Forall2_impl; [exact HF|]. done.
  - destruct (parallel_log_blocks I _ files completion ncores s s'
                (λ f st, Hw _ _ st) (λ f st, Hmat eq_refl f None st)
                (λ f, keeps_log_file_match matcher f None)
                Hperm HI Hrun) as (blocks & Hlog & HF).
    exists blocks. split; [done|]. split; [|done]. eapply Forall2_impl; [exact HF|].
    intros b f Hb. exists None. exact Hb.
Qed.

Lemma do_cmd_blocks I cmd files matcher outdir type sk sp s s1 :
  (∀ s msgs, I s → I (add_log msgs s)) →
  (cmd = "precompute" → ∀ f s, I s → I (file_precompute C f outdir type sk sp s).1) →
  (cmd = "match" → ∀ f num s, I s → I (file_match_to_msgs C matcher f num s).1) →
  cmd = "precompute" ∨ cmd = "match" → I s →
  do_cmd C cmd (files, None) matcher outdir type sk sp s = (s1, inr tt) →
  ∃ blocks, log s1 = log s ++ blocks ∧ length blocks = length files
            ∧ Forall2 (file_result C I cmd matcher outdir type sk sp) blocks files
            ∧ (cmd = "match" →
               ∀ k b f, blocks !! k = Some b → files !! k = Some f →
                 returns_from I (file_match_to_msgs C matcher f (Some k)) b).
Proof.
  intros Hl Hpre Hmat [-> | ->] HI Hrun; unfold do_cmd in Hrun; simpl in Hrun.
  - rewrite for_iter_none, (for_each_as_from _ _ 0%nat) in Hrun.
    destruct (logging_loop I Hl (λ _ f, file_precompute C f outdir type sk sp) files
                (λ _, Hpre eq_refl) (λ _ f, keeps_log_file_precompute f outdir type sk sp)
                0%nat s s1 HI Hrun) as (_ & blocks & Hlog & Hlen & Hall).
    exists blocks. split_and!; try done.
    apply Forall2_same_length_lookup. split; [done|]. intros k b f Hb Hf.
    by apply (Hall k b f).
  - rewrite for_iter_from_none in Hrun.
    destruct (logging_loop I Hl (λ num f, file_match_to_msgs C matcher f (Some num)) files
                (λ num f, Hmat eq_refl f (Some num))
                (λ num f, keeps_log_file_match matcher f (Some num))
                0%nat s s1 HI Hrun) as (_ & blocks & Hlog & Hlen & Hall).
    exists blocks. split_and!; try done.
    + apply Forall2_same_length_lookup. split; [done|]. intros k b f Hb Hf.
      exists (Some k). by apply (Hall k b f).
Qed.

(** C6: over the same files, the multi-process executor and the
    single-process executor log one block per file for precompute and for
    match, and in both logs block [i] is the result of the operation on file
    [i] of the input, whatever the order in which the workers complete. For
    match the blocks are the matcher's reports on the files in input order,
    unnumbered in the multi-process log and numbered by position in the
    single-process log, and both runs complete. *)
Theorem parallel_log_in_submission_order completion cmd files matcher outdir type sk sp
    ncores s :
  cmd = "precompute" ∨ cmd = "match" →
  completion ≡ₚ seq 0 (length files) →
  (∀ s',
     do_cmd_multiproc C completion cmd (files, None) matcher outdir type sk sp ncores s
     = (s', inr tt) →
     ∃ blocks, log s' = log s ++ blocks
               ∧ Forall2 (file_result C (λ _, True) cmd matcher outdir type sk sp)
                   blocks files)
  ∧ (∀ s1,
       do_cmd C cmd (files, None) matcher outdir type sk sp s = (s1, inr tt) →
       ∃ blocks, log s1 = log s ++ blocks
                 ∧ Forall2 (file_result C (λ _, True) cmd matcher outdir type sk sp)
                     blocks files)
  ∧ (∀ a ht m,
       cmd = "match" → matcher = Some m →
       analyzer s = Some a → hash_tab s = Some ht → ncores ≠ 0 →
       ∃ s' s1,
         do_cmd_multiproc C completion cmd (files, None) matcher outdir type sk sp ncores s
         = (s', inr tt)
         ∧ log s' = log s ++ ((λ f, match_msgs C m (aparams a) ht f None) <$> files)
         ∧ do_cmd C cmd (files, None) matcher outdir type sk sp s = (s1, inr tt)
         ∧ log s1
           = log s ++ imap (λ num f, match_msgs C m (aparams a) ht f (Some num)) files).
Proof.
  intros Hcmd Hperm. split_and!.
  - intros s' Hrun.
    destruct (do_cmd_multiproc_blocks (λ _, True) completion cmd files matcher outdir type
                sk sp ncores s s') as (blocks & ? & ? & _); try done.
    by exists blocks.
  - intros s1 Hrun.
    destruct (do_cmd_blocks (λ _, True) cmd files matcher outdir type sk sp s s1)
      as (blocks & ? & ? & ? & _); try done. by exists blocks.
  - intros a ht m -> -> Ha Hh Hn.
    assert (querying a ht s) as HI by (split; [by exists a|done]).
    (* both runs complete *)
    assert (succeeded (do_cmd_multiproc C completion "match" (files, None) (Some m) outdir
                         type sk sp ncores s) = true) as Hs1.
    { unfold do_cmd_multiproc, parallel_log. simpl.
      pose proof (joblib_Parallel_succeeds (querying a ht)
                    ((λ f, matcher_file_match_to_msgs C (Some m) f) <$> files)) as Hj.
      specialize (Hj ltac:(intros t st _; apply querying_in_worker)).
      specialize (Hj ltac:(intros t st Ht; apply list_elem_of_fmap in Ht as (f & -> & _);
                           apply querying_file_match)).
      specialize (Hj ltac:(intros t st Ht HI'; apply list_elem_of_fmap in Ht as (f & -> & _);
                           destruct (file_match_querying a ht m f None st HI') as (a' & Heq & _);
                           unfold matcher_file_match_to_msgs, succeeded; by rewrite Heq)).
      specialize (Hj completion ncores s Hn HI).
      unfold bind, succeeded in *.
      destruct (joblib_Parallel _ _ _ s) as [s2 [e|out]]; [done|].
      by rewrite log_for_each_add_log. }
    assert (succeeded (do_cmd C "match" (files, None) (Some m) outdir type sk sp s) = true)
      as Hs2.
    { unfold do_cmd. simpl. rewrite for_iter_from_none.
      apply (logging_loop_succeeds (querying a ht) (querying_add_log a ht)
               (λ num f, file_match_to_msgs C (Some m) f (Some num))); [| |done].
      - intros i f st. apply querying_file_match.
      - intros i f st HI'.
        destruct (file_match_querying a ht m f (Some i) st HI') as (a' & Heq & _).
        unfold succeeded. by rewrite Heq. }
    unfold succeeded in Hs1, Hs2.
    destruct (do_cmd_multiproc _ _ _ _ _ _ _ _ _ _ s) as [s' [e|[]]] eqn:E1; [done|].
    destruct (do_cmd _ _ _ _ _ _ _ _ s) as [s1 [e|[]]] eqn:E2; [done|].
    exists s', s1. split; [done|].
    destruct (do_cmd_multiproc_blocks (querying a ht) completion "match" files (Some m)
                outdir type sk sp ncores s s')
      as (blocks & Hlog & _ & HF); try done.
    { intros _ f num st. apply querying_file_match. }
    destruct (do_cmd_blocks (querying a ht) "match" files (Some m) outdir type sk sp s s1)
      as (blocks1 & Hlog1 & Hlen1 & _ & Hpos); try done.
    { intros _ f num st. apply querying_file_match. }
    split_and!; [|done|].
    + rewrite Hlog. f_equal. specialize (HF eq_refl). clear -HF.
      induction HF as [|b f blocks' files' Hb _ IH]; [done|].
      rewrite fmap_cons. f_equal; [|exact IH]. by apply returns_file_match.
    + rewrite Hlog1. f_equal. apply list_eq. intros k. rewrite list_lookup_imap.
      destruct (files !! k) as [f|] eqn:Ef; simpl.
      * destruct (lookup_lt_is_Some_2 blocks1 k) as [b Hb].
        { rewrite Hlen1. by eapply lookup_lt_Some. }
        rewrite Hb. f_equal. apply returns_file_match. by apply (Hpos eq_refl k b f).
      * apply lookup_ge_None. rewrite Hlen1. by apply lookup_ge_None.
Qed.

End ParallelTasks.

Lemma parallel_log_in_submission_order_witness :
  ∃ s' s1,
    do_cmd_multiproc sample_collaborators [1; 0]%nat "match" (["q1.wav"; "q2.wav"], None)
      (Some sample_matcher) "." "hashes" false None 2 sample_state = (s', inr tt)
    ∧ log s' = log sample_state ++
               ((λ f, match_msgs sample_collaborators sample_matcher
                        (aparams sample_analyzer) sample_index f None)
                  <$> ["q1.wav"; "q2.wav"])
    ∧ do_cmd sample_collaborators "match" (["q1.wav"; "q2.wav"], None)
        (Some sample_matcher) "." "hashes" false None sample_state = (s1, inr tt)
    ∧ log s1 = log sample_state ++
               imap (λ num f, match_msgs sample_collaborators sample_matcher
                                (aparams sample_analyzer) sample_index f (Some num))
                 ["q1.wav"; "q2.wav"].
Proof.
  apply (proj2 (proj2 (parallel_log_in_submission_order sample_collaborators [1; 0]%nat
                         "match" ["q1.wav"; "q2.wav"] (Some sample_matcher) "." "hashes"
                         false None 2 sample_state (or_intror eq_refl)
                         (perm_swap 0%nat 1%nat [])))
           sample_analyzer sample_index sample_matcher eq_refl eq_refl eq_refl eq_refl).
  discriminate.
Defined.

(** ** The build path as communicating processes *)

Section Interleavings.
Context (C : collaborators) (a : Analyzer).
Context (filelists : list (list string)) (hb d mt : Z) (h0 : HashTable).

Local Abbreviation inv := (reachable_inv C a filelists hb d mt h0).
Local Abbreviation table_of l := (make_ht_from_list C a l hb d mt).

Lemma gather_events_snoc i n :
  gather_events i (S n) = gather_events i n ++ [EvRecv (i + n); EvMerge (i + n); EvJoin (i + n)]%nat.
Proof.
  revert i. induction n as [|n IH]; intros i.
  - simpl. by rewrite Nat.add_0_r.
  - change (gather_events i (S (S n)))
      with (EvRecv i :: EvMerge i :: EvJoin i :: gather_events (S i) (S n)).
    rewrite (IH (S i)). simpl. by replace (i + S n)%nat with (S (i + n)) by lia.
Qed.

Lemma merged_in_order_snoc c l h :
  filelists !! c = Some l →
  merged_in_order C a (take (S c) filelists) hb d mt h
  = merge (table_of l) (merged_in_order C a (take c filelists) hb d mt h).
Proof.
  intros Hl. rewrite (take_S_r _ _ _ Hl). unfold merged_in_order.
  by rewrite foldl_app.
Qed.

Lemma make_ht_snoc done_ f :
  table_of (done_ ++ [f]) = store f (sound_hashes C (aparams a) f) (table_of done_).
Proof. unfold make_ht_from_list. by rewrite foldl_app. Qed.

Lemma inv_launched : inv (launched C filelists hb d mt h0).
Proof.
  unfold reachable_inv, launched. simpl. split_and!.
  - by rewrite length_fmap.
  - intros i l w Hl Hw. rewrite list_lookup_fmap, Hl in Hw. injection Hw as <-.
    simpl. exists []. done.
  - lia.
  - done.
  - done.
  - intros i w Hi. lia.
  - intros i w _ Hw. rewrite list_lookup_fmap in Hw.
    destruct (filelists !! i); [|done]. by injection Hw as <-.
Qed.

Lemma lookup_insert_cases (ws : list wstate) i w j w' :
  <[i := w]> ws !! j = Some w' → (j = i ∧ w' = w) ∨ (j ≠ i ∧ ws !! j = Some w').
Proof.
  intros H. destruct (decide (j = i)) as [->|Hne].
  - left. split; [done|]. pose proof (lookup_lt_Some _ _ _ H) as Hlt.
    rewrite length_insert in Hlt. rewrite list_lookup_insert_eq in H by done. congruence.
  - right. split; [done|]. by rewrite list_lookup_insert_ne in H.
Qed.

Lemma inv_worker_update ws p h tr lg i w w' :
  inv (mkSys ws p h tr lg) →
  ws !! i = Some w →
  (∀ l, worker_ok C a hb d mt l w → worker_ok C a hb d mt l w') →
  (alive w → alive w') → (gone w → gone w') → (w = WExited → w' = WExited) →
  inv (mkSys (<[i := w']> ws) p h tr lg).
Proof.
  intros (Hlen & Hok & Hpc) Hw Hok' Hal Hgo Hex. unfold reachable_inv in *. simpl in *.
  split_and!.
  - by rewrite length_insert.
  - intros j l w0 Hl Hw0. apply lookup_insert_cases in Hw0 as [[-> ->]|[_ Hw0]]; eauto.
  - destruct p as [c|c t|c]; simpl in *.
    + destruct Hpc as (? & ? & ? & Hbefore & Hafter). split_and!; try done.
      * intros j w0 Hj Hw0. apply lookup_insert_cases in Hw0 as [[-> ->]|[_ Hw0]]; eauto.
      * intros j w0 Hj Hw0. apply lookup_insert_cases in Hw0 as [[-> ->]|[_ Hw0]]; eauto.
    + destruct Hpc as (? & ? & ? & ? & Hbefore & Hat & Hafter). split_and!; try done.
      * intros j w0 Hj Hw0. apply lookup_insert_cases in Hw0 as [[-> ->]|[_ Hw0]]; eauto.
      * intros w0 Hw0. apply lookup_insert_cases in Hw0 as [[-> ->]|[_ Hw0]]; eauto.
      * intros j w0 Hj Hw0. apply lookup_insert_cases in Hw0 as [[-> ->]|[_ Hw0]]; eauto.
    + destruct Hpc as (? & ? & ? & Hbefore & Hat & Hafter). split_and!; try done.
      * intros j w0 Hj Hw0. apply lookup_insert_cases in Hw0 as [[-> ->]|[_ Hw0]]; eauto.
      * intros w0 Hw0. apply lookup_insert_cases in Hw0 as [[-> ->]|[_ Hw0]]; eauto.
      * intros j w0 Hj Hw0. apply lookup_insert_cases in Hw0 as [[-> ->]|[_ Hw0]]; eauto.
Qed.

Lemma inv_step s s' : inv s → step C a s s' → inv s'.
Proof.
  intros Hinv Hstep. destruct Hstep as
    [i filename todo ht ws p h tr lg Hw
    |i ht ws p h tr lg Hw
    |i ws p h tr lg Hw
    |c t ws h tr lg Hw
    |c t ws h tr lg
    |c ws h tr lg Hw].
  - eapply inv_worker_update; [exact Hinv|exact Hw|..]; try done.
    intros l (done_ & -> & ->). exists (done_ ++ [filename]).
    split; [by rewrite <- app_assoc|]. symmetry. apply make_ht_snoc.
  - eapply inv_worker_update; [exact Hinv|exact Hw|..]; try done.
    intros l (done_ & -> & ->). simpl. by rewrite app_nil_r.
  - eapply inv_worker_update; [exact Hinv|exact Hw|..]; done.
  - destruct Hinv as (Hlen & Hok & Hc & Hprim & Htr & Hbefore & Hafter).
    unfold reachable_inv in *. simpl in *.
    assert (c < length filelists)%nat as Hlt.
    { rewrite <- Hlen. by eapply lookup_lt_Some. }
    destruct (lookup_lt_is_Some_2 filelists c Hlt) as [l Hl].
    split_and!; try done.
    + by rewrite length_insert.
    + intros j l0 w0 Hl0 Hw0. apply lookup_insert_cases in Hw0 as [[-> ->]|[_ Hw0]]; eauto.
      done.
    + rewrite (list_lookup_total_correct _ _ _ Hl). exact (Hok c l _ Hl Hw).
    + by rewrite Htr.
    + intros j w0 Hj Hw0. apply lookup_insert_cases in Hw0 as [[-> ->]|[_ Hw0]]; [lia|eauto].
    + intros w0 Hw0. apply lookup_insert_cases in Hw0 as [[_ ->]|[? _]]; done.
    + intros j w0 Hj Hw0. apply lookup_insert_cases in Hw0 as [[-> ->]|[_ Hw0]]; [lia|].
      apply (Hafter j); [lia|done].
  - destruct Hinv as (Hlen & Hok & Hc & -> & Hprim & Htr & Hbefore & Hat & Hafter).
    unfold reachable_inv in *. simpl in *.
    destruct (lookup_lt_is_Some_2 filelists c Hc) as [l Hl].
    split_and!; try done.
    + rewrite (merged_in_order_snoc c l _ Hl), Hprim.
      by rewrite (list_lookup_total_correct _ _ _ Hl).
    + rewrite Htr, <- app_assoc. done.
  - destruct Hinv as (Hlen & Hok & Hc & Hprim & Htr & Hbefore & Hat & Hafter).
    unfold reachable_inv in *. simpl in *.
    split_and!; try done; try lia.
    + change (EvRecv 0%nat :: EvMerge 0%nat :: EvJoin 0%nat :: gather_events 1 c)
        with (gather_events 0 (S c)).
      rewrite Htr, (gather_events_snoc 0 c), <- app_assoc. done.
    + intros j w0 Hj Hw0. destruct (decide (j = c)) as [->|Hne].
      * congruence.
      * apply (Hbefore j); [lia|done].
Qed.

Lemma inv_reachable s : rtc (step C a) (launched C filelists hb d mt h0) s → inv s.
Proof.
  revert s. apply rtc_ind_r.
  - apply inv_launched.
  - intros y z _ Hstep IH. by eapply inv_step.
Qed.

(** When [multiproc_add] returns, every worker has exited, the primary
    index holds the workers' tables merged in launch order, and the
    orchestrator has received, merged and joined core after core. *)
Lemma returned_state s :
  inv s → returned s →
  primary s = merged_in_order C a filelists hb d mt h0
  ∧ strace s = gather_events 0 (length filelists)
  ∧ Forall (λ w, w = WExited) (workers s).
Proof.
  intros (Hlen & Hok & Hpc) Hret. unfold returned in Hret. rewrite Hret in Hpc.
  destruct Hpc as (_ & Hprim & Htr & Hbefore & _). rewrite Hlen in *.
  rewrite firstn_all in Hprim. split_and!; try done.
  apply Forall_lookup. intros i w Hw. apply (Hbefore i); [|done].
  rewrite <- Hlen. by eapply lookup_lt_Some.
Qed.

(** The processes never get stuck before [multiproc_add] returns. *)
Lemma processes_progress s : inv s → ¬ returned s → ∃ s', step C a s s'.
Proof.
  destruct s as [ws p h tr lg]. intros (Hlen & Hok & Hpc) Hnot.
  unfold returned in Hnot. simpl in *.
  destruct p as [c|c t|c].
  - destruct Hpc as (Hc & _ & _ & _ & Hafter).
    assert (c < length ws)%nat as Hlt.
    { destruct (decide (c = length ws)) as [->|]; [done|lia]. }
    destruct (lookup_lt_is_Some_2 ws c Hlt) as [w Hw].
    pose proof (Hafter c w ltac:(lia) Hw) as Hal.
    destruct w as [[|f todo] ht|ht| |]; try done.
    + eexists. by eapply step_send.
    + eexists. by eapply step_store.
    + eexists. by eapply step_recv.
  - eexists. apply step_merge.
  - destruct Hpc as (Hc & _ & _ & _ & Hat & _).
    destruct (lookup_lt_is_Some_2 ws c ltac:(lia)) as [w Hw].
    pose proof (Hat w Hw) as Hgo.
    destruct w as [todo ht|ht| |]; try done.
    + eexists. by eapply step_exit.
    + eexists. by eapply step_join.
Qed.

Lemma sum_wsize_insert (ws : list wstate) i w w' :
  ws !! i = Some w → (wsize w' < wsize w)%nat →
  (sum_list (wsize <$> <[i := w']> ws) < sum_list (wsize <$> ws))%nat.
Proof.
  revert i. induction ws as [|x ws IH]; intros i Hw Hlt; [done|].
  destruct i as [|i]; csimpl in *.
  - injection Hw as ->. lia.
  - specialize (IH i Hw Hlt). lia.
Qed.

(** Every step brings the processes closer to the end. *)
Lemma step_decreases s s' : inv s → step C a s s' → (measure s' < measure s)%nat.
Proof.
  intros Hinv Hstep. destruct Hstep as
    [i filename todo ht ws p h tr lg Hw
    |i ht ws p h tr lg Hw
    |i ws p h tr lg Hw
    |c t ws h tr lg Hw
    |c t ws h tr lg
    |c ws h tr lg Hw]; unfold measure; simpl; rewrite ?length_insert.
  - pose proof (sum_wsize_insert ws i _ (WBusy todo (store filename (sound_hashes C (aparams a) filename) ht)) Hw ltac:(simpl; lia)).
    lia.
  - pose proof (sum_wsize_insert ws i _ (WSent ht) Hw ltac:(simpl; lia)). lia.
  - pose proof (sum_wsize_insert ws i _ WExited Hw ltac:(simpl; lia)). lia.
  - pose proof (sum_wsize_insert ws c _ WExiting Hw ltac:(simpl; lia)). lia.
  - destruct Hinv as (Hlen & _ & Hc & _). simpl in *. lia.
  - destruct Hinv as (Hlen & _ & Hc & _). simpl in *. lia.
Qed.

Lemma returned_dec s : returned s ∨ ¬ returned s.
Proof.
  unfold returned. destruct (pc s) as [c|c t|c]; try (right; discriminate).
  destruct (decide (c = length (workers s))) as [->|Hne]; [by left|].
  right. intros [= ?]. done.
Qed.

(** From every state the processes reach, [multiproc_add] goes on to
    return. *)
Lemma eventually_returns s : inv s → ∃ s', rtc (step C a) s s' ∧ returned s'.
Proof.
  remember (measure s) as k eqn:Hk. revert s Hk.
  induction k as [k IH] using lt_wf_ind. intros s -> Hinv.
  destruct (returned_dec s) as [Hret|Hnot].
  - exists s. split; [apply rtc_refl|done].
  - destruct (processes_progress s Hinv Hnot) as [s1 Hstep].
    destruct (IH (measure s1) (step_decreases s s1 Hinv Hstep) s1 eq_refl
                (inv_step s s1 Hinv Hstep)) as (s' & Hr & Hret).
    exists s'. split; [|done]. by eapply rtc_l.
Qed.
End Interleavings.

Section Gather.
Context (C : collaborators).

(** C7: in every interleaving of the orchestrator of [multiproc_add] with
    its workers, the orchestrator receives, merges and joins core after core
    in launch order, one merge at a time; when it returns every worker has
    exited, and the primary index is the one the workers' tables give when
    merged in launch order, which is what [multiproc_add] computes: the same
    in every run over the same files and number of cores. The processes never
    get stuck, and every run returns. *)
Theorem build_path_gathers_in_launch_order files ncores st a ht s :
  1 ≤ ncores →
  analyzer st = Some a → hash_tab st = Some ht → 0 ≤ maxtimebits ht →
  rtc (step C a)
    (launched C (round_robin (Z.to_nat ncores) files) (hashbits ht) (depth ht)
       (1 ≪ maxtimebits ht) ht) s →
  (returned s →
     Some (primary s) = hash_tab (multiproc_add C (files, None) ncores st).1
     ∧ strace s = gather_events 0 (Z.to_nat ncores)
     ∧ events (multiproc_add C (files, None) ncores st).1
       = events st ++ (EvStart <$> seq 0 (Z.to_nat ncores)) ++ strace s
     ∧ Forall (λ w, w = WExited) (workers s))
  ∧ (¬ returned s → ∃ s', step C a s s')
  ∧ (∀ s', step C a s s' → (measure s' < measure s)%nat)
  ∧ ∃ s', rtc (step C a) s s' ∧ returned s'.
Proof.
  intros Hn Ha Hh Hm Hr.
  pose proof (inv_reachable C a _ _ _ _ _ s Hr) as Hinv.
  split_and!.
  - intros Hret.
    destruct (returned_state C a _ _ _ _ _ s Hinv Hret) as (Hprim & Htr & Hall).
    rewrite round_robin_length in Htr.
    destruct (multiproc_add_spec C files ncores st a ht Hn Ha Hh Hm)
      as (st' & -> & Hh' & _ & _ & _ & _ & Hev).
    simpl. rewrite Hh', Hev, Hprim, Htr. done.
  - intros Hnot. exact (processes_progress C a _ _ _ _ _ s Hinv Hnot).
  - intros s' Hstep. exact (step_decreases C a _ _ _ _ _ s s' Hinv Hstep).
  - exact (eventually_returns C a _ _ _ _ _ s Hinv).
Qed.
End Gather.

Lemma build_path_gathers_in_launch_order_witness :
  ∃ s', rtc (step sample_collaborators sample_analyzer)
          (launched sample_collaborators (round_robin (Z.to_nat 2) ["a.wav"; "b.wav"; "c.wav"])
             (hashbits sample_index) (depth sample_index)
             (1 ≪ maxtimebits sample_index) sample_index) s'
        ∧ returned s'.
Proof.
  apply (build_path_gathers_in_launch_order sample_collaborators ["a.wav"; "b.wav"; "c.wav"] 2
           sample_state sample_analyzer sample_index _
           ltac:(lia) eq_refl eq_refl ltac:(vm_compute; discriminate) (rtc_refl _ _)).
Defined.

(** * Further properties of the code

    Properties of the functions of [audfprint.py] and [audfprint-gui.py]
    beyond those the specification states. *)

(** ** Strings and paths *)

Lemma chars_text l : chars (text l) = l.
Proof. apply String.list_ascii_of_string_of_list_ascii. Qed.

Lemma text_chars s : text (chars s) = s.
Proof. apply String.string_of_list_ascii_of_string. Qed.

Lemma chars_app a b : chars (a +:+ b) = chars a ++ chars b.
Proof. induction a as [|x a IH]; simpl; [done|]. by rewrite <- IH. Qed.

Lemma text_app a b : text (a ++ b) = text a +:+ text b.
Proof. induction a as [|x a IH]; simpl; [done|]. by rewrite IH. Qed.

Lemma split_on_not_nil c s : split_on c s ≠ [].
Proof.
  destruct s as [|x r]; simpl; [done|].
  destruct (decide (x = c)); [done|]. by destruct (split_on c r).
Qed.

Lemma join_split c s : join_with c (split_on c s) = s.
Proof.
  induction s as [|x r IH]; simpl; [done|].
  pose proof (split_on_not_nil c r) as Hne.
  destruct (decide (x = c)) as [->|Hx].
  - destruct (split_on c r) as [|h t]; [done|]. simpl in *. by rewrite IH.
  - destruct (split_on c r) as [|h t]; [done|].
    destruct t as [|h' t]; simpl in *; by rewrite <- IH.
Qed.

Lemma split_on_fields c s : Forall (λ f, c ∉ f) (split_on c s).
Proof.
  induction s as [|x r IH]; simpl.
  - repeat constructor. apply not_elem_of_nil.
  - destruct (decide (x = c)) as [->|Hx].
    + constructor; [apply not_elem_of_nil|done].
    + destruct (split_on c r) as [|h t].
      * repeat constructor. intros [?|?%elem_of_nil]%elem_of_cons; done.
      * inversion_clear IH. constructor; [|done].
        intros [?|?]%elem_of_cons; done.
Qed.

Lemma split_on_free c s : c ∉ s → split_on c s = [s].
Proof.
  induction s as [|x r IH]; simpl; [done|]. intros Hc.
  apply not_elem_of_cons in Hc as [Hx Hr].
  destruct (decide (x = c)); [done|]. by rewrite IH.
Qed.

Lemma split_on_app c a b : split_on c (a ++ c :: b) = split_on c a ++ split_on c b.
Proof.
  induction a as [|x a IH]; simpl.
  - by destruct (decide (c = c)).
  - destruct (decide (x = c)); [by rewrite IH|]. rewrite IH.
    pose proof (split_on_not_nil c a). by destruct (split_on c a).
Qed.

Lemma split_join c parts :
  parts ≠ [] → Forall (λ f, c ∉ f) parts → split_on c (join_with c parts) = parts.
Proof.
  induction parts as [|p rest IH]; [done|]. intros _ Hall.
  inversion_clear Hall as [|? ? Hp Hrest].
  destruct rest as [|q rest]; simpl.
  - by apply split_on_free.
  - rewrite split_on_app, (split_on_free _ _ Hp). simpl. f_equal.
    by apply IH.
Qed.

Lemma kept_filter (comps : list (list ascii)) :
  Forall kept_component
    (filter (λ comp, comp ≠ chars "." ∧ comp ≠ chars ".." ∧ comp ≠ chars "") comps).
Proof. apply list.Forall_forall. intros x [? ?]%list_elem_of_filter. done. Qed.

Lemma relname_chars t :
  chars (relname_of t)
  = join_with slash
      (filter (λ comp, comp ≠ chars "." ∧ comp ≠ chars ".." ∧ comp ≠ chars "")
         (split_on slash (chars t))).
Proof. unfold relname_of. by rewrite chars_text. Qed.

Lemma relname_split t :
  relname_of t ≠ "" →
  split_on slash (chars (relname_of t))
  = filter (λ comp, comp ≠ chars "." ∧ comp ≠ chars ".." ∧ comp ≠ chars "")
      (split_on slash (chars t)).
Proof.
  intros Hne. rewrite relname_chars. apply split_join.
  - intros E. apply Hne. unfold relname_of. by rewrite E.
  - apply list.Forall_forall. intros x [_ Hx]%list_elem_of_filter.
    by apply (proj1 (list.Forall_forall _ _) (split_on_fields slash (chars t))).
Qed.

Lemma starts_with_slash_split s :
  starts_with [slash] s = true → ∃ t, split_on slash s = [] :: t.
Proof.
  destruct s as [|x r]; simpl; [done|].
  rewrite andb_true_r. intros <-%bool_decide_eq_true.
  destruct (decide (slash = slash)); [|done]. by eexists.
Qed.

(** X1: the relative name [file_precompute_peaks_or_hashes] forms from a
    file name (lines 77-78) is empty or made of components none of which is
    empty, [.] or [..]; it never starts with a slash; and forming the
    relative name of a relative name changes nothing. *)
Theorem relname_components_kept t :
  (relname_of t = "" ∨ Forall kept_component (split_on slash (chars (relname_of t))))
  ∧ starts_with [slash] (chars (relname_of t)) = false
  ∧ relname_of (relname_of t) = relname_of t.
Proof.
  assert (relname_of t = "" ∨ Forall kept_component (split_on slash (chars (relname_of t)))) as H.
  { destruct (decide (relname_of t = "")) as [|Hne]; [by left|right].
    rewrite (relname_split _ Hne). apply kept_filter. }
  split; [done|]. split.
  - destruct H as [->|H]; [done|].
    destruct (starts_with [slash] _) eqn:E; [|done].
    apply starts_with_slash_split in E as [r E]. rewrite E in H.
    inversion_clear H as [|? ? [_ [_ Hk]] _]. done.
  - destruct H as [E|H]; [by rewrite E|].
    destruct (decide (relname_of t = "")) as [E|Hne]; [by rewrite E|].
    unfold relname_of at 1. rewrite (relname_split _ Hne).
    rewrite list_filter_filter.
    rewrite (list_filter_iff _ (λ comp, comp ≠ chars "." ∧ comp ≠ chars ".." ∧ comp ≠ chars "")) by tauto.
    done.
Qed.

Lemma after_last_spec c s :
  (after_last c s ≤ length s)%nat
  ∧ (c ∉ drop (after_last c s) s)
  ∧ (after_last c s = 0%nat ∨ ∃ pre, take (after_last c s) s = pre ++ [c]).
Proof.
  induction s as [|x r (Hle & Hfree & Hpre)]; simpl.
  - split; [done|]. split; [apply not_elem_of_nil|by left].
  - destruct (after_last c r) as [|k] eqn:E.
    + destruct (decide (x = c)) as [->|Hx]; simpl.
      * split; [lia|]. split; [done|]. right. by exists [].
      * split; [lia|]. split; [|by left].
        intros [?|?]%elem_of_cons; done.
    + simpl. split; [lia|]. split; [done|]. right.
      destruct Hpre as [|[pre Hpre]]; [done|]. exists (x :: pre). simpl in *.
      by rewrite Hpre.
Qed.

Lemma split_on_last c s :
  ∃ init, ∀ x, c ∉ x → split_on c (take (after_last c s) s ++ x) = init ++ [x].
Proof.
  destruct (after_last_spec c s) as (_ & _ & [->|[pre ->]]).
  - exists []. intros x Hx. simpl. by apply split_on_free.
  - exists (split_on c pre). intros x Hx.
    rewrite <- app_assoc. simpl. by rewrite split_on_app, (split_on_free _ _ Hx).
Qed.

Lemma not_all_dots x :
  forallb (λ y, bool_decide (y = dot)) x = false → ∃ y, y ∈ x ∧ y ≠ dot.
Proof.
  induction x as [|a x IH]; simpl; [done|].
  destruct (bool_decide (a = dot)) eqn:E; simpl.
  - intros (y & ? & ?)%IH. exists y. split; [by right|done].
  - intros _. exists a. split; [by left|]. by apply bool_decide_eq_false in E.
Qed.

Lemma nondot_kept x : (∃ y, y ∈ x ∧ y ≠ dot) → kept_component x.
Proof.
  intros (y & Hy & Hdot). split_and!; intros ->.
  - apply list_elem_of_singleton in Hy. done.
  - apply elem_of_cons in Hy as [->|Hy%list_elem_of_singleton]; done.
  - by apply elem_of_nil in Hy.
Qed.

Lemma kept_app x e : kept_component x → kept_component (x ++ e).
Proof.
  intros (H1 & H2 & H3). split_and!; intros E.
  - destruct x as [|a [|b x]]; [done| |done]. injection E as -> _. done.
  - destruct x as [|a [|b [|c x]]]; [done| | |done].
    + injection E as -> _. done.
    + injection E as -> -> _. done.
  - by apply app_eq_nil in E as [-> _].
Qed.

(** The components of a path and of the root [splitext] gives for it. *)
Lemma splitext_root_split p :
  ∃ init lastc x,
    split_on slash (chars p) = init ++ [lastc]
    ∧ (x = lastc ∨ ∃ y, y ∈ x ∧ y ≠ dot)
    ∧ ∀ e, slash ∉ e → split_on slash (chars (path_splitext p).1 ++ e) = init ++ [x ++ e].
Proof.
  destruct (split_on_last slash (chars p)) as [init Hinit].
  destruct (after_last_spec slash (chars p)) as (Hle & Hfree & _).
  set (sep := after_last slash (chars p)) in *.
  assert (split_on slash (chars p) = init ++ [drop sep (chars p)]) as Hs.
  { rewrite <- (take_drop sep (chars p)) at 1. by apply Hinit. }
  unfold path_splitext. fold sep.
  set (d := after_last dot (chars p)).
  destruct (bool_decide (sep < d)%nat) eqn:Elt; simpl.
  - destruct (forallb _ _) eqn:Edots; simpl.
    + exists init, (drop sep (chars p)), (drop sep (chars p)).
      split; [done|]. split; [by left|]. intros e He.
      rewrite <- (take_drop sep (chars p)) at 1. rewrite <- app_assoc. apply Hinit.
      intros [?|?]%elem_of_app; done.
    + apply bool_decide_eq_true in Elt.
      exists init, (drop sep (chars p)), (take (d - 1 - sep) (drop sep (chars p))).
      split; [done|]. split; [right; by apply not_all_dots|]. intros e He.
      rewrite chars_text.
      assert (take (d - 1) (chars p)
              = take sep (chars p) ++ take (d - 1 - sep) (drop sep (chars p))) as ->.
      { rewrite take_take_drop. f_equal. lia. }
      rewrite <- app_assoc. apply Hinit.
      intros [?%subseteq_take|?]%elem_of_app; done.
  - exists init, (drop sep (chars p)), (drop sep (chars p)).
    split; [done|]. split; [by left|]. intros e He.
    rewrite <- (take_drop sep (chars p)) at 1. rewrite <- app_assoc. apply Hinit.
    intros [?|?]%elem_of_app; done.
Qed.

Lemma starts_with_app a b : starts_with a (a ++ b) = true.
Proof. induction a as [|x a IH]; simpl; [done|]. by rewrite bool_decide_true. Qed.

Lemma path_join_prefix a b :
  starts_with [slash] (chars b) = false →
  starts_with (chars a) (chars (path_join a b)) = true.
Proof.
  intros Hb. unfold path_join. rewrite Hb.
  destruct (_ || _); rewrite !chars_app; apply starts_with_app.
Qed.

Section ArtifactNames.

Context (C : collaborators).

(** X2: when the artifact extension holds no slash, the path of the artifact
    of a file (lines 68-85) is the precompute directory joined with a name
    that is the extension alone or has no empty, [.] or [..] component: the
    path starts with the precompute directory and no component of the file
    name leads out of it. *)
Theorem artifact_path_under_precompdir (filename precompdir : string)
    (precompext : option string) (hashes_not_peaks : bool) (strip_prefix : option string) :
  let ext := match precompext with
             | Some e => e
             | None => if hashes_not_peaks then PRECOMPEXT C else PRECOMPPKEXT C
             end in
  slash ∉ chars ext →
  ∃ rel,
    opfname_of C filename precompdir precompext hashes_not_peaks strip_prefix
    = path_join precompdir rel
    ∧ starts_with (chars precompdir)
        (chars (opfname_of C filename precompdir precompext hashes_not_peaks strip_prefix))
      = true
    ∧ (rel = ext ∨ Forall kept_component (split_on slash (chars rel))).
Proof.
  intros ext Hext. unfold opfname_of. fold ext.
  set (tail := match strip_prefix with Some _ => _ | None => _ end).
  assert (relname_of tail = ""
          ∨ Forall kept_component (split_on slash (chars (relname_of tail)))) as Hrel.
  { destruct (decide (relname_of tail = "")) as [|Hne]; [by left|right].
    rewrite (relname_split _ Hne). apply kept_filter. }
  set (rel := (path_splitext (relname_of tail)).1 +:+ ext).
  assert (rel = ext ∨ Forall kept_component (split_on slash (chars rel))) as Hk.
  { destruct Hrel as [E|Hall].
    - left. unfold rel. rewrite E. done.
    - right. unfold rel. rewrite chars_app.
      destruct (splitext_root_split (relname_of tail)) as (init & lastc & x & Hs & Hx & He).
      rewrite (He _ Hext). rewrite Hs in Hall.
      apply Forall_app in Hall as [Hinit Hlast]. apply Forall_app. split; [done|].
      constructor; [|done]. apply kept_app.
      destruct Hx as [->|Hx]; [|by apply nondot_kept]. by inversion_clear Hlast. }
  exists rel. split; [done|]. split; [|done].
  apply path_join_prefix.
  destruct (starts_with [slash] (chars rel)) eqn:E; [|done].
  destruct Hk as [Hk|Hk].
  - rewrite Hk in E. destruct (chars ext) as [|y r]; [done|].
    simpl in E. rewrite andb_true_r in E. apply bool_decide_eq_true in E as <-.
    destruct Hext. by left.
  - apply starts_with_slash_split in E as [t E].
    rewrite E in Hk. by inversion_clear Hk as [|? ? (_ & _ & ?) _].
Qed.

End ArtifactNames.

Lemma artifact_path_under_precompdir_witness :
  ∃ rel,
    opfname_of sample_collaborators "d/../a.wav" "pre" None true None = path_join "pre" rel
    ∧ starts_with (chars "pre")
        (chars (opfname_of sample_collaborators "d/../a.wav" "pre" None true None)) = true
    ∧ (rel = ".afpt" ∨ Forall kept_component (split_on slash (chars rel))).
Proof.
  apply (artifact_path_under_precompdir sample_collaborators "d/../a.wav" "pre" None true None).
  apply (bool_decide_unpack _). vm_compute. reflexivity.
Defined.

Lemma String_length_chars s : String.length s = length (chars s).
Proof. induction s as [|x s IH]; simpl; [done|]. by rewrite IH. Qed.

Lemma relname_leading_slash x : relname_of ("/" +:+ x) = relname_of x.
Proof.
  unfold relname_of. rewrite chars_app. simpl.
  destruct (decide (slash = slash)); [|done].
  rewrite filter_cons_False; [done|]. intros (_ & _ & H). done.
Qed.

Lemma strip_own_prefix pre y :
  text (take (String.length pre) (chars (pre +:+ y))) = pre
  ∧ text (drop (String.length pre) (chars (pre +:+ y))) = y.
Proof.
  rewrite chars_app, String_length_chars.
  rewrite take_app_length, drop_app_length, !text_chars. done.
Qed.

Section WavDir.

Context (C : collaborators).

Lemma opfname_of_joined wavdir x precompdir precompext hashes_not_peaks :
  starts_with [slash] (chars x) = false →
  opfname_of C (path_join wavdir x) precompdir precompext hashes_not_peaks (Some wavdir)
  = opfname_of C x precompdir precompext hashes_not_peaks None.
Proof.
  intros Hx. unfold opfname_of, path_join. rewrite Hx.
  destruct (bool_decide (wavdir = "")) eqn:Ew; simpl.
  { apply bool_decide_eq_true in Ew as ->. done. }
  destruct (bool_decide (last (chars wavdir) = Some slash)).
  - destruct (strip_own_prefix wavdir x) as [-> ->].
    rewrite bool_decide_true by done. done.
  - destruct (strip_own_prefix wavdir ("/" +:+ x)) as [-> ->].
    rewrite bool_decide_true by done. by rewrite relname_leading_slash.
Qed.

(** X3: for file arguments that, with the extension added, do not start
    with a slash, the paths the filename resolver yields under a sound
    directory [wavdir] are given, with [wavdir] as the prefix to strip as
    [main] passes it, the artifact paths of the bare arguments: the artifact
    name does not depend on [wavdir]. *)
Theorem artifact_name_ignores_wavdir filelist wavdir wavext s precompdir precompext
    hashes_not_peaks :
  Forall (λ filename, starts_with [slash] (chars (filename +:+ wavext)) = false) filelist →
  (λ p, opfname_of C p precompdir precompext hashes_not_peaks (Some wavdir))
    <$> (filename_list_iterator filelist wavdir wavext false s).1
  = (λ filename, opfname_of C (filename +:+ wavext) precompdir precompext hashes_not_peaks None)
    <$> filelist.
Proof.
  intros Hall. unfold filename_list_iterator. simpl.
  rewrite <- list_fmap_compose. apply Forall_fmap_ext.
  eapply Forall_impl; [exact Hall|]. intros f Hf. simpl.
  by apply opfname_of_joined.
Qed.

End WavDir.

Lemma artifact_name_ignores_wavdir_witness :
  (λ p, opfname_of sample_collaborators p "pre" None true (Some "sounds"))
    <$> (filename_list_iterator ["a"; "d/b"] "sounds" ".wav" false sample_state).1
  = (λ filename, opfname_of sample_collaborators (filename +:+ ".wav") "pre" None true None)
    <$> ["a"; "d/b"].
Proof.
  apply (artifact_name_ignores_wavdir sample_collaborators ["a"; "d/b"] "sounds" ".wav"
           sample_state "pre" None true).
  repeat constructor.
Defined.

(** ** The cache writer on an empty analysis, and the filename resolver *)

Lemma bind_gets {A B} (f : state → A) (k : A → M B) s : bind (gets f) k s = k (f s) s.
Proof. reflexivity. Qed.

Lemma bind_modify {B} (g : state → state) (k : unit → M B) s :
  bind (modify g) k s = k tt (g s).
Proof. reflexivity. Qed.

Lemma bind_returns {A B} (m : M A) (k : A → M B) s s1 x :
  m s = (s1, inr x) → bind m k s = k x s1.
Proof. intros H. unfold bind. by rewrite H. Qed.

Section ZeroLength.

Context (C : collaborators).

Lemma analysis_result (hashes_not_peaks : bool) filename s a :
  analyzer s = Some a →
  (if hashes_not_peaks then wavfile2hashes C filename else wavfile2peaks C filename) s
  = (set_analyzer (Some (account C a filename)) (add_event (EvAnalyze filename) s),
     inr (if hashes_not_peaks then sound_hashes C (aparams a) filename
          else sound_peaks C (aparams a) filename)).
Proof.
  intros Ha.
  destruct hashes_not_peaks; unfold wavfile2hashes, wavfile2peaks, bind, the_analyzer;
    rewrite Ha; reflexivity.
Qed.

Lemma file_precompute_empty filename precompdir type sk sp s a :
  analyzer s = Some a →
  (if bool_decide (type = "hashes") then sound_hashes C (aparams a) filename
   else sound_peaks C (aparams a) filename) = [] →
  sk && os_path_isfile
          (opfname_of C filename precompdir None (bool_decide (type = "hashes")) sp) s
  = false →
  file_precompute C filename precompdir type sk sp s
  = (set_analyzer (Some (account C a filename)) (add_event (EvAnalyze filename) s),
     inr [Text ("Zero length analysis for " +:+ filename +:+ " -- not saving.")]).
Proof.
  intros Ha Hout Hsk. unfold file_precompute, file_precompute_peaks_or_hashes.
  cbv zeta. rewrite bind_gets, Hsk.
  rewrite (bind_returns _ _ _ _ _ (analysis_result _ filename s a Ha)).
  rewrite Hout. reflexivity.
Qed.

(** X5: when the analysis of a file is empty and no artifact exists for it,
    [file_precompute] runs the analysis, returns the one message that says
    the analysis has zero length, and writes no file and makes no directory;
    as no artifact exists afterwards, a second call with skip-existing
    analyzes the file again and returns the same message. *)
Theorem zero_length_analysis_not_saved filename precompdir type sk sp s a :
  analyzer s = Some a →
  (if bool_decide (type = "hashes") then sound_hashes C (aparams a) filename
   else sound_peaks C (aparams a) filename) = [] →
  os_path_isfile (opfname_of C filename precompdir None (bool_decide (type = "hashes")) sp) s
  = false →
  ∃ s1 s2,
    file_precompute C filename precompdir type sk sp s
    = (s1, inr [Text ("Zero length analysis for " +:+ filename +:+ " -- not saving.")])
    ∧ fs_files s1 = fs_files s
    ∧ fs_dirs s1 = fs_dirs s
    ∧ events s1 = events s ++ [EvAnalyze filename]
    ∧ file_precompute C filename precompdir type true sp s1
      = (s2, inr [Text ("Zero length analysis for " +:+ filename +:+ " -- not saving.")])
    ∧ fs_files s2 = fs_files s
    ∧ events s2 = events s ++ [EvAnalyze filename; EvAnalyze filename].
Proof.
  intros Ha Hout Hfile.
  eexists _, _. split.
  { apply (file_precompute_empty _ _ _ _ _ _ a Ha Hout). by rewrite Hfile, andb_false_r. }
  split; [reflexivity|]. split; [reflexivity|]. split; [reflexivity|]. split.
  { apply (file_precompute_empty _ _ _ _ _
             (set_analyzer (Some (account C a filename)) (add_event (EvAnalyze filename) s))
             (account C a filename) eq_refl Hout).
    unfold os_path_isfile in *. cbn [fs_files set_analyzer add_event].
    by rewrite Hfile. }
  split; [reflexivity|]. cbn [events set_analyzer add_event]. by rewrite <- app_assoc.
Qed.

End ZeroLength.

Lemma zero_length_analysis_not_saved_witness :
  ∃ s1 s2,
    file_precompute sample_silence "a.wav" "pre" "peaks" false None sample_state
    = (s1, inr [Text ("Zero length analysis for " +:+ "a.wav" +:+ " -- not saving.")])
    ∧ fs_files s1 = fs_files sample_state
    ∧ fs_dirs s1 = fs_dirs sample_state
    ∧ events s1 = events sample_state ++ [EvAnalyze "a.wav"]
    ∧ file_precompute sample_silence "a.wav" "pre" "peaks" true None s1
      = (s2, inr [Text ("Zero length analysis for " +:+ "a.wav" +:+ " -- not saving.")])
    ∧ fs_files s2 = fs_files sample_state
    ∧ events s2 = events sample_state ++ [EvAnalyze "a.wav"; EvAnalyze "a.wav"].
Proof.
  apply (zero_length_analysis_not_saved sample_silence "a.wav" "pre" "peaks" false None
           sample_state sample_analyzer); reflexivity.
Defined.

(** ** The filename resolver *)

Lemma list_files_paths_app wavdir wavext l1 l2 s :
  (list_files_paths wavdir wavext l1 s).2 = None →
  list_files_paths wavdir wavext (l1 ++ l2) s
  = ((list_files_paths wavdir wavext l1 s).1 ++ (list_files_paths wavdir wavext l2 s).1,
     (list_files_paths wavdir wavext l2 s).2).
Proof.
  induction l1 as [|n l1 IH]; simpl; [by destruct (list_files_paths _ _ l2 s)|].
  destruct (fs_files s !! n) as [[lines| |]|]; try done. simpl.
  intros H. rewrite (IH H). simpl. by rewrite app_assoc.
Qed.

Lemma list_files_paths_readable wavdir wavext names liness s :
  Forall2 (λ n ls, fs_files s !! n = Some (FLines ls)) names liness →
  list_files_paths wavdir wavext names s
  = ((λ l, path_join wavdir (rstrip_newline l +:+ wavext)) <$> concat liness, None).
Proof.
  induction 1 as [|n ls names liness Hn _ IH]; simpl; [done|].
  rewrite Hn, IH. simpl. by rewrite fmap_app.
Qed.

(** X6: with the list flag, the filename resolver yields, for list files
    that can be read, one path per line in the order of the list files and
    of their lines: the line without its trailing newlines, with the
    extension added and joined to the sound directory, blank lines included;
    a list file that does not exist ends the sequence with an I/O error
    after the paths of the list files before it, and the list files after it
    are not looked at. *)
Theorem list_files_resolved_in_order names liness wavdir wavext s :
  Forall2 (λ n ls, fs_files s !! n = Some (FLines ls)) names liness →
  filename_list_iterator names wavdir wavext true s
  = ((λ l, path_join wavdir (rstrip_newline l +:+ wavext)) <$> concat liness, None)
  ∧ ∀ bad rest,
      fs_files s !! bad = None →
      filename_list_iterator (names ++ bad :: rest) wavdir wavext true s
      = ((λ l, path_join wavdir (rstrip_newline l +:+ wavext)) <$> concat liness,
         Some (IOError bad)).
Proof.
  intros Hall. unfold filename_list_iterator. simpl.
  pose proof (list_files_paths_readable wavdir wavext _ _ s Hall) as Hr.
  split; [done|]. intros bad rest Hbad.
  rewrite list_files_paths_app by (by rewrite Hr).
  rewrite Hr. simpl. rewrite Hbad. simpl. by rewrite app_nil_r.
Qed.

Lemma list_files_resolved_in_order_witness :
  filename_list_iterator (["l1.txt"] ++ "l2.txt" :: ["l3.txt"]) "snd" ".x" true sample_lists
  = ((λ l, path_join "snd" (rstrip_newline l +:+ ".x"))
       <$> concat [["a.wav" +:+ text [newline]; text [newline]; "b.wav"]],
     Some (IOError "l2.txt")).
Proof.
  apply (proj2 (list_files_resolved_in_order ["l1.txt"]
                  [["a.wav" +:+ text [newline]; text [newline]; "b.wav"]]
                  "snd" ".x" sample_lists ltac:(repeat constructor))).
  reflexivity.
Defined.



Section LateFailure.

Context (C : collaborators).


End LateFailure.


(** ** The command planner *)

Lemma analyzed_app_event e s :
  (∀ f, e ≠ EvAnalyze f) → analyzed (add_event e s) = analyzed s.
Proof.
  intros He. unfold analyzed. simpl. rewrite bind_app. simpl.
  destruct e; simpl; try by rewrite app_nil_r. by destruct (He filename).
Qed.

Lemma calm_event e : (∀ f, e ≠ EvAnalyze f) → preserves analyzed (modify (add_event e)).
Proof. intros He. apply preserves_modify. intros s. by apply analyzed_app_event. Qed.

Ltac calm_step := first [ preserve_step | apply calm_event; done ].

Section Planner.

Context (C : collaborators).

Lemma calm_ensure_dir d : preserves analyzed (ensure_dir d).
Proof. unfold ensure_dir, os_makedirs, mkdir1. repeat calm_step. Qed.

Lemma calm_load p : preserves analyzed (HashTable_load p).
Proof. unfold HashTable_load. repeat calm_step. Qed.

Lemma calm_setup_hash_tab a mtb : preserves analyzed (setup_hash_tab C a mtb).
Proof.
  unfold setup_hash_tab. repeat first [ apply calm_ensure_dir | apply calm_load | calm_step ].
Qed.

Lemma keeps_files_load p : preserves fs_files (HashTable_load p).
Proof. unfold HashTable_load. repeat preserve_step. Qed.

Lemma keeps_files_setup_hash_tab a mtb : preserves fs_files (setup_hash_tab C a mtb).
Proof.
  unfold setup_hash_tab.
  repeat first [ apply keeps_files_ensure_dir | apply keeps_files_load | preserve_step ].
Qed.

(** The argument [maxtimebits] as [main] hands it on, lines 358-359. *)
Lemma main_run_unfold a :
  arg_cmd a ∈ cmd_choices →
  main_run C a
  = (modify (set_analyzer (main_analyzer a)) ;;
     setup_hash_tab C a
       (match arg_maxtimebits a with
        | None => bitsfor (arg_maxtime a)
        | Some b => if bool_decide (b = 0) then bitsfor (arg_maxtime a) else b
        end) ;;
     let* filename_iter :=
       gets (filename_list_iterator (arg_file a) (arg_wavdir a) (arg_wavext a) (arg_list a)) in
     match select_executor (arg_cmd a) (arg_ncores a) with
     | MultiProcess =>
         raise (TypeError "do_cmd_multiproc() missing 1 required positional argument: 'report'")
     | SingleProcess =>
         do_cmd C (arg_cmd a) filename_iter
           (if bool_decide (arg_cmd a = "match") then
              Some (setup_matcher (arg_match_win a) (arg_search_depth a) (arg_min_count a)
                      (arg_max_matches a) (arg_exact_count a) (arg_find_time_range a)
                      (arg_time_quantile a) (arg_sortbytime a) (arg_illustrate a)
                      (arg_illustrate_hpf a))
            else None)
           (arg_precompdir a) (if negb (arg_precompute_peaks a) then "hashes" else "peaks")
           (arg_skip_existing a) (Some (arg_wavdir a))
     end).
Proof.
  intros Hcmd. unfold main_run. rewrite (bool_decide_true _ Hcmd). reflexivity.
Qed.

(** X9: for every command but precompute, [main] without an index name (none
    given, or the empty string) raises the value error of line 371 right
    after it has built the analyzer: nothing is read, written, logged or
    analyzed, and no index is created. *)
Theorem index_name_required a s :
  arg_cmd a ∈ cmd_choices → arg_cmd a ≠ "precompute" → no_dbase (arg_dbase a) = true →
  main C a s
  = (set_analyzer (main_analyzer a) s,
     inl (ValueError "dbase name must be provided if not precompute")).
Proof.
  intros Hcmd Hpre Hno. unfold main. rewrite (main_run_unfold _ Hcmd).
  unfold bind, modify, setup_hash_tab.
  rewrite (bool_decide_false _ Hpre), Hno. reflexivity.
Qed.

(** X10: [main] with more than one process and one of the commands
    precompute, match, new and add never completes: its call of
    [do_cmd_multiproc] (lines 408-413) gives no argument for the parameter
    [report], so every such run ends in an error, with no file analyzed, no
    file written and no index saved; for precompute the error is that type
    error, raised in the state the set-up leaves. *)
Theorem multi_process_run_fails a s :
  1 < arg_ncores a → arg_cmd a ∈ ["precompute"; "match"; "new"; "add"] →
  succeeded (main C a s) = false
  ∧ fs_files (main C a s).1 = fs_files s
  ∧ analyzed (main C a s).1 = analyzed s
  ∧ saved_paths (main C a s).1 = saved_paths s
  ∧ (arg_cmd a = "precompute" →
     main C a s
     = (set_hash_tab None (set_analyzer (main_analyzer a) s),
        inl (TypeError "do_cmd_multiproc() missing 1 required positional argument: 'report'"))).
Proof.
  intros Hn Hcmd.
  assert (arg_cmd a ∈ cmd_choices) as Hch.
  { repeat (apply elem_of_cons in Hcmd as [->|Hcmd]); [..|by apply elem_of_nil in Hcmd];
      apply (bool_decide_unpack _); vm_compute; reflexivity. }
  assert (select_executor (arg_cmd a) (arg_ncores a) = MultiProcess) as Hsel.
  { apply select_executor_multi. split; [done|].
    repeat (apply elem_of_cons in Hcmd as [->|Hcmd]); [..|by apply elem_of_nil in Hcmd];
      apply (bool_decide_unpack _); vm_compute; reflexivity. }
  unfold main. rewrite (main_run_unfold _ Hch), Hsel.
  set (mtb := match arg_maxtimebits a with Some _ => _ | None => _ end).
  pose proof (keeps_files_setup_hash_tab a mtb (set_analyzer (main_analyzer a) s)) as Hf.
  pose proof (calm_setup_hash_tab a mtb (set_analyzer (main_analyzer a) s)) as Ha.
  pose proof (quiet_setup_hash_tab C a mtb (set_analyzer (main_analyzer a) s)) as Hq.
  split_and!.
  - unfold succeeded, bind, modify, gets, raise. simpl.
    by destruct (setup_hash_tab C a mtb _) as [s1 [e|[]]].
  - unfold bind, modify, gets, raise. simpl.
    by destruct (setup_hash_tab C a mtb _) as [s1 [e|[]]].
  - unfold bind, modify, gets, raise. simpl.
    by destruct (setup_hash_tab C a mtb _) as [s1 [e|[]]].
  - unfold bind, modify, gets, raise. simpl.
    by destruct (setup_hash_tab C a mtb _) as [s1 [e|[]]].
  - intros Hp. unfold bind, modify, gets, raise, setup_hash_tab. simpl.
    rewrite (bool_decide_true _ Hp). reflexivity.
Qed.

Lemma keeps_index_analysis (hashes_not_peaks : bool) filename :
  preserves hash_tab
    (if hashes_not_peaks then wavfile2hashes C filename else wavfile2peaks C filename).
Proof. destruct hashes_not_peaks; unfold wavfile2hashes, wavfile2peaks; repeat preserve_step. Qed.

Lemma keeps_index_ensure_dir d : preserves hash_tab (ensure_dir d).
Proof. unfold ensure_dir, os_makedirs, mkdir1. repeat preserve_step. Qed.

Lemma keeps_index_file_precompute fn d t sk sp :
  preserves hash_tab (file_precompute C fn d t sk sp).
Proof.
  unfold file_precompute, file_precompute_peaks_or_hashes, saver, write_file.
  repeat first [ apply keeps_index_analysis | apply keeps_index_ensure_dir | preserve_step ].
Qed.

Lemma keeps_index_precompute it m d t sk sp :
  preserves hash_tab (do_cmd C "precompute" it m d t sk sp).
Proof.
  change (do_cmd C "precompute" it m d t sk sp)
    with (for_iter it (λ filename,
            let* msgs := file_precompute C filename d t sk sp in modify (add_log msgs))).
  unfold for_iter.
  repeat first [ apply keeps_index_file_precompute | preserve_step ].
Qed.

(** X11: a precompute run of [main] does not use the index argument: the run
    is the same under any other index name, it has no index when it ends,
    and it saves nothing. *)
Theorem precompute_ignores_index a dbase s :
  arg_cmd a = "precompute" →
  main C (with_dbase dbase a) s = main C a s
  ∧ hash_tab (main C a s).1 = None
  ∧ saved_paths (main C a s).1 = saved_paths s.
Proof.
  intros Hcmd.
  assert (arg_cmd a ∈ cmd_choices) as Hch.
  { rewrite Hcmd. apply (bool_decide_unpack _). vm_compute. reflexivity. }
  assert (∀ d, main_run C (with_dbase d a)
               = (modify (set_analyzer (main_analyzer a)) ;;
                  modify (set_hash_tab None) ;;
                  let* filename_iter :=
                    gets (filename_list_iterator (arg_file a) (arg_wavdir a) (arg_wavext a)
                            (arg_list a)) in
                  match select_executor "precompute" (arg_ncores a) with
                  | MultiProcess =>
                      raise (TypeError
                               "do_cmd_multiproc() missing 1 required positional argument: 'report'")
                  | SingleProcess =>
                      do_cmd C "precompute" filename_iter None
                        (arg_precompdir a)
                        (if negb (arg_precompute_peaks a) then "hashes" else "peaks")
                        (arg_skip_existing a) (Some (arg_wavdir a))
                  end)) as Hrun.
  { intros d. rewrite main_run_unfold by done.
    unfold setup_hash_tab, main_analyzer. cbn [with_dbase arg_cmd arg_dbase arg_density
      arg_hashbits arg_bucketsize arg_maxtime arg_maxtimebits arg_samplerate arg_precompdir
      arg_shifts arg_match_win arg_min_count arg_max_matches arg_exact_count
      arg_find_time_range arg_time_quantile arg_freq_sd arg_fanout arg_pks_per_frame
      arg_search_depth arg_ncores arg_precompute_peaks arg_skip_existing
      arg_continue_on_error arg_list arg_sortbytime arg_illustrate arg_illustrate_hpf
      arg_wavdir arg_wavext arg_file].
    rewrite Hcmd. reflexivity. }
  assert (with_dbase (arg_dbase a) a = a) as Hsame by (by destruct a).
  assert (∀ d, hash_tab (main_run C (with_dbase d a) s).1 = None) as Hnone.
  { intros d. rewrite Hrun. rewrite bind_modify, bind_modify, bind_gets.
    destruct (select_executor _ _); [|done].
    by rewrite keeps_index_precompute. }
  assert (∀ d, main C (with_dbase d a) s = main_run C (with_dbase d a) s) as Hmain.
  { intros d. unfold main, bind. specialize (Hnone d).
    destruct (main_run C (with_dbase d a) s) as [s1 [e|[]]]; [done|].
    unfold main_save, bind, gets. simpl in Hnone. by rewrite Hnone. }
  split_and!.
  - rewrite <- Hsame at 2. rewrite !Hmain, !Hrun. done.
  - rewrite <- Hsame, Hmain. apply Hnone.
  - rewrite <- Hsame, Hmain, Hsame. apply quiet_main_run.
Qed.

End Planner.

Lemma index_name_required_witness :
  main sample_collaborators (click_defaults "add" None ["a.wav"]) sample_start
  = (set_analyzer (main_analyzer (click_defaults "add" None ["a.wav"])) sample_start,
     inl (ValueError "dbase name must be provided if not precompute")).
Proof.
  apply (index_name_required sample_collaborators (click_defaults "add" None ["a.wav"])
           sample_start).
  - apply (bool_decide_unpack _). vm_compute. reflexivity.
  - discriminate.
  - reflexivity.
Defined.

Lemma multi_process_run_fails_witness :
  succeeded (main sample_collaborators
               (with_ncores 4 (click_defaults "match" (Some "b.pklz") ["q.wav"]))
               sample_start) = false.
Proof.
  apply (multi_process_run_fails sample_collaborators
           (with_ncores 4 (click_defaults "match" (Some "b.pklz") ["q.wav"])) sample_start).
  - reflexivity.
  - apply (bool_decide_unpack _). vm_compute. reflexivity.
Defined.

Lemma precompute_ignores_index_witness :
  main sample_collaborators
    (with_dbase (Some "b.pklz") (click_defaults "precompute" None ["a.wav"])) sample_start
  = main sample_collaborators (click_defaults "precompute" None ["a.wav"]) sample_start.
Proof.
  apply (precompute_ignores_index sample_collaborators
           (click_defaults "precompute" None ["a.wav"]) (Some "b.pklz") sample_start).
  reflexivity.
Defined.

(** ** Edge cases of the build path, and directory creation *)

Section NoCores.

Context (C : collaborators).

(** X12: [multiproc_add] with a number of processes of zero or less raises
    on the first file while it distributes the files, a division-by-zero
    error for zero and an index error for a negative number, before any
    process is started and with the index untouched; without files it
    returns at once, having done nothing. *)
Theorem multiproc_add_needs_cores filename rest ncores s :
  ncores ≤ 0 →
  multiproc_add C (filename :: rest, None) ncores s
  = (s, inl (if decide (ncores = 0) then ZeroDivisionError else IndexError))
  ∧ multiproc_add C ([], None) ncores s = (s, inr tt).
Proof.
  intros Hn. unfold multiproc_add, unpack_files. cbn [fst snd].
  assert (empty_filelists ncores = []) as ->.
  { unfold empty_filelists, py_range. by replace (Z.to_nat ncores) with 0%nat by lia. }
  assert (py_range ncores = []) as ->.
  { unfold py_range. by replace (Z.to_nat ncores) with 0%nat by lia. }
  split; [|reflexivity].
  cbn [unpack_loop]. unfold py_mod.
  destruct (decide (ncores = 0)) as [->|Hne]; [reflexivity|].
  rewrite Z.mod_0_l by done. reflexivity.
Qed.

End NoCores.

Lemma multiproc_add_needs_cores_witness :
  multiproc_add sample_collaborators (["a.wav"], None) 0 sample_state
  = (sample_state, inl ZeroDivisionError)
  ∧ multiproc_add sample_collaborators ([], None) 0 sample_state = (sample_state, inr tt).
Proof.
  apply (multiproc_add_needs_cores sample_collaborators "a.wav" [] 0 sample_state).
  reflexivity.
Defined.

(** ** Directory creation *)

Lemma ancestors_last fuel d : last (ancestors fuel d) = Some d.
Proof.
  destruct fuel as [|n]; simpl; [done|].
  destruct (_ || _); [done|]. by rewrite last_snoc.
Qed.

Lemma mkdir_step d s :
  d ∉ fs_denied s → fs_files s !! d = None →
  (let* isdir := gets (λ s, bool_decide (d ∈ fs_dirs s)) in
   if isdir then ret tt else mkdir1 d) s
  = (if bool_decide (d ∈ fs_dirs s) then s else set_fs_dirs ({[d]} ∪ fs_dirs s) s, inr tt).
Proof.
  intros Hden Hfile. rewrite bind_gets.
  destruct (bool_decide (d ∈ fs_dirs s)); [done|].
  unfold mkdir1. rewrite !bind_gets. unfold os_path_isfile.
  rewrite (bool_decide_false _ Hden), Hfile.
  rewrite bool_decide_false by (by intros [? ?]). done.
Qed.

Lemma makedirs_loop ds : ∀ s,
  (∀ d, d ∈ ds → (d ∉ fs_denied s) ∧ fs_files s !! d = None) →
  ∃ s1,
    for_each ds (λ d,
      let* isdir := gets (λ s, bool_decide (d ∈ fs_dirs s)) in
      if isdir then ret tt else mkdir1 d) s = (s1, inr tt)
    ∧ fs_dirs s1 = list_to_set ds ∪ fs_dirs s
    ∧ fs_files s1 = fs_files s
    ∧ fs_denied s1 = fs_denied s
    ∧ events s1 = events s
    ∧ log s1 = log s
    ∧ analyzer s1 = analyzer s
    ∧ hash_tab s1 = hash_tab s.
Proof.
  induction ds as [|d ds IH]; intros s Hok.
  - exists s. split; [done|]. split; [|done].
    by rewrite list_to_set_nil, (left_id_L ∅ (∪)).
  - destruct (Hok d ltac:(left)) as [Hden Hfile].
    cbn [for_each]. rewrite (bind_returns _ _ _ _ _ (mkdir_step d s Hden Hfile)).
    destruct (bool_decide (d ∈ fs_dirs s)) eqn:Ed.
    + apply bool_decide_eq_true in Ed.
      destruct (IH s) as (s1 & -> & Hd & ?); [intros; apply Hok; by right|].
      exists s1. split; [done|]. split; [|done]. rewrite Hd, list_to_set_cons.
      apply set_eq. intros x. rewrite !elem_of_union, elem_of_singleton.
      split; [tauto|]. intros [[->|?]|?]; tauto.
    + destruct (IH (set_fs_dirs ({[d]} ∪ fs_dirs s) s)) as (s1 & -> & Hd & ?);
        [intros; apply Hok; by right|].
      exists s1. split; [done|]. split; [|done]. rewrite Hd, list_to_set_cons.
      cbn [fs_dirs set_fs_dirs].
      apply set_eq. intros x. rewrite !elem_of_union, elem_of_singleton. tauto.
Qed.

(** X13: when neither the named directory nor any of its ancestors is a
    file or may not be created, [ensure_dir] returns with the directory in
    place; it removes no directory and touches no file; and when the
    directory exists already it does nothing at all. *)
Theorem ensure_dir_creates dirname s :
  dirname ≠ "" →
  (∀ d, d ∈ ancestors (String.length dirname) dirname →
        (d ∉ fs_denied s) ∧ fs_files s !! d = None) →
  (ensure_dir dirname s).2 = inr tt
  ∧ dirname ∈ fs_dirs (ensure_dir dirname s).1
  ∧ fs_dirs s ⊆ fs_dirs (ensure_dir dirname s).1
  ∧ fs_files (ensure_dir dirname s).1 = fs_files s
  ∧ (dirname ∈ fs_dirs s → ensure_dir dirname s = (s, inr tt)).
Proof.
  intros Hne Hok.
  assert (fs_files s !! dirname = None) as Hfile.
  { apply Hok. apply last_Some_elem_of, ancestors_last. }
  unfold ensure_dir.
  rewrite bool_decide_true by (by destruct dirname).
  rewrite bind_gets. unfold os_path_exists, os_path_isfile. rewrite Hfile.
  rewrite (bool_decide_false (is_Some None)) by (by intros [? ?]). rewrite orb_false_r.
  destruct (bool_decide (dirname ∈ fs_dirs s)) eqn:Ed; cbn [negb].
  { apply bool_decide_eq_true in Ed. done. }
  apply bool_decide_eq_false in Ed.
  unfold try_pass, os_makedirs. rewrite bind_modify, bind_gets.
  unfold os_path_exists, os_path_isfile. cbn [fs_dirs fs_files add_event].
  rewrite Hfile, (bool_decide_false _ Ed).
  rewrite (bool_decide_false (is_Some None)) by (by intros [? ?]). cbn [orb].
  destruct (makedirs_loop (ancestors (String.length dirname) dirname)
              (add_event (EvMakedirs dirname) s) Hok) as (s1 & -> & Hd & Hf & _).
  cbn [fst snd]. split; [done|]. rewrite Hd, Hf. cbn [fs_dirs fs_files add_event].
  split_and!; [|apply union_subseteq_r|done|done].
  apply elem_of_union_l, elem_of_list_to_set, last_Some_elem_of, ancestors_last.
Qed.

Lemma ensure_dir_creates_witness :
  (ensure_dir "out/sub" sample_state).2 = inr tt
  ∧ "out/sub" ∈ fs_dirs (ensure_dir "out/sub" sample_state).1
  ∧ fs_dirs sample_state ⊆ fs_dirs (ensure_dir "out/sub" sample_state).1
  ∧ fs_files (ensure_dir "out/sub" sample_state).1 = fs_files sample_state
  ∧ ("out/sub" ∈ fs_dirs sample_state → ensure_dir "out/sub" sample_state = (sample_state, inr tt)).
Proof.
  apply (ensure_dir_creates "out/sub" sample_state).
  - discriminate.
  - intros d _. split; [apply not_elem_of_empty|apply lookup_empty].
Defined.

(** ** The log of the ingest loop *)

Section IngestLog.

Context (C : collaborators).

Lemma ingest_result filename s a ht :
  analyzer s = Some a → hash_tab s = Some ht →
  ingest C filename s
  = (set_hash_tab (Some (store filename (sound_hashes C (aparams a) filename) ht))
       (set_analyzer (Some (account C a filename)) (add_event (EvAnalyze filename) s)),
     inr (sound_dur C (aparams a) filename, length (sound_hashes C (aparams a) filename))).
Proof.
  intros Ha Hh. unfold ingest.
  rewrite (bind_returns _ _ _ _ _ (analysis_result C true filename s a Ha)).
  unfold bind, the_hash_tab, the_analyzer, modify. cbn [hash_tab set_analyzer add_event].
  rewrite Hh. reflexivity.
Qed.

Lemma ingest_loop_run files : ∀ ix tot s a ht,
  analyzer s = Some a → hash_tab s = Some ht →
  ∃ s1,
    ingest_loop C ix files tot s
    = (s1, inr (tot + sum_list ((λ f, length (sound_hashes C (aparams a) f)) <$> files))%nat)
    ∧ log s1 = log s ++ imap (λ i f, [Ingesting (ix + i) f]) files
    ∧ events s1 = events s ++ (EvAnalyze <$> files)
    ∧ fs_files s1 = fs_files s
    ∧ analyzer s1 = Some (foldl (account C) a files)
    ∧ ∃ ht1, hash_tab s1 = Some ht1
             ∧ sum_counts ht1
               = (sum_counts ht
                  + sum_list ((λ f, length (sound_hashes C (aparams a) f)) <$> files))%nat.
Proof.
  induction files as [|f files IH]; intros ix tot s a ht Ha Hh.
  - exists s. cbn. rewrite !app_nil_r, !Nat.add_0_r. eauto 10.
  - cbn [ingest_loop]. rewrite bind_modify.
    rewrite (bind_returns _ _ _ _ _ (ingest_result f (add_log [Ingesting ix f] s) a ht Ha Hh)).
    cbn [snd].
    destruct (IH (S ix) (tot + length (sound_hashes C (aparams a) f))%nat
                (set_hash_tab (Some (store f (sound_hashes C (aparams a) f) ht))
                   (set_analyzer (Some (account C a f))
                      (add_event (EvAnalyze f) (add_log [Ingesting ix f] s))))
                (account C a f) (store f (sound_hashes C (aparams a) f) ht)
                eq_refl eq_refl)
      as (s1 & Hr & Hlog & Hev & Hf & Han & ht1 & Hh1 & Hsum).
    exists s1. rewrite Hr, Hlog, Hev, Hf, Han.
    cbn [log events fs_files set_hash_tab set_analyzer add_event add_log aparams account
         fmap list_fmap sum_list sum_list_with imap foldl].
    rewrite <- !app_assoc. cbn [app]. rewrite Nat.add_0_r.
    split_and!; try done.
    + f_equal. f_equal. symmetry. apply Nat.add_assoc.
    + do 2 f_equal. apply imap_ext. intros i x _. cbn. do 2 f_equal. lia.
    + exists ht1. split; [done|]. rewrite Hsum. unfold sum_counts. cbn [table store].
      rewrite length_app, length_fmap. cbn [aparams account]. symmetry. apply Nat.add_assoc.
Qed.

(** X8: a new or add run of [do_cmd] over a file list, on an analyzer whose
    cumulative duration is not zero afterwards, completes; it logs one
    ingesting line per file, numbered from 0 in input order, and then the
    one summary line with the total number of hashes of the files and that
    total divided by the cumulative duration; it analyzes each file once, in
    input order; and the index has grown by the total reported. *)
Theorem ingest_log_in_order cmd files matcher outdir type sk sp s a ht :
  cmd = "new" ∨ cmd = "add" →
  analyzer s = Some a → hash_tab s = Some ht →
  Qeq_bool (soundfiletotaldur (foldl (account C) a files)) 0 = false →
  let tothashes := sum_list ((λ f, length (sound_hashes C (aparams a) f)) <$> files) in
  ∃ s1 ht1,
    do_cmd C cmd (files, None) matcher outdir type sk sp s = (s1, inr tt)
    ∧ log s1
      = log s ++ imap (λ i f, [Ingesting i f]) files
        ++ [[Added tothashes
               (inject_Z (Z.of_nat tothashes)
                / soundfiletotaldur (foldl (account C) a files))%Q]]
    ∧ events s1 = events s ++ (EvAnalyze <$> files)
    ∧ hash_tab s1 = Some ht1
    ∧ sum_counts ht1 = (sum_counts ht + tothashes)%nat.
Proof.
  intros Hcmd Ha Hh Hdur tothashes.
  destruct (ingest_loop_run files 0%nat 0%nat s a ht Ha Hh)
    as (s1 & Hr & Hlog & Hev & Hf & Han & ht1 & Hh1 & Hsum).
  assert (do_cmd C cmd (files, None) matcher outdir type sk sp s
          = (let* tothashes := ingest_loop C 0 files 0 in
             let* a := the_analyzer in
             let* rate := lift (py_truediv (inject_Z (Z.of_nat tothashes)) (soundfiletotaldur a)) in
             modify (add_log [Added tothashes rate])) s) as ->.
  { destruct Hcmd as [-> | ->]; reflexivity. }
  rewrite (bind_returns _ _ _ _ _ Hr).
  unfold bind, the_analyzer, lift, py_truediv, modify. rewrite Han, Hdur.
  eexists _, ht1. split; [reflexivity|].
  cbn [log events hash_tab add_log]. rewrite Hlog, Hev, <- app_assoc. done.
Qed.

End IngestLog.

Lemma ingest_log_in_order_witness :
  ∃ s1 ht1,
    do_cmd sample_collaborators "new" (["a.wav"; "b.wav"], None) None "." "hashes" false None
      sample_state = (s1, inr tt)
    ∧ log s1
      = log sample_state ++ imap (λ i f, [Ingesting i f]) ["a.wav"; "b.wav"]
        ++ [[Added 4 (inject_Z 4 / 10)%Q]]
    ∧ events s1 = events sample_state ++ (EvAnalyze <$> ["a.wav"; "b.wav"])
    ∧ hash_tab s1 = Some ht1
    ∧ sum_counts ht1 = (sum_counts sample_index + 4)%nat.
Proof.
  apply (ingest_log_in_order sample_collaborators "new" ["a.wav"; "b.wav"] None "." "hashes"
           false None sample_state sample_analyzer sample_index);
    [by left|reflexivity|reflexivity|reflexivity].
Defined.

(** ** Files that share an artifact *)

Lemma after_last_free c s : c ∉ s → after_last c s = 0%nat.
Proof.
  induction s as [|x r IH]; simpl; [done|]. intros [Hx Hr]%not_elem_of_cons.
  rewrite (IH Hr). by destruct (decide (x = c)).
Qed.

Lemma after_last_app c a b : c ∉ b → a ≠ [] → after_last c a ≠ 0%nat →
  after_last c (a ++ b) = after_last c a.
Proof.
  intros Hb. induction a as [|x a IH]; [done|]. intros _. simpl.
  destruct (after_last c a) as [|k] eqn:E.
  - destruct a as [|y a].
    + simpl. rewrite (after_last_free _ _ Hb). done.
    + assert (after_last c ((y :: a) ++ b) = 0%nat) as ->; [|done].
      clear IH. revert E. generalize (y :: a). intros l.
      induction l as [|z l IHl]; simpl; [intros _; by apply after_last_free|].
      destruct (after_last c l) as [|k]; [|done].
      destruct (decide (z = c)); [done|]. intros _. by rewrite IHl.
  - intros _. rewrite IH; [done|by destruct a|done].
Qed.

Lemma after_last_snoc c a : after_last c (a ++ [c]) = S (length a).
Proof.
  induction a as [|x a IH]; simpl.
  - by destruct (decide (c = c)).
  - by rewrite IH.
Qed.

Lemma after_last_sep c a b : c ∉ b → after_last c (a ++ c :: b) = S (length a).
Proof.
  intros Hb. rewrite (cons_middle c a b), app_assoc.
  rewrite after_last_app; [apply after_last_snoc|done|by destruct a|].
  by rewrite after_last_snoc.
Qed.

Lemma some_not_dot x :
  (∃ y, y ∈ x ∧ y ≠ dot) → forallb (λ y, bool_decide (y = dot)) x = false.
Proof.
  intros (y & Hy & Hdot). induction x as [|a x IH]; [by apply elem_of_nil in Hy|].
  simpl. apply elem_of_cons in Hy as [<-|Hy].
  - by rewrite bool_decide_false.
  - rewrite (IH Hy). apply andb_false_r.
Qed.

(** [splitext] on a path whose last component is a name, a dot and an
    extension. *)
Lemma splitext_with_extension P c e :
  P = [] ∨ (∃ Q, P = Q ++ [slash]) →
  slash ∉ c → (∃ y, y ∈ c ∧ y ≠ dot) → slash ∉ e → dot ∉ e →
  path_splitext (text (P ++ c ++ dot :: e)) = (text (P ++ c), text (dot :: e)).
Proof.
  intros HP Hc Hy Hse Hde. unfold path_splitext. rewrite chars_text.
  assert (slash ∉ c ++ dot :: e) as Hrest.
  { intros [?|[?|?]%elem_of_cons]%elem_of_app; done. }
  assert (after_last slash (P ++ c ++ dot :: e) = length P) as ->.
  { destruct HP as [->|[Q ->]].
    - simpl. by apply after_last_free.
    - rewrite after_last_app; rewrite ?after_last_snoc, ?length_app; simpl;
        [lia|done|by destruct Q|done]. }
  assert (after_last dot (P ++ c ++ dot :: e) = S (length (P ++ c))) as ->.
  { rewrite app_assoc. by apply after_last_sep. }
  rewrite bool_decide_true by (rewrite length_app; lia).
  replace (S (length (P ++ c)) - 1 - length P)%nat with (length c)
    by (rewrite length_app; lia).
  rewrite drop_app_length, take_app_length, (some_not_dot _ Hy).
  cbn [negb andb]. replace (S (length (P ++ c)) - 1)%nat with (length (P ++ c)) by lia.
  rewrite app_assoc, take_app_length, drop_app_length. done.
Qed.

Lemma join_with_snoc c F x :
  join_with c (F ++ [x]) = (if decide (F = []) then [] else join_with c F ++ [c]) ++ x.
Proof.
  induction F as [|p F IH]; [by destruct (decide (@nil (list ascii) = []))|].
  destruct (decide (p :: F = [])) as [|_]; [done|].
  destruct F as [|q F]; [simpl; by rewrite <- app_assoc|].
  change (join_with c ((p :: q :: F) ++ [x])) with (p ++ c :: join_with c ((q :: F) ++ [x])).
  rewrite IH. destruct (decide (q :: F = [])); [done|].
  change (join_with c (p :: q :: F)) with (p ++ c :: join_with c (q :: F)).
  by rewrite <- !app_assoc.
Qed.

(** The relative name of a file that ends in a name, a dot and an
    extension. *)
Lemma relname_with_extension stem :
  (∃ y, y ∈ drop (after_last slash (chars stem)) (chars stem) ∧ y ≠ dot) →
  ∃ P, (P = [] ∨ ∃ Q, P = Q ++ [slash])
       ∧ ∀ e', slash ∉ chars e' →
           chars (relname_of (stem +:+ "." +:+ e'))
           = P ++ drop (after_last slash (chars stem)) (chars stem) ++ dot :: chars e'.
Proof.
  intros Hy.
  destruct (split_on_last slash (chars stem)) as [init Hinit].
  destruct (after_last_spec slash (chars stem)) as (_ & Hfree & _).
  set (c := drop (after_last slash (chars stem)) (chars stem)) in *.
  set (F := filter (λ comp, comp ≠ chars "." ∧ comp ≠ chars ".." ∧ comp ≠ chars "") init).
  exists (if decide (F = []) then [] else join_with slash F ++ [slash]).
  split.
  { destruct (decide (F = [])); [by left|right; eauto]. }
  intros e' He'. rewrite relname_chars, !chars_app.
  rewrite <- (take_drop (after_last slash (chars stem)) (chars stem)) at 1.
  fold c. rewrite <- app_assoc.
  assert (slash ∉ c ++ chars "." ++ chars e') as Hx.
  { intros [?|[?|?]%elem_of_cons]%elem_of_app; done. }
  rewrite (Hinit _ Hx), filter_app, filter_cons_True, filter_nil.
  - fold F. apply join_with_snoc.
  - apply nondot_kept. destruct Hy as (y & ? & ?). exists y. split; [|done].
    apply elem_of_app. by left.
Qed.

Section Collisions.

Context (C : collaborators).

Lemma opfname_of_same_stem stem e1 e2 precompdir precompext hashes_not_peaks :
  slash ∉ chars e1 → dot ∉ chars e1 → slash ∉ chars e2 → dot ∉ chars e2 →
  (∃ y, y ∈ drop (after_last slash (chars stem)) (chars stem) ∧ y ≠ dot) →
  opfname_of C (stem +:+ "." +:+ e1) precompdir precompext hashes_not_peaks None
  = opfname_of C (stem +:+ "." +:+ e2) precompdir precompext hashes_not_peaks None.
Proof.
  intros Hs1 Hd1 Hs2 Hd2 Hy.
  destruct (relname_with_extension stem Hy) as (P & HP & Hrel).
  destruct (after_last_spec slash (chars stem)) as (_ & Hfree & _).
  unfold opfname_of.
  rewrite <- (text_chars (relname_of (stem +:+ "." +:+ e1))), (Hrel e1 Hs1).
  rewrite <- (text_chars (relname_of (stem +:+ "." +:+ e2))), (Hrel e2 Hs2).
  by rewrite !splitext_with_extension.
Qed.

(** X4: two file names that differ only in their extension (no slash and no
    dot in either extension, and a last component of the stem that is not
    made of dots only) have the same artifact path; so once the artifact of
    the first has been written, a precompute of the second with
    skip-existing reports it as existing and leaves the state as it is,
    although the second file was never analyzed. *)
Theorem same_stem_same_artifact stem e1 e2 precompdir type :
  slash ∉ chars e1 → dot ∉ chars e1 → slash ∉ chars e2 → dot ∉ chars e2 →
  (∃ y, y ∈ drop (after_last slash (chars stem)) (chars stem) ∧ y ≠ dot) →
  opfname_of C (stem +:+ "." +:+ e1) precompdir None (bool_decide (type = "hashes")) None
  = opfname_of C (stem +:+ "." +:+ e2) precompdir None (bool_decide (type = "hashes")) None
  ∧ ∀ sk s s1 msgs a,
      analyzer s = Some a →
      file_precompute C (stem +:+ "." +:+ e1) precompdir type sk None s = (s1, inr msgs) →
      (if bool_decide (type = "hashes")
       then sound_hashes C (aparams a) (stem +:+ "." +:+ e1)
       else sound_peaks C (aparams a) (stem +:+ "." +:+ e1)) ≠ [] →
      file_precompute C (stem +:+ "." +:+ e2) precompdir type true None s1
      = (s1, inr [Text ("file "
                        +:+ opfname_of C (stem +:+ "." +:+ e2) precompdir None
                              (bool_decide (type = "hashes")) None
                        +:+ " exists (and --skip-existing); skipping")]).
Proof.
  intros Hs1 Hd1 Hs2 Hd2 Hy.
  pose proof (opfname_of_same_stem stem e1 e2 precompdir None (bool_decide (type = "hashes"))
                Hs1 Hd1 Hs2 Hd2 Hy) as Heq.
  split; [done|]. intros sk s s1 msgs a Ha Hrun Hne.
  apply file_precompute_skip. rewrite <- Heq.
  by destruct (file_precompute_files C _ _ _ _ _ _ _ _ _ Ha Hrun) as (_ & _ & Hw); apply Hw.
Qed.

End Collisions.

Lemma same_stem_same_artifact_witness :
  opfname_of sample_collaborators ("d/a" +:+ "." +:+ "wav") "pre" None
    (bool_decide ("hashes" = "hashes")) None
  = opfname_of sample_collaborators ("d/a" +:+ "." +:+ "mp3") "pre" None
      (bool_decide ("hashes" = "hashes")) None.
Proof.
  apply (same_stem_same_artifact sample_collaborators "d/a" "wav" "mp3" "pre" "hashes").
  - apply (bool_decide_unpack _). vm_compute. reflexivity.
  - apply (bool_decide_unpack _). vm_compute. reflexivity.
  - apply (bool_decide_unpack _). vm_compute. reflexivity.
  - apply (bool_decide_unpack _). vm_compute. reflexivity.
  - exists "a"%char. split; [|discriminate].
    apply (bool_decide_unpack _). vm_compute. reflexivity.
Defined.

(** ** The file list of the graphical front end *)

Lemma last_drop_lt {A} (l : list A) n : (n < length l)%nat → last (drop n l) = last l.
Proof.
  revert n. induction l as [|x l IH]; intros n Hn; [simpl in Hn; lia|].
  destruct n as [|n]; [done|]. simpl in Hn. cbn [drop].
  rewrite IH by lia. destruct l; [simpl in Hn; lia|done].
Qed.

Lemma truncatePath_long path depth :
  1 ≤ depth → depth < Z.of_nat (length (split_on slash (chars path))) →
  truncatePath path depth
  = text (join_with slash
            (chars "..." :: drop (length (split_on slash (chars path)) - Z.to_nat depth)
                              (split_on slash (chars path)))).
Proof.
  intros H1 Hlt. unfold truncatePath.
  rewrite decide_False by lia.
  unfold py_slice_from. rewrite decide_False by lia.
  replace (Z.to_nat (Z.of_nat (length (split_on slash (chars path))) + - depth))
    with (length (split_on slash (chars path)) - Z.to_nat depth)%nat by lia.
  done.
Qed.

Lemma truncated_parts path depth :
  1 ≤ depth → depth < Z.of_nat (length (split_on slash (chars path))) →
  split_on slash (chars (truncatePath path depth))
  = chars "..." :: drop (length (split_on slash (chars path)) - Z.to_nat depth)
                     (split_on slash (chars path)).
Proof.
  intros H1 Hlt. rewrite truncatePath_long, chars_text by done.
  apply split_join; [done|]. constructor.
  - apply (bool_decide_unpack _). vm_compute. reflexivity.
  - apply list.Forall_forall. intros x Hx%subseteq_drop.
    by apply (proj1 (list.Forall_forall _ _) (split_on_fields slash (chars path))).
Qed.

(** X14: for a depth of at least 1, [truncatePath] keeps the last component
    of the path (the file name) and returns at most [depth + 1] components:
    a path of at most [depth] components is returned as it is, a longer one
    becomes [...] followed by its last [depth] components; truncating the
    result again at the same depth changes nothing. *)
Theorem truncatePath_keeps_tail path depth :
  1 ≤ depth →
  last (split_on slash (chars (truncatePath path depth))) = last (split_on slash (chars path))
  ∧ (length (split_on slash (chars (truncatePath path depth))) ≤ Z.to_nat depth + 1)%nat
  ∧ (Z.of_nat (length (split_on slash (chars path))) ≤ depth → truncatePath path depth = path)
  ∧ (depth < Z.of_nat (length (split_on slash (chars path))) →
     truncatePath path depth
     = text (join_with slash
               (chars "..." :: drop (length (split_on slash (chars path)) - Z.to_nat depth)
                                 (split_on slash (chars path)))))
  ∧ truncatePath (truncatePath path depth) depth = truncatePath path depth.
Proof.
  intros H1.
  destruct (decide (Z.of_nat (length (split_on slash (chars path))) ≤ depth)) as [Hle|Hlt].
  - assert (truncatePath path depth = path) as Hid.
    { unfold truncatePath. by rewrite decide_True. }
    rewrite !Hid. split_and!; [done|lia|done|lia|done].
  - apply Z.nle_gt in Hlt. pose proof (truncated_parts path depth H1 Hlt) as Hparts.
    assert (truncatePath path depth
            = text (join_with slash
                      (chars "..." :: drop (length (split_on slash (chars path)) - Z.to_nat depth)
                                        (split_on slash (chars path))))) as Hshape.
    { by apply truncatePath_long. }
    split_and!.
    + rewrite Hparts.
      set (n := (length (split_on slash (chars path)) - Z.to_nat depth)%nat).
      assert (n < length (split_on slash (chars path)))%nat as Hn by lia.
      rewrite <- (last_drop_lt _ n Hn).
      destruct (drop n (split_on slash (chars path))) eqn:E; [|done].
      apply (f_equal length) in E. rewrite length_drop in E. simpl in E. lia.
    + rewrite Hparts. simpl. rewrite length_drop. lia.
    + lia.
    + done.
    + unfold truncatePath at 1. rewrite Hparts.
      rewrite decide_False by (simpl; rewrite length_drop; lia).
      rewrite Hshape. do 3 f_equal.
      unfold py_slice_from. rewrite decide_False by lia.
      replace (Z.to_nat (Z.of_nat (length (chars "..." :: drop (length (split_on slash (chars path)) - Z.to_nat depth) (split_on slash (chars path)))) + - depth))
        with 1%nat by (simpl; rewrite length_drop; lia).
      done.
Qed.

(** X15: for a depth of zero or less the slice [parts[-depth:]] counts from
    the front: [truncatePath] returns [...] followed by the path without its
    first [-depth] components, and for depth 0 by the whole path, which is
    longer than the path it was given. *)
Theorem truncatePath_without_depth path depth :
  depth ≤ 0 →
  truncatePath path depth
  = text (join_with slash
            (chars "..." :: drop (Z.to_nat (- depth)) (split_on slash (chars path))))
  ∧ truncatePath path 0 = ".../" +:+ path.
Proof.
  intros Hd.
  pose proof (split_on_not_nil slash (chars path)) as Hne.
  assert (∀ d, d ≤ 0 →
            truncatePath path d
            = text (join_with slash
                      (chars "..." :: drop (Z.to_nat (- d)) (split_on slash (chars path)))))
    as Hshape.
  { intros d Hd0. unfold truncatePath, py_slice_from.
    rewrite decide_False by (destruct (split_on slash (chars path)); [done|simpl; lia]).
    by rewrite decide_True by lia. }
  split; [by apply Hshape|].
  rewrite (Hshape 0) by lia. simpl (Z.to_nat (- 0)). rewrite drop_0.
  destruct (split_on slash (chars path)) as [|p ps] eqn:E; [done|].
  change (join_with slash (chars "..." :: p :: ps))
    with (chars "..." ++ slash :: join_with slash (p :: ps)).
  rewrite <- E, join_split. change (chars "..." ++ slash :: chars path) with (chars ".../" ++ chars path).
  by rewrite text_app, !text_chars.
Qed.

Lemma truncatePath_keeps_tail_witness :
  last (split_on slash (chars (truncatePath "snd/a/b/c.wav" 2)))
  = last (split_on slash (chars "snd/a/b/c.wav")).
Proof.
  apply (truncatePath_keeps_tail "snd/a/b/c.wav" 2). lia.
Defined.

Lemma truncatePath_without_depth_witness :
  truncatePath "a/b" 0 = ".../" +:+ "a/b".
Proof.
  apply (proj2 (truncatePath_without_depth "a/b" 0 (Z.le_refl 0))).
Defined.

(** ** The depth of the deepest path *)

Lemma split_on_length c s : length (split_on c s) = S (str_count c s).
Proof.
  unfold str_count. induction s as [|x r IH]; simpl; [done|].
  pose proof (split_on_not_nil c r) as Hne.
  destruct (decide (x = c)) as [->|Hx].
  - rewrite filter_cons_True by done. simpl. by rewrite IH.
  - rewrite filter_cons_False by done. rewrite <- IH.
    by destruct (split_on c r).
Qed.

Lemma calculateMaxDepth_fold view : ∀ m0,
  0 ≤ m0 →
  let m := foldl (λ max_depth file_path,
                    let depth := Z.of_nat (str_count slash (chars file_path)) in
                    if decide (max_depth < depth) then depth else max_depth) m0 view in
  m0 ≤ m
  ∧ (∀ p, p ∈ view → Z.of_nat (str_count slash (chars p)) ≤ m)
  ∧ (m = m0 ∨ ∃ p, p ∈ view ∧ Z.of_nat (str_count slash (chars p)) = m).
Proof.
  induction view as [|p view IH]; intros m0 Hm0; cbn [foldl].
  - split; [lia|]. split; [|by left]. intros p Hp. by apply elem_of_nil in Hp.
  - cbv zeta.
    set (m1 := if decide (m0 < Z.of_nat (str_count slash (chars p)))
               then Z.of_nat (str_count slash (chars p)) else m0).
    assert (m0 ≤ m1 ∧ Z.of_nat (str_count slash (chars p)) ≤ m1
            ∧ (m1 = m0 ∨ m1 = Z.of_nat (str_count slash (chars p)))) as (H1 & H2 & H3).
    { unfold m1. destruct (decide _); lia. }
    destruct (IH m1 ltac:(lia)) as (Hle & Hall & Hex). cbv zeta in Hle, Hall, Hex.
    split; [lia|]. split.
    + intros q [->|Hq]%elem_of_cons; [lia|by apply Hall].
    + destruct Hex as [->|(q & Hq & <-)].
      * destruct H3 as [->| ->]; [by left|]. right. exists p. split; [by left|done].
      * right. exists q. split; [by right|done].
Qed.

(** X16: [calculateMaxDepth] returns the largest number of separators of a
    path of the list: no path has more, some path has exactly that many when
    the list is not empty, and it is 0 for the empty list; so [truncatePath]
    at one more than this depth leaves every path of the list as it is. *)
Theorem calculateMaxDepth_is_maximum view :
  (∀ p, p ∈ view → Z.of_nat (str_count slash (chars p)) ≤ calculateMaxDepth view)
  ∧ (view = [] → calculateMaxDepth view = 0)
  ∧ (view ≠ [] →
     ∃ p, p ∈ view ∧ Z.of_nat (str_count slash (chars p)) = calculateMaxDepth view)
  ∧ (∀ p, p ∈ view → truncatePath p (calculateMaxDepth view + 1) = p).
Proof.
  destruct (calculateMaxDepth_fold view 0 ltac:(lia)) as (H0 & Hall & Hex).
  cbv zeta in H0, Hall, Hex. fold (calculateMaxDepth view) in H0, Hall, Hex.
  split_and!.
  - done.
  - by intros ->.
  - intros Hne. destruct Hex as [Hz|Hex]; [|done].
    destruct view as [|p view]; [done|]. exists p. split; [by left|].
    specialize (Hall p ltac:(left)). lia.
  - intros p Hp. unfold truncatePath. rewrite decide_True; [done|].
    rewrite split_on_length. specialize (Hall p Hp). lia.
Qed.

Lemma calculateMaxDepth_is_maximum_witness :
  ∃ p, p ∈ ["a/b/c.wav"; "d.wav"]
       ∧ Z.of_nat (str_count slash (chars p)) = calculateMaxDepth ["a/b/c.wav"; "d.wav"].
Proof.
  apply (calculateMaxDepth_is_maximum ["a/b/c.wav"; "d.wav"]). discriminate.
Defined.

(** X17: [updateFileList] clears the list before it loops over the items of
    the list, so the loop never runs and the list is empty afterwards,
    whatever it held; hence [addFile] leaves the list empty whenever a file
    was chosen, the chosen file included, and leaves it as it was when the
    dialog was cancelled. *)
Theorem added_files_are_dropped depth fname view :
  updateFileList depth view = inr []
  ∧ addFile fname depth view = inr (if bool_decide (fname = "") then view else []).
Proof.
  split; [reflexivity|]. unfold addFile.
  destruct (decide (fname = "")) as [->|Hne]; [done|].
  rewrite bool_decide_true, bool_decide_false by done. reflexivity.
Qed.

(** ** The statistics of the build path, and an add run *)

Section BuildLog.

Context (C : collaborators).

Lemma sum_counts_make_ht a l hb d mt :
  sum_counts (make_ht_from_list C a l hb d mt)
  = sum_list ((λ f, length (sound_hashes C (aparams a) f)) <$> l).
Proof.
  unfold sum_counts. rewrite table_make_ht.
  induction l as [|f l IH]; [done|].
  rewrite bind_cons, fmap_cons, length_app, length_fmap, IH. reflexivity.
Qed.

Lemma sum_hashes_perm (H : string → nat) l1 l2 :
  l1 ≡ₚ l2 → sum_list (H <$> l1) = sum_list (H <$> l2).
Proof. intros Hp. by rewrite Hp. Qed.

Lemma sum_hashes_concat (H : string → nat) parts :
  sum_list ((λ l, sum_list (H <$> l)) <$> parts) = sum_list (H <$> concat parts).
Proof.
  induction parts as [|l parts IH]; [done|].
  rewrite fmap_cons. cbn [concat]. rewrite fmap_app, sum_list_with_app, <- IH. reflexivity.
Qed.

Lemma multiproc_add_run files ncores s a ht :
  1 ≤ ncores → analyzer s = Some a → hash_tab s = Some ht → 0 ≤ maxtimebits ht →
  ∃ s1,
    multiproc_add C (files, None) ncores s = (s1, inr tt)
    ∧ analyzer s1 = analyzer s
    ∧ fs_files s1 = fs_files s
    ∧ log s1
      = log s ++ imap (λ k t, [TableStats k (length (names t)) (sum_counts t)])
                  ((λ l, make_ht_from_list C a l (hashbits ht) (depth ht)
                           (1 ≪ maxtimebits ht))
                     <$> round_robin (Z.to_nat ncores) files).
Proof.
  intros Hn Ha Hh Hm. unfold multiproc_add. cbn [fst snd].
  unfold bind at 1. unfold lift. rewrite unpack_files_round_robin by done.
  set (n := Z.to_nat ncores). set (parts := round_robin n files).
  assert (py_shl1 (maxtimebits ht) = inr (Z.shiftl 1 (maxtimebits ht))) as Hs.
  { unfold py_shl1. destruct (decide _); [lia|done]. }
  destruct (launch_all_spec C parts (py_range ncores) s a ht _ Ha Hh Hs)
    as (s1 & Hr1 & Ha1 & Hh1 & ? & Hf1 & ? & Hl1 & Hev1).
  unfold bind at 1. rewrite Hr1.
  unfold py_range. fold n.
  assert (length parts = n) as Hlen by apply round_robin_length.
  pose proof (fmap_lookup_total_seq
                (λ l, worker_table C (Some a) l (hashbits ht) (depth ht) (1 ≪ maxtimebits ht))
                parts) as Hx.
  cbv beta in Hx. rewrite Hlen in Hx. rewrite Hx. clear Hx.
  unfold worker_table.
  match goal with
  | |- context [for_each_from 0 ?ws] =>
      replace ws with
        (@inr exn HashTable <$>
           ((λ l, make_ht_from_list C a l (hashbits ht) (depth ht) (1 ≪ maxtimebits ht))
              <$> parts))
        by (by rewrite <- list_fmap_compose)
  end.
  rewrite Hh in Hh1.
  destruct (gather_spec ((λ l, make_ht_from_list C a l (hashbits ht) (depth ht)
                                 (1 ≪ maxtimebits ht)) <$> parts) 0%nat s1 ht Hh1)
    as (s2 & Hr2 & Hh2 & Ha2 & ? & Hf2 & ? & Hl2 & Hev2).
  exists s2. rewrite Hr2. split_and!; try congruence.
  rewrite Hl2, Hl1. done.
Qed.

(** X18: for at least one process, [multiproc_add] logs one statistics line
    per process, in launch order; the number of hashes on the line of a
    process is the total for the files of its partition, the numbers of all
    lines add up to the total over all input files, and the analyzer of the
    orchestrating process is left as it was. *)
Theorem build_path_statistics files ncores s a ht :
  1 ≤ ncores → analyzer s = Some a → hash_tab s = Some ht → 0 ≤ maxtimebits ht →
  ∃ s1 stats,
    multiproc_add C (files, None) ncores s = (s1, inr tt)
    ∧ log s1 = log s ++ ((λ st : nat * nat * nat, [TableStats st.1.1 st.1.2 st.2]) <$> stats)
    ∧ stats.*1.*1 = seq 0 (Z.to_nat ncores)
    ∧ stats.*2
      = (λ l, sum_list ((λ f, length (sound_hashes C (aparams a) f)) <$> l))
          <$> round_robin (Z.to_nat ncores) files
    ∧ sum_list (stats.*2) = sum_list ((λ f, length (sound_hashes C (aparams a) f)) <$> files)
    ∧ analyzer s1 = Some a.
Proof.
  intros Hn Ha Hh Hm.
  destruct (multiproc_add_run files ncores s a ht Hn Ha Hh Hm) as (s1 & Hr & Ha1 & _ & Hl).
  set (tables := (λ l, make_ht_from_list C a l (hashbits ht) (depth ht) (1 ≪ maxtimebits ht))
                   <$> round_robin (Z.to_nat ncores) files) in *.
  exists s1, (imap (λ k t, (k, length (names t), sum_counts t)) tables).
  assert (length tables = Z.to_nat ncores) as Hlen.
  { unfold tables. by rewrite length_fmap, round_robin_length. }
  assert ((imap (λ k t, (k, length (names t), sum_counts t)) tables).*2
          = (λ l, sum_list ((λ f, length (sound_hashes C (aparams a) f)) <$> l))
              <$> round_robin (Z.to_nat ncores) files) as H2.
  { rewrite fmap_imap. unfold tables. rewrite imap_fmap.
    rewrite <- (imap_const (λ l, sum_list ((λ f, length (sound_hashes C (aparams a) f)) <$> l))).
    apply imap_ext. intros i l _. cbn. apply sum_counts_make_ht. }
  split_and!.
  - done.
  - rewrite Hl. f_equal. by rewrite fmap_imap.
  - rewrite <- Hlen, !fmap_imap.
    transitivity (imap (λ (j : nat) (_ : HashTable), j) tables).
    { by apply imap_ext. }
    rewrite (imap_seq_0 tables (λ j, j)). apply list_fmap_id.
  - done.
  - rewrite H2, sum_hashes_concat. apply sum_hashes_perm, round_robin_perm. lia.
  - by rewrite Ha1.
Qed.

End BuildLog.

Lemma build_path_statistics_witness :
  ∃ s1 stats,
    multiproc_add sample_collaborators (["a.wav"; "b.wav"; "c.wav"], None) 2 sample_state
    = (s1, inr tt)
    ∧ log s1
      = log sample_state
        ++ ((λ st : nat * nat * nat, [TableStats st.1.1 st.1.2 st.2]) <$> stats)
    ∧ stats.*1.*1 = seq 0 (Z.to_nat 2)
    ∧ stats.*2
      = (λ l, sum_list ((λ f, length (sound_hashes sample_collaborators
                                        (aparams sample_analyzer) f)) <$> l))
          <$> round_robin (Z.to_nat 2) ["a.wav"; "b.wav"; "c.wav"]
    ∧ sum_list (stats.*2)
      = sum_list ((λ f, length (sound_hashes sample_collaborators
                                  (aparams sample_analyzer) f))
                    <$> ["a.wav"; "b.wav"; "c.wav"])
    ∧ analyzer s1 = Some sample_analyzer.
Proof.
  apply (build_path_statistics sample_collaborators ["a.wav"; "b.wav"; "c.wav"] 2
           sample_state sample_analyzer sample_index); [lia|reflexivity|reflexivity|].
  vm_compute. discriminate.
Defined.

Section AddRun.

Context (C : collaborators).







End AddRun.


(** ** Options a command does not use *)

Section Options.

Context (C : collaborators).

(** X20: [main] builds an analyzer only for the commands that analyze sound
    and a matcher only for match: a merge, newmerge, list or remove run is
    the same under any values of the analyzer's options, and every run but a
    match run is the same under any values of the matcher's options. *)
Theorem unused_options_are_ignored a s :
  (arg_cmd a ∈ single_only →
   ∀ density pks_per_frame fanout freq_sd shifts samplerate continue_on_error,
     main C (with_analysis density pks_per_frame fanout freq_sd shifts samplerate
               continue_on_error a) s
     = main C a s)
  ∧ (arg_cmd a ≠ "match" →
     ∀ match_win search_depth min_count max_matches exact_count find_time_range
       time_quantile sortbytime illustrate illustrate_hpf,
       main C (with_matching match_win search_depth min_count max_matches exact_count
                 find_time_range time_quantile sortbytime illustrate illustrate_hpf a) s
       = main C a s).
Proof.
  split.
  - intros Hcmd density pks fanout freq_sd shifts samplerate coe.
    unfold main, main_run, main_save, setup_hash_tab.
    cbn [with_analysis arg_cmd arg_dbase arg_density
      arg_hashbits arg_bucketsize arg_maxtime arg_maxtimebits arg_samplerate arg_precompdir
      arg_shifts arg_match_win arg_min_count arg_max_matches arg_exact_count
      arg_find_time_range arg_time_quantile arg_freq_sd arg_fanout arg_pks_per_frame
      arg_search_depth arg_ncores arg_precompute_peaks arg_skip_existing
      arg_continue_on_error arg_list arg_sortbytime arg_illustrate arg_illustrate_hpf
      arg_wavdir arg_wavext arg_file].
    rewrite (bool_decide_true _ Hcmd). reflexivity.
  - intros Hcmd mw sd mc mm ec ftr tq sbt il ih.
    unfold main, main_run, main_save, setup_hash_tab.
    cbn [with_matching arg_cmd arg_dbase arg_density
      arg_hashbits arg_bucketsize arg_maxtime arg_maxtimebits arg_samplerate arg_precompdir
      arg_shifts arg_match_win arg_min_count arg_max_matches arg_exact_count
      arg_find_time_range arg_time_quantile arg_freq_sd arg_fanout arg_pks_per_frame
      arg_search_depth arg_ncores arg_precompute_peaks arg_skip_existing
      arg_continue_on_error arg_list arg_sortbytime arg_illustrate arg_illustrate_hpf
      arg_wavdir arg_wavext arg_file].
    rewrite (bool_decide_false _ Hcmd). reflexivity.
Qed.

End Options.

Lemma unused_options_are_ignored_witness :
  main sample_collaborators
    (with_analysis 7 1 1 1 2 22050 true (click_defaults "list" (Some "b.pklz") []))
    sample_start
  = main sample_collaborators (click_defaults "list" (Some "b.pklz") []) sample_start.
Proof.
  apply (proj1 (unused_options_are_ignored sample_collaborators
                  (click_defaults "list" (Some "b.pklz") []) sample_start)).
  apply (bool_decide_unpack _). vm_compute. reflexivity.
Defined.

(** ** The commands of the single-process executor *)

Section RaisesOnly.
Context (P : exn → Prop).

Lemma raises_only_ret {A} (a : A) : raises_only P (ret a).
Proof. by intros s s1 e [= _ ?]. Qed.
Lemma raises_only_raise {A} e : P e → raises_only P (@raise A e).
Proof. by intros He s s1 e' [= _ <-]. Qed.
Lemma raises_only_gets {A} g : raises_only P (@gets A g).
Proof. by intros s s1 e [= _ ?]. Qed.
Lemma raises_only_modify g : raises_only P (modify g).
Proof. by intros s s1 e [= _ ?]. Qed.
Lemma raises_only_lift {A} (r : exn + A) : (∀ e, r = inl e → P e) → raises_only P (lift r).
Proof. intros Hr s s1 e [= _ ?]. by apply Hr. Qed.
Lemma raises_only_bind {A B} (m : M A) (k : A → M B) :
  raises_only P m → (∀ a, raises_only P (k a)) → raises_only P (bind m k).
Proof.
  intros Hm Hk s s1 e. unfold bind. destruct (m s) as [s' [e'|a]] eqn:E.
  - intros [= _ <-]. by apply (Hm s s').
  - apply Hk.
Qed.
Lemma raises_only_try_pass m : raises_only P (try_pass m).
Proof. intros s s1 e. unfold try_pass. by destruct (m s) as [s' [e'|[]]]. Qed.
Lemma raises_only_for_each {A} (xs : list A) body :
  (∀ x, raises_only P (body x)) → raises_only P (for_each xs body).
Proof.
  intros Hb. induction xs as [|x xs IH]; cbn [for_each]; [apply raises_only_ret|].
  apply raises_only_bind; [apply Hb|done].
Qed.
Lemma raises_only_for_each_from {A} i (xs : list A) body :
  (∀ i x, raises_only P (body i x)) → raises_only P (for_each_from i xs body).
Proof.
  intros Hb. revert i. induction xs as [|x xs IH]; intros i; cbn [for_each_from];
    [apply raises_only_ret|].
  apply raises_only_bind; [apply Hb|done].
Qed.
Lemma raises_only_the_hash_tab : P AttributeError → raises_only P the_hash_tab.
Proof.
  intros HP s s1 e. unfold the_hash_tab. destruct (hash_tab s); [done|]. by intros [= _ <-].
Qed.
Lemma raises_only_the_analyzer : P AttributeError → raises_only P the_analyzer.
Proof.
  intros HP s s1 e. unfold the_analyzer. destruct (analyzer s); [done|]. by intros [= _ <-].
Qed.
End RaisesOnly.

Ltac raises_step :=
  first
    [ apply raises_only_ret | apply raises_only_raise; exact I
    | apply raises_only_gets | apply raises_only_modify
    | apply raises_only_the_hash_tab; exact I | apply raises_only_the_analyzer; exact I
    | apply raises_only_try_pass
    | apply raises_only_bind; [|intros ?]
    | apply raises_only_for_each; intros ?
    | apply raises_only_for_each_from; intros ? ?
    | match goal with
      | |- raises_only _ (match ?x with _ => _ end) => destruct x
      | |- raises_only _ (if ?b then _ else _) => destruct b
      end ].

Section Recognized.

Context (C : collaborators).

Lemma plain_write_file p c : raises_only no_value_error (write_file p c).
Proof. unfold write_file. repeat raises_step. Qed.

Lemma plain_analysis (hashes_not_peaks : bool) filename :
  raises_only no_value_error
    (if hashes_not_peaks then wavfile2hashes C filename else wavfile2peaks C filename).
Proof. destruct hashes_not_peaks; unfold wavfile2hashes, wavfile2peaks; repeat raises_step. Qed.

Lemma plain_file_precompute fn d t sk sp :
  raises_only no_value_error (file_precompute C fn d t sk sp).
Proof.
  unfold file_precompute, file_precompute_peaks_or_hashes, saver, ensure_dir.
  repeat first [ apply plain_analysis | apply plain_write_file | raises_step ].
Qed.

Lemma plain_file_match m fn num : raises_only no_value_error (file_match_to_msgs C m fn num).
Proof. unfold file_match_to_msgs. repeat raises_step. Qed.

Lemma plain_merge_one fn : raises_only no_value_error (merge_one fn).
Proof. unfold merge_one, HashTable_load, getitem, py_assert. repeat raises_step. Qed.

Lemma plain_ingest_loop files : ∀ ix tot,
  raises_only no_value_error (ingest_loop C ix files tot).
Proof.
  induction files as [|f files IH]; intros ix tot; cbn [ingest_loop].
  - apply raises_only_ret.
  - unfold ingest. repeat first [ apply (plain_analysis true) | apply IH | raises_step ].
Qed.

Lemma plain_truediv a b : raises_only no_value_error (lift (py_truediv a b)).
Proof.
  apply raises_only_lift. intros e. unfold py_truediv. destruct (Qeq_bool b 0); [|done].
  by intros [= <-].
Qed.

Lemma plain_generator_end (e : option exn) :
  (∀ msg, e ≠ Some (ValueError msg)) →
  raises_only no_value_error (match e with Some e => raise e | None => ret tt end).
Proof.
  intros He. destruct e as [e|]; [|apply raises_only_ret].
  apply raises_only_raise. destruct e; try exact I. by destruct (He msg).
Qed.

(** X21: [do_cmd] falls through to its last branch exactly for the names
    that are not among the eight commands [main] accepts: for such a name it
    raises the value error of line 188 at once, in the state it was called
    in; for each of the eight commands it raises no value error of its own,
    whatever the loops run into, unless the filename generator raises one. *)
Theorem click_commands_are_recognized cmd it matcher outdir type sk sp s :
  (cmd ∉ cmd_choices →
   do_cmd C cmd it matcher outdir type sk sp s
   = (s, inl (ValueError ("unrecognized command: " +:+ cmd))))
  ∧ (cmd ∈ cmd_choices → (∀ msg, it.2 ≠ Some (ValueError msg)) →
     ∀ msg, (do_cmd C cmd it matcher outdir type sk sp s).2 ≠ inl (ValueError msg)).
Proof.
  split.
  - intros Hcmd. unfold cmd_choices in Hcmd. rewrite !not_elem_of_cons in Hcmd.
    destruct Hcmd as (? & ? & ? & ? & ? & ? & ? & ? & _).
    unfold do_cmd. by rewrite !bool_decide_false by done.
  - intros Hcmd Hit.
    assert (raises_only no_value_error (do_cmd C cmd it matcher outdir type sk sp)) as Hro.
    { pose proof (plain_generator_end it.2 Hit) as Hend.
      unfold cmd_choices in Hcmd.
      repeat (apply elem_of_cons in Hcmd as [->|Hcmd]); [..|by apply elem_of_nil in Hcmd].
      - change (raises_only no_value_error
                  (let* tothashes := ingest_loop C 0 it.1 0 in
                   match it.2 with
                   | Some e => raise e
                   | None =>
                       let* a := the_analyzer in
                       let* rate := lift (py_truediv (inject_Z (Z.of_nat tothashes))
                                            (soundfiletotaldur a)) in
                       modify (add_log [Added tothashes rate])
                   end)).
        apply raises_only_bind; [apply plain_ingest_loop|intros tot].
        destruct it.2 as [e|]; [exact Hend|].
        repeat first [ apply plain_truediv | raises_step ].
      - change (raises_only no_value_error
                  (let* tothashes := ingest_loop C 0 it.1 0 in
                   match it.2 with
                   | Some e => raise e
                   | None =>
                       let* a := the_analyzer in
                       let* rate := lift (py_truediv (inject_Z (Z.of_nat tothashes))
                                            (soundfiletotaldur a)) in
                       modify (add_log [Added tothashes rate])
                   end)).
        apply raises_only_bind; [apply plain_ingest_loop|intros tot].
        destruct it.2 as [e|]; [exact Hend|].
        repeat first [ apply plain_truediv | raises_step ].
      - change (raises_only no_value_error
                  (for_iter it (λ filename,
                     let* msgs := file_precompute C filename outdir type sk sp in
                     modify (add_log msgs)))).
        unfold for_iter. apply raises_only_bind; [|intros _; exact Hend].
        repeat first [ apply plain_file_precompute | raises_step ].
      - change (raises_only no_value_error (for_iter it merge_one)).
        unfold for_iter. apply raises_only_bind; [|intros _; exact Hend].
        repeat first [ apply plain_merge_one | raises_step ].
      - change (raises_only no_value_error (for_iter it merge_one)).
        unfold for_iter. apply raises_only_bind; [|intros _; exact Hend].
        repeat first [ apply plain_merge_one | raises_step ].
      - change (raises_only no_value_error
                  (for_iter_from 0 it (λ num filename,
                     let* msgs := file_match_to_msgs C matcher filename (Some num) in
                     modify (add_log msgs)))).
        unfold for_iter_from. apply raises_only_bind; [|intros _; exact Hend].
        repeat first [ apply plain_file_match | raises_step ].
      - change (raises_only no_value_error
                  (let* ht := the_hash_tab in
                   for_each (names ht) (λ x, modify (add_log [Text x])))).
        repeat raises_step.
      - change (raises_only no_value_error
                  (for_iter it (λ filename,
                     let* ht := the_hash_tab in
                     modify (set_hash_tab (Some (remove filename ht)))))).
        unfold for_iter. apply raises_only_bind; [|intros _; exact Hend].
        repeat raises_step. }
    intros msg Hr.
    destruct (do_cmd C cmd it matcher outdir type sk sp s) as [s1 r] eqn:E.
    cbn [snd] in Hr. subst r. exact (Hro s s1 _ E).
Qed.

End Recognized.

Lemma click_commands_are_recognized_witness :
  do_cmd sample_collaborators "delete" (["a.wav"], None) None "." "hashes" false None
    sample_state
  = (sample_state, inl (ValueError ("unrecognized command: " +:+ "delete"))).
Proof.
  apply (proj1 (click_commands_are_recognized sample_collaborators "delete"
                  (["a.wav"], None) None "." "hashes" false None sample_state)).
  apply (bool_decide_unpack _). vm_compute. reflexivity.
Defined.

(** ** The sample rate of a merged index *)

Section NewMerge.

Context (C : collaborators).

Lemma merge_loop r : ∀ files tables s A,
  Forall2 (λ f B, fs_files s !! f = Some (FIndex B) ∧ params B !! "samplerate" = Some r)
    files tables →
  hash_tab s = Some A →
  params A !! "samplerate" = None ∨ params A !! "samplerate" = Some r →
  ∃ s1 A1,
    for_each files merge_one s = (s1, inr tt)
    ∧ hash_tab s1 = Some A1
    ∧ (files ≠ [] → params A1 !! "samplerate" = Some r ∧ dirty A1 = true)
    ∧ table A1 = table A ++ concat (table <$> tables)
    ∧ fs_files s1 = fs_files s
    ∧ events s1 = events s ++ (EvLoad <$> files).
Proof.
  induction files as [|f files IH]; intros tables s A Hall HA Hr.
  - apply Forall2_nil_inv_l in Hall as ->. exists s, A.
    cbn. rewrite !app_nil_r. done.
  - apply Forall2_cons_inv_l in Hall as (B & tables' & [HB Hrb] & Hall & ->).
    cbn [for_each].
    pose proof (merge_one_result f s A B HA HB) as Hone. rewrite Hrb in Hone.
    assert (∃ A', merge_one f s
                  = (set_hash_tab (Some (merge (set_dirty false B) A'))
                       (set_hash_tab (Some A') (add_event (EvLoad f) s)), inr tt)
                  ∧ params A' !! "samplerate" = Some r ∧ table A' = table A)
      as (A' & Hone' & Hr' & Ht').
    { destruct Hr as [Hr|Hr]; rewrite Hr in Hone.
      - exists (set_param "samplerate" r A). split; [done|]. split; [|done].
        cbn. apply lookup_insert_eq.
      - rewrite bool_decide_true in Hone by done. exists A. split; [|done].
        rewrite Hone. by destruct s. }
    rewrite (bind_returns _ _ _ _ _ Hone').
    edestruct (IH tables'
                 (set_hash_tab (Some (merge (set_dirty false B) A'))
                    (set_hash_tab (Some A') (add_event (EvLoad f) s)))
                 (merge (set_dirty false B) A'))
      as (s1 & A1 & Hrun & HA1 & Hp1 & Ht1 & Hf1 & He1); [exact Hall|reflexivity|by right|].
    exists s1, A1. split; [done|]. split; [done|]. split_and!.
    + intros _. destruct files as [|g files].
      * cbn [for_each] in Hrun. injection Hrun as <-. cbn in HA1. injection HA1 as <-. done.
      * by apply Hp1.
    + rewrite Ht1. cbn [table merge set_dirty fmap list_fmap concat]. rewrite Ht'.
      by rewrite <- app_assoc.
    + done.
    + rewrite He1. cbn [events set_hash_tab add_event fmap list_fmap].
      by rewrite <- app_assoc.
Qed.

Lemma select_executor_single_only cmd ncores :
  cmd ∈ single_only → select_executor cmd ncores = SingleProcess.
Proof.
  intros Hcmd. unfold select_executor. rewrite (bool_decide_true _ Hcmd).
  by rewrite andb_false_r.
Qed.

(** X22: a newmerge run of [main] over saved indexes that all record the
    sample rate [r] completes, and leaves a modified index that records the
    rate [r] and holds the entries of the saved indexes in input order: the
    fresh index gets no sample rate from the command line and adopts the one
    of the first index merged. *)
Theorem newmerge_adopts_sample_rate a s d tables r :
  arg_cmd a = "newmerge" → arg_dbase a = Some d → d ≠ "" →
  arg_list a = false → arg_maxtimebits a = None → arg_file a ≠ [] →
  Forall2 (λ f B,
             fs_files s !! path_join (arg_wavdir a) (f +:+ arg_wavext a) = Some (FIndex B)
             ∧ params B !! "samplerate" = Some r)
    (arg_file a) tables →
  ∃ s1 ht1,
    main_run C a s = (s1, inr tt)
    ∧ hash_tab s1 = Some ht1
    ∧ params ht1 !! "samplerate" = Some r
    ∧ table ht1 = concat (table <$> tables)
    ∧ dirty ht1 = true.
Proof.
  intros Hcmd Hd Hne Hlist Hmtb Hfiles Hall.
  assert (arg_cmd a ∈ cmd_choices) as Hch.
  { rewrite Hcmd. apply (bool_decide_unpack _). vm_compute. reflexivity. }
  assert (arg_cmd a ∈ single_only) as Hso.
  { rewrite Hcmd. apply (bool_decide_unpack _). vm_compute. reflexivity. }
  rewrite (main_run_unfold C a Hch), Hmtb.
  assert (main_analyzer a = None) as ->.
  { unfold main_analyzer. by rewrite (bool_decide_true _ Hso). }
  rewrite bind_modify.
  set (s0 := set_analyzer None s).
  pose proof (ensure_dir_returns (path_split d).1 s0) as Hens.
  pose proof (keeps_files_ensure_dir (path_split d).1 s0) as Hkf.
  pose proof (keeps_analyzer_ensure_dir (path_split d).1 s0) as Hka.
  destruct (ensure_dir (path_split d).1 s0) as [s' [e|[]]] eqn:Eens; [done|].
  cbn [fst] in Hkf, Hka.
  assert (setup_hash_tab C a (bitsfor (arg_maxtime a)) s0
          = (set_hash_tab
               (Some (HashTable_new (fresh_dirty C) (arg_hashbits a) (arg_bucketsize a)
                        (1 ≪ bitsfor (arg_maxtime a)))) s', inr tt)) as Hsetup.
  { unfold setup_hash_tab.
    rewrite bool_decide_false by (rewrite Hcmd; discriminate).
    rewrite Hd. cbn [negb no_dbase dbase_path default]. unfold id.
    rewrite (bool_decide_false _ Hne).
    rewrite bool_decide_true by (rewrite Hcmd; apply (bool_decide_unpack _); vm_compute; reflexivity).
    rewrite (bind_returns _ _ _ _ _ Eens).
    unfold py_shl1. rewrite decide_False by (pose proof (Z.log2_up_nonneg (arg_maxtime a)); unfold bitsfor; lia).
    unfold bind, lift, gets, modify. rewrite Hka. reflexivity. }
  rewrite (bind_returns _ _ _ _ _ Hsetup). rewrite bind_gets.
  rewrite (select_executor_single_only _ _ Hso), Hcmd.
  unfold filename_list_iterator. rewrite Hlist. cbn [negb].
  set (files := (λ filename, path_join (arg_wavdir a) (filename +:+ arg_wavext a))
                  <$> arg_file a).
  set (m := if bool_decide ("newmerge" = "match") then _ else None).
  change (do_cmd C "newmerge" (files, None) m (arg_precompdir a)
            (if negb (arg_precompute_peaks a) then "hashes" else "peaks")
            (arg_skip_existing a) (Some (arg_wavdir a)))
    with (for_iter (files, None) merge_one).
  edestruct (merge_loop r files tables
               (set_hash_tab
                  (Some (HashTable_new (fresh_dirty C) (arg_hashbits a) (arg_bucketsize a)
                           (1 ≪ bitsfor (arg_maxtime a)))) s'))
    as (s1 & A1 & Hrun & HA1 & Hp1 & Ht1 & _).
  { unfold files. apply Forall2_fmap_l. eapply Forall2_impl; [exact Hall|].
    intros f B [HB Hr]. cbn [fs_files set_hash_tab]. rewrite Hkf. done. }
  { reflexivity. }
  { left. apply lookup_empty. }
  exists s1, A1. unfold for_iter. cbn [fst snd].
  rewrite (bind_returns _ _ _ _ _ Hrun).
  assert (files ≠ []) as Hfne.
  { unfold files. intros E. apply fmap_nil_inv in E. done. }
  destruct (Hp1 Hfne) as [Hp Hdirty]. done.
Qed.

End NewMerge.

Lemma newmerge_adopts_sample_rate_witness :
  ∃ s1 ht1,
    main_run sample_collaborators (click_defaults "newmerge" (Some "new.pklz") ["b.pklz"])
      sample_start = (s1, inr tt)
    ∧ hash_tab s1 = Some ht1
    ∧ params ht1 !! "samplerate" = Some 22050
    ∧ table ht1 = concat (table <$> [sample_saved])
    ∧ dirty ht1 = true.
Proof.
  apply (newmerge_adopts_sample_rate sample_collaborators
           (click_defaults "newmerge" (Some "new.pklz") ["b.pklz"]) sample_start "new.pklz"
           [sample_saved] 22050).
  - reflexivity.
  - reflexivity.
  - discriminate.
  - reflexivity.
  - reflexivity.
  - discriminate.
  - repeat constructor.
Defined.
